(** * lab13: vector/matrix algebra, OBJ mesh loader and orbital scene

    A shallow embedding of [lab13/lab13/lab13.cpp].  The C++ type [float]
    is IEEE-754 binary32; it is modelled by the Standard Library's
    [spec_float] at precision 24 and maximal exponent 128, so every
    arithmetic operation of the source is the correctly rounded one and
    infinities and NaN behave as on the machine.  The algebra is written
    once, over an interface of scalar operations, and is instantiated at
    binary32 (the program) and at the real numbers (exact arithmetic, the
    reference the rounded results approximate). *)

From Stdlib Require Import ZArith List String Ascii Bool Lia.
From Stdlib Require Import Reals Lra.
From Stdlib Require Import Floats.SpecFloat.
Import ListNotations.

Set Implicit Arguments.

(** ** Scalars *)

(** The operations the source applies to [float] values. *)
Class Scalar : Type := {
  num : Type;
  of_int : Z -> num;            (* an integer literal or int-to-float conversion *)
  add : num -> num -> num;
  sub : num -> num -> num;
  mul : num -> num -> num;
  div : num -> num -> num;
  neg : num -> num;
  sqrt : num -> num;            (* std::sqrt *)
  ltb : num -> num -> bool;     (* a < b *)
  leb : num -> num -> bool      (* a <= b *)
}.

(** The functions of <cmath> that are not arithmetic. *)
Class Trig (S : Scalar) : Type := {
  cos : num -> num;
  sin : num -> num;
  tan : num -> num
}.

Declare Scope num_scope.
Delimit Scope num_scope with num.
Bind Scope num_scope with num.
Infix "+" := add : num_scope.
Infix "-" := sub : num_scope.
Infix "*" := mul : num_scope.
Infix "/" := div : num_scope.
Notation "- a" := (neg a) : num_scope.
Notation "a <? b" := (ltb a b) : num_scope.
Notation "a <=? b" := (leb a b) : num_scope.
Notation "a >? b" := (ltb b a) : num_scope.

(** *** binary32 *)

Module F32.
Definition prec : Z := 24.
Definition emax : Z := 128.

Definition float : Type := spec_float.

Definition of_int (n : Z) : float := binary_normalize prec emax n 0 false.

Definition add : float -> float -> float := SFadd prec emax.
Definition sub : float -> float -> float := SFsub prec emax.
Definition mul : float -> float -> float := SFmul prec emax.
Definition div : float -> float -> float := SFdiv prec emax.
Definition neg : float -> float := SFopp.
Definition sqrt : float -> float := SFsqrt prec emax.
Definition ltb : float -> float -> bool := SFltb.
Definition leb : float -> float -> bool := SFleb.

(** [a == b] on floats: the two zeros are equal, NaN equals nothing. *)
Definition eqb : float -> float -> bool := SFeqb.

(** A number of the format: a zero, or a nonzero value whose mantissa
    and exponent are those of a binary32 (normal or subnormal). *)
Definition finite (a : float) : bool :=
  match a with
  | S754_zero _ => true
  | S754_finite _ m e => bounded prec emax m e
  | _ => false
  end.

Definition is_nan (a : float) : bool :=
  match a with S754_nan => true | _ => false end.

(** [2^k], for the exact powers of two used as test data. *)
Definition pow2 (k : Z) : float := SFldexp prec emax (of_int 1) k.

(** [2^e] as a real number. *)
Definition bpow (e : Z) : R := powerRZ 2 e.

(** The real number a value stands for; zero for the infinities and
    NaN. *)
Definition to_R (a : float) : R :=
  match a with
  | S754_finite s m e =>
      ((if s then - IZR (Z.pos m) else IZR (Z.pos m)) * bpow e)%R
  | _ => 0%R
  end.

(** The sign of a value as a factor. *)
Definition sign_factor (s : bool) : R := if s then (-1)%R else 1%R.

(** [FLT_EPSILON], the distance from 1 to the next number, [2^-23], and
    the least positive number of the format, [2^-149]. *)
Definition eps : R := (/ 8388608)%R.
Definition denorm_min : R := bpow (-149).
End F32.

#[export] Instance binary32 : Scalar := {|
  num := F32.float;
  of_int := F32.of_int;
  add := F32.add;
  sub := F32.sub;
  mul := F32.mul;
  div := F32.div;
  neg := F32.neg;
  sqrt := F32.sqrt;
  ltb := F32.ltb;
  leb := F32.leb
|}.

(** *** Exact arithmetic *)

Definition exact : Scalar := {|
  num := R;
  of_int := IZR;
  add := Rplus;
  sub := Rminus;
  mul := Rmult;
  div := Rdiv;
  neg := Ropp;
  sqrt := R_sqrt.sqrt;
  ltb := fun a b => if Rlt_dec a b then true else false;
  leb := fun a b => if Rle_dec a b then true else false
|}.

#[export] Instance exact_trig : Trig exact :=
  @Build_Trig exact Rtrigo_def.cos Rtrigo_def.sin Rtrigo1.tan.

(** ** Vectors and matrices *)

Section Algebra.
Context {F : Scalar}.
Local Open Scope num_scope.

(** Literals of the source: [0.0f], [1.0f], and decimal fractions such as
    [1e-6f], which denote the binary32 nearest to the quotient. *)
Definition zero : num := of_int 0.
Definition one : num := of_int 1.
Definition dec (n d : Z) : num := of_int n / of_int d.

Record Vec3 : Type := mkVec3 { x : num; y : num; z : num }.

(** [Vec3()] *)
Definition Vec3_default : Vec3 := mkVec3 zero zero zero.

(** [operator+], [operator-], [operator*(Vec3, float)] *)
Definition vadd (a b : Vec3) : Vec3 := mkVec3 (x a + x b) (y a + y b) (z a + z b).
Definition vsub (a b : Vec3) : Vec3 := mkVec3 (x a - x b) (y a - y b) (z a - z b).
Definition vscale (a : Vec3) (s : num) : Vec3 := mkVec3 (x a * s) (y a * s) (z a * s).

Definition Dot (a b : Vec3) : num := x a * x b + y a * y b + z a * z b.

Definition Cross (a b : Vec3) : Vec3 :=
  mkVec3 (y a * z b - z a * y b)
         (z a * x b - x a * z b)
         (x a * y b - y a * x b).

Definition Length (v : Vec3) : num := sqrt (Dot v v).

Definition Normalize (v : Vec3) : Vec3 :=
  let len := Length v in
  if len <=? dec 1 1000000 then v
  else vscale v (one / len).

(** [struct Mat4 { float m[16] = { 0 }; }], column-major: the entry of
    column [col] and row [row] is [m[col * 4 + row]]. *)
Definition Mat4 : Type := list num.

Definition Mat4_default : Mat4 := repeat zero 16.

(** [a.m[i]] *)
Definition get (a : Mat4) (i : nat) : num := nth i a zero.

(** [r.m[i] = v] *)
Fixpoint set (r : Mat4) (i : nat) (v : num) : Mat4 :=
  match r, i with
  | [], _ => []
  | _ :: r', O => v :: r'
  | a :: r', S i' => a :: set r' i' v
  end.

Definition Identity : Mat4 :=
  let r := Mat4_default in
  let r := set r 15 one in
  let r := set r 10 one in
  let r := set r 5 one in
  let r := set r 0 one in
  r.

Definition Translation (tx ty tz : num) : Mat4 :=
  let r := Identity in
  let r := set r 12 tx in
  let r := set r 13 ty in
  let r := set r 14 tz in
  r.

Definition Scale (sx sy sz : num) : Mat4 :=
  let r := Mat4_default in
  let r := set r 0 sx in
  let r := set r 5 sy in
  let r := set r 10 sz in
  let r := set r 15 one in
  r.

Definition RotationY {T : Trig F} (angleRad : num) : Mat4 :=
  let r := Identity in
  let c := cos angleRad in
  let s := sin angleRad in
  let r := set r 0 c in
  let r := set r 2 s in
  let r := set r 8 (- s) in
  let r := set r 10 c in
  r.

Definition Perspective {T : Trig F} (fovyRad aspect zNear zFar : num) : Mat4 :=
  let r := Mat4_default in
  let tanHalfFovy := tan (fovyRad / of_int 2) in
  let r := set r 0 (one / (aspect * tanHalfFovy)) in
  let r := set r 5 (one / tanHalfFovy) in
  let r := set r 10 (- (zFar + zNear) / (zFar - zNear)) in
  let r := set r 11 (- one) in
  let r := set r 14 (- (of_int 2 * zFar * zNear) / (zFar - zNear)) in
  r.

Definition LookAt (eye center up : Vec3) : Mat4 :=
  let f := Normalize (vsub center eye) in
  let s := Normalize (Cross f up) in
  let u := Cross s f in
  let r := Identity in
  let r := set r 0 (x s) in
  let r := set r 4 (y s) in
  let r := set r 8 (z s) in
  let r := set r 1 (x u) in
  let r := set r 5 (y u) in
  let r := set r 9 (z u) in
  let r := set r 2 (- x f) in
  let r := set r 6 (- y f) in
  let r := set r 10 (- z f) in
  let r := set r 12 (- Dot s eye) in
  let r := set r 13 (- Dot u eye) in
  let r := set r 14 (Dot f eye) in
  r.

(** [operator*(const Mat4&, const Mat4&)]: both loops run over 0..3 and
    each pass assigns one entry of [r]. *)
Definition entry (a b : Mat4) (col row : nat) : num :=
  get a (0 * 4 + row) * get b (col * 4 + 0) +
  get a (1 * 4 + row) * get b (col * 4 + 1) +
  get a (2 * 4 + row) * get b (col * 4 + 2) +
  get a (3 * 4 + row) * get b (col * 4 + 3).

Definition mmul (a b : Mat4) : Mat4 :=
  fold_left
    (fun r col =>
       fold_left (fun r row => set r (col * 4 + row) (entry a b col row))
                 (seq 0 4) r)
    (seq 0 4) Mat4_default.

End Algebra.

Arguments Vec3 : clear implicits.
Arguments Mat4 : clear implicits.

(** ** The scene: orbiting bodies and the camera *)

Section Scene.
Context {F : Scalar} {T : Trig F}.
Local Open Scope num_scope.

Record Planet : Type := mkPlanet {
  orbitRadius : num;
  orbitSpeed : num;
  selfSpeed : num;
  scale : num;
  orbitAngle : num;
  selfAngle : num
}.

(** The body of [for (auto& p : planets)]: both angles advance by speed
    times elapsed time. *)
Definition advance (dt : num) (p : Planet) : Planet :=
  let orbitAngle' := orbitAngle p + orbitSpeed p * dt in
  let selfAngle' := selfAngle p + selfSpeed p * dt in
  mkPlanet (orbitRadius p) (orbitSpeed p) (selfSpeed p) (scale p)
           orbitAngle' selfAngle'.

(** The update loop visits every element of the vector in order. *)
Definition update_planets (dt : num) (planets : list Planet) : list Planet :=
  map (advance dt) planets.

(** The body of the draw loop up to the upload of [model]. *)
Definition model_matrix (p : Planet) : Mat4 F :=
  let '(px, pz) :=
    if orbitRadius p >? zero
    then (cos (orbitAngle p) * orbitRadius p, sin (orbitAngle p) * orbitRadius p)
    else (zero, zero) in
  mmul (mmul (Translation px zero pz) (RotationY (selfAngle p)))
       (Scale (scale p) (scale p) (scale p)).

(** The construction of the scene.  [rand k] is the value of the k-th
    call of [rand()], counted from zero. *)
Variable RAND_MAX : Z.
Variable rand : nat -> Z.

(** The lambda [frand], at its k-th call of [rand()]. *)
Definition frand (a b : num) (k : nat) : num :=
  a + (b - a) * (of_int (rand k) / of_int RAND_MAX).

Definition planetCount : nat := 100.

(** The body of the construction loop for index [i]: five calls of
    [frand], in source order. *)
Definition satellite (i : nat) : Planet :=
  let orbitRadius := of_int (Z.of_nat i / 2) + of_int 4 in
  let orbitSpeed := frand (dec 1 2) (dec 3 2) (5 * i) / orbitRadius in
  let selfSpeed := frand (dec 3 10) (dec 3 2) (5 * i + 1) in
  let scale := frand (dec 4 10) (dec 3 2) (5 * i + 2) in
  let orbitAngle := frand zero (of_int 360) (5 * i + 3) in
  let selfAngle := frand zero (of_int 360) (5 * i + 4) in
  mkPlanet orbitRadius orbitSpeed selfSpeed scale orbitAngle selfAngle.

(** The sun, then the satellites. *)
Definition initial_planets : list Planet :=
  mkPlanet zero zero (dec 2 10) (of_int 4) zero zero
  :: map satellite (seq 0 planetCount).

(** Keys the loop polls with [sf::Keyboard::isKeyPressed]. *)
Record Keys : Type := mkKeys {
  key_W : bool; key_S : bool; key_A : bool; key_D : bool;
  key_Space : bool; key_LShift : bool;
  key_Left : bool; key_Right : bool; key_Up : bool; key_Down : bool
}.

Record Camera : Type := mkCamera { camPos : Vec3 F; yaw : num; pitch : num }.

(** [camPos], [yaw] and [pitch] as [main] initializes them. *)
Definition initial_camera : Camera :=
  mkCamera (mkVec3 zero (of_int 3) (of_int 12)) (- of_int 90) (- of_int 15).

Definition worldUp : Vec3 F := mkVec3 zero one zero.
Definition cameraSpeed : num := of_int 7.
Definition rotationSpeed : num := of_int 50.

(** [(float)M_PI]: the binary32 nearest to pi, 13176795 * 2^-22. *)
Definition M_PI_f : num := dec 13176795 4194304.

Definition deg2rad (d : num) : num := d * M_PI_f / of_int 180.

Definition calcCameraFront (yaw pitch : num) : Vec3 F :=
  let cy := cos (deg2rad yaw) in
  let sy := sin (deg2rad yaw) in
  let cp := cos (deg2rad pitch) in
  let sp := sin (deg2rad pitch) in
  Normalize (mkVec3 (cy * cp) sp (sy * cp)).

(** The lambda [makeProjection], for a window of [w] by [h] pixels. *)
Definition makeProjection (w h : Z) : Mat4 F :=
  let aspect := if (h =? 0)%Z then one else of_int w / of_int h in
  Perspective (deg2rad (of_int 60)) aspect (dec 1 10) (of_int 1000).

(** The six movement tests, in source order. *)
Definition move_camera (k : Keys) (dt : num) (c : Camera) : Vec3 F :=
  let camFront := calcCameraFront (yaw c) (pitch c) in
  let camRight := Normalize (Cross camFront worldUp) in
  let p := camPos c in
  let p := if key_W k then vadd p (vscale camFront (cameraSpeed * dt)) else p in
  let p := if key_S k then vsub p (vscale camFront (cameraSpeed * dt)) else p in
  let p := if key_A k then vsub p (vscale camRight (cameraSpeed * dt)) else p in
  let p := if key_D k then vadd p (vscale camRight (cameraSpeed * dt)) else p in
  let p := if key_Space k then vadd p (vscale worldUp (cameraSpeed * dt)) else p in
  let p := if key_LShift k then vsub p (vscale worldUp (cameraSpeed * dt)) else p in
  p.

Definition turn_yaw (k : Keys) (dt : num) (yaw : num) : num :=
  let yaw := if key_Left k then yaw - rotationSpeed * dt else yaw in
  let yaw := if key_Right k then yaw + rotationSpeed * dt else yaw in
  yaw.

(** The pitch keys followed by the two clamping tests. *)
Definition turn_pitch (k : Keys) (dt : num) (pitch : num) : num :=
  let pitch := if key_Up k then pitch + rotationSpeed * dt * dec 1 2 else pitch in
  let pitch := if key_Down k then pitch - rotationSpeed * dt * dec 1 2 else pitch in
  let pitch := if pitch >? of_int 89 then of_int 89 else pitch in
  let pitch := if pitch <? - of_int 89 then - of_int 89 else pitch in
  pitch.

Definition update_camera (k : Keys) (dt : num) (c : Camera) : Camera :=
  mkCamera (move_camera k dt c) (turn_yaw k dt (yaw c)) (turn_pitch k dt (pitch c)).

Definition view_matrix (c : Camera) : Mat4 F :=
  let camFront := calcCameraFront (yaw c) (pitch c) in
  LookAt (camPos c) (vadd (camPos c) camFront) worldUp.

(** What one pass of the main loop computes from the elapsed time and the
    keys held: the new camera and bodies, and the matrices it uploads. *)
Record World : Type := mkWorld { camera : Camera; planets : list Planet }.

Record Frame : Type := mkFrame {
  view : Mat4 F;
  models : list (Mat4 F)
}.

Definition frame (input : num * Keys) (w : World) : World * Frame :=
  let '(dt, k) := input in
  let c := update_camera k dt (camera w) in
  let ps := update_planets dt (planets w) in
  (mkWorld c ps, mkFrame (view_matrix c) (map model_matrix ps)).

(** The loop, for as many passes as there are inputs; the worlds reached
    after each pass, in order. *)
Fixpoint run (inputs : list (num * Keys)) (w : World) : list (World * Frame) :=
  match inputs with
  | [] => []
  | i :: rest => let wf := frame i w in wf :: run rest (fst wf)
  end.

(** What the simulator exposes of a body after a pass. *)
Definition observe (p : Planet) : num * num * Mat4 F :=
  (orbitAngle p, selfAngle p, model_matrix p).

End Scene.

Arguments Planet : clear implicits.
Arguments Camera : clear implicits.
Arguments World : clear implicits.
Arguments Frame : clear implicits.

(** ** Text: lines, tokens and integers *)

Module Text.
Local Open Scope string_scope.
Local Open Scope Z_scope.

Definition newline : ascii := ascii_of_nat 10.
Definition slash : ascii := ascii_of_nat 47.

(** [std::isspace] in the classic locale: space, \t, \n, \v, \f, \r. *)
Definition isspace (c : ascii) : bool :=
  let n := Z.of_nat (nat_of_ascii c) in
  (n =? 32) || ((9 <=? n) && (n <=? 13)).

Definition isdigit (c : ascii) : bool :=
  let n := Z.of_nat (nat_of_ascii c) in
  (48 <=? n) && (n <=? 57).

Definition empty (s : string) : bool :=
  match s with EmptyString => true | _ => false end.

(** The lines [std::getline] delivers one after the other: each ends at
    a newline or at the end of the text, and no line is delivered once
    nothing is left. *)
Fixpoint getlines (s : string) : list string :=
  match s with
  | EmptyString => []
  | String c s' =>
      if Ascii.eqb c newline then EmptyString :: getlines s'
      else match getlines s' with
           | [] => [String c EmptyString]
           | l :: ls => String c l :: ls
           end
  end.

(** Formatted extraction of a [std::string]: leading whitespace is
    dropped, then characters are taken up to the next whitespace. *)
Fixpoint skipws (s : string) : string :=
  match s with
  | String c s' => if isspace c then skipws s' else s
  | EmptyString => EmptyString
  end.

Fixpoint word (s : string) : string * string :=
  match s with
  | String c s' =>
      if isspace c then (EmptyString, s)
      else let '(w, r) := word s' in (String c w, r)
  | EmptyString => (EmptyString, EmptyString)
  end.

(** [iss >> token]: the token and the rest of the stream, or [None] when
    the extraction fails because only whitespace was left. *)
Definition extract (s : string) : option (string * string) :=
  match skipws s with
  | EmptyString => None
  | s1 => Some (word s1)
  end.

(** [while (iss >> token) tokens.push_back(token);] *)
Fixpoint read_tokens (fuel : nat) (s : string) : list string :=
  match fuel with
  | O => []
  | S fuel' =>
      match extract s with
      | None => []
      | Some (t, rest) => t :: read_tokens fuel' rest
      end
  end.

Definition tokens_of (s : string) : list string :=
  read_tokens (S (String.length s)) s.

(** *** [std::stoi] *)

Definition INT_MIN : Z := - 2 ^ 31.
Definition INT_MAX : Z := 2 ^ 31 - 1.

(** The value of the longest prefix of decimal digits, and how many
    digits it has. *)
Fixpoint digits (s : string) (acc : Z) (n : nat) : Z * nat :=
  match s with
  | String c s' =>
      if isdigit c
      then digits s' (10 * acc + (Z.of_nat (nat_of_ascii c) - 48)) (S n)
      else (acc, n)
  | EmptyString => (acc, n)
  end.

(** [std::stoi(s)]: optional whitespace, an optional sign, decimal
    digits; what follows the digits is ignored.  [None] stands for the
    exception thrown when there is no digit ([std::invalid_argument]) or
    the value does not fit an [int] ([std::out_of_range]). *)
Definition stoi (s : string) : option Z :=
  let s := skipws s in
  let '(negative, s) :=
    match s with
    | String c s' =>
        if Ascii.eqb c "-"%char then (true, s')
        else if Ascii.eqb c "+"%char then (false, s')
        else (false, s)
    | EmptyString => (false, s)
    end in
  let '(v, n) := digits s 0 0 in
  match n with
  | O => None
  | _ =>
      let v := if negative then - v else v in
      if (INT_MIN <=? v) && (v <=? INT_MAX) then Some v else None
  end.

(** [s.find('/')] with the two [substr] calls around the position found:
    the text before the first slash and the text after it. *)
Fixpoint find_slash (s : string) : option (string * string) :=
  match s with
  | EmptyString => None
  | String c s' =>
      if Ascii.eqb c slash then Some (EmptyString, s')
      else match find_slash s' with
           | Some (b, a) => Some (String c b, a)
           | None => None
           end
  end.

(** [(int)v.size()]: the conversion of a size to a 32-bit [int]. *)
Definition to_int (n : nat) : Z :=
  (Z.of_nat n + 2 ^ 31) mod 2 ^ 32 - 2 ^ 31.
End Text.

(** ** The mesh loader *)

Section Loader.
Context {F : Scalar}.
Local Open Scope num_scope.

(** [iss >> x] for a [float] variable: the value the library stores in
    the variable and the rest of the stream.  The conversion of text to
    binary32 belongs to the C++ library and is a parameter here.  It
    stands for the extraction of a number that is present; where a
    record lacks a number the source leaves the variable as it finds it,
    and the statements below say nothing of the value it then holds,
    only of how many values are stored. *)
Variable extract_float : string -> num * string.

(** [sf::Vector2f] *)
Record Vector2f : Type := mkVector2f { u : num; v : num }.

Record Loader : Type := mkLoader {
  positions : list (Vec3 F);
  texcoords : list Vector2f;
  outVertices : list num
}.

(** The lambda [parseIndex]; [None] when a [std::stoi] call throws. *)
Definition parseIndex (s : string) : option (Z * Z) :=
  match Text.find_slash s with
  | None =>
      match Text.stoi s with
      | Some vi => Some (vi, 0%Z)
      | None => None
      end
  | Some (vStr, after) =>
      match (if Text.empty vStr then Some 0%Z else Text.stoi vStr) with
      | None => None
      | Some vi =>
          let vtStr :=
            match Text.find_slash after with
            | None => after
            | Some (b, _) => b
            end in
          match (if Text.empty vtStr then Some 0%Z else Text.stoi vtStr) with
          | None => None
          | Some ti => Some (vi, ti)
          end
      end
  end.

(** The lambda [pushVertex]: it reads the two collections and appends to
    [outVertices]. *)
Definition pushVertex (st : Loader) (vi ti : Z) : Loader :=
  if ((vi <=? 0) || (vi >? Text.to_int (List.length (positions st))))%Z then st
  else
    let p := nth (Z.to_nat (vi - 1)) (positions st) Vec3_default in
    let t :=
      if ((ti >? 0) && (ti <=? Text.to_int (List.length (texcoords st))))%Z
      then nth (Z.to_nat (ti - 1)) (texcoords st) (mkVector2f zero zero)
      else mkVector2f zero zero in
    mkLoader (positions st) (texcoords st)
             (outVertices st ++ [x p; y p; z p; u t; v t]).

(** One pass of the triangulation loop, for index [i]. *)
Definition fan_step (tokens : list string) (v0 : Z * Z)
    (st : option Loader) (i : nat) : option Loader :=
  match st with
  | None => None
  | Some st =>
      match parseIndex (nth i tokens EmptyString) with
      | None => None
      | Some v1 =>
          match parseIndex (nth (i + 1) tokens EmptyString) with
          | None => None
          | Some v2 =>
              let st := pushVertex st (fst v0) (snd v0) in
              let st := pushVertex st (fst v1) (snd v1) in
              let st := pushVertex st (fst v2) (snd v2) in
              Some st
          end
      end
  end.

(** The branch for the prefix [f], after the tokens are read. *)
Definition face (st : Loader) (tokens : list string) : option Loader :=
  if (List.length tokens <? 3)%nat then Some st
  else
    match parseIndex (nth 0 tokens EmptyString) with
    | None => None
    | Some v0 =>
        (* for (size_t i = 1; i + 1 < tokens.size(); ++i) *)
        fold_left (fan_step tokens v0) (seq 1 (List.length tokens - 2)) (Some st)
    end.

(** The body of the [while (std::getline(file, line))] loop. *)
Definition record (st : Loader) (line : string) : option Loader :=
  if Text.empty line then Some st
  else
    let '(prefix, iss) :=
      match Text.extract line with
      | Some (p, r) => (p, r)
      | None => (EmptyString, EmptyString)
      end in
    if String.eqb prefix "v" then
      let '(px, iss) := extract_float iss in
      let '(py, iss) := extract_float iss in
      let '(pz, iss) := extract_float iss in
      Some (mkLoader (positions st ++ [mkVec3 px py pz]) (texcoords st)
                     (outVertices st))
    else if String.eqb prefix "vt" then
      let '(tu, iss) := extract_float iss in
      let '(tv, iss) := extract_float iss in
      Some (mkLoader (positions st) (texcoords st ++ [mkVector2f tu tv])
                     (outVertices st))
    else if String.eqb prefix "f" then
      face st (Text.tokens_of iss)
    else Some st.

Definition records (st : Loader) (lines : list string) : option Loader :=
  fold_left (fun st line => match st with
                            | Some st => record st line
                            | None => None
                            end)
            lines (Some st).

(** [LoadOBJ(filename, outVertices)].  [file] is the text of the file, or
    [None] when it cannot be opened; the result is the value returned
    with the final contents of [outVertices], or [None] when an
    exception leaves the function. *)
Definition LoadOBJ (file : option string) (outVertices0 : list num)
    : option (bool * list num) :=
  match file with
  | None => Some (false, outVertices0)
  | Some text =>
      match records (mkLoader [] [] outVertices0) (Text.getlines text) with
      | None => None
      | Some st =>
          match outVertices st with
          | [] => Some (false, outVertices st)
          | _ => Some (true, outVertices st)
          end
      end
  end.

(** [outVertices.size() / 5], the count the loader logs and
    [CreateMeshFromInterleaved] stores in [vertexCount]. *)
Definition vertexCount (data : list num) : nat := (List.length data / 5)%nat.

End Loader.

Arguments Vector2f : clear implicits.
Arguments Loader : clear implicits.

(** *** A reader of decimal numerals

    For the examples: [sign digits [. digits]], converted by one correctly
    rounded division, which is the value the C++ library stores for
    numerals of at most seven significant digits.  Text that does not
    start with a numeral stores zero. *)

Module Decimal.
Local Open Scope Z_scope.

Definition read (s : string) : F32.float * string :=
  let s := Text.skipws s in
  let '(negative, s) :=
    match s with
    | String c s' =>
        if Ascii.eqb c "-"%char then (true, s')
        else if Ascii.eqb c "+"%char then (false, s')
        else (false, s)
    | EmptyString => (false, s)
    end in
  let '(ip, n) := Text.digits s 0 0 in
  let s := string_of_list_ascii (skipn n (list_ascii_of_string s)) in
  let '(fp, k, s) :=
    match s with
    | String c s' =>
        if Ascii.eqb c "."%char
        then let '(fp, k) := Text.digits s' 0 0 in
             (fp, k, string_of_list_ascii (skipn k (list_ascii_of_string s')))
        else (0, O, s)
    | EmptyString => (0, O, s)
    end in
  match n, k with
  | O, O => (F32.of_int 0, EmptyString)
  | _, _ =>
      let m := ip * 10 ^ Z.of_nat k + fp in
      let a := F32.div (F32.of_int m) (F32.of_int (10 ^ Z.of_nat k)) in
      (if negative then F32.neg a else a, s)
  end.
End Decimal.

(** ** Vocabulary of the statements *)

Section SceneVocabulary.
Context {F : Scalar} {T : Trig F}.
Local Open Scope num_scope.

(** Where a body stands: on its orbit when the radius is positive, at
    the origin otherwise. *)
Definition orbit_position (p : Planet F) : Vec3 F :=
  if orbitRadius p >? zero
  then mkVec3 (cos (orbitAngle p) * orbitRadius p) zero
              (sin (orbitAngle p) * orbitRadius p)
  else mkVec3 zero zero zero.

(** [translate(position) * rotateY(selfAngle) * scale(s, s, s)] *)
Definition world_transform (position : Vec3 F) (selfAngle s : num) : Mat4 F :=
  mmul (mmul (Translation (x position) (y position) (z position))
             (RotationY selfAngle))
       (Scale s s s).

(** Modelled from the spec: the product of a matrix and the homogeneous
    point [(px, py, pz, pw)], which the source leaves to the vertex
    shader ([uProj * uView * uModel * vec4(aPos, 1.0)]).  Each row is
    summed in the order in which [operator*] sums an entry. *)
Definition transform (a : Mat4 F) (px py pz pw : num) : list num :=
  map (fun row =>
         get a (0 * 4 + row) * px + get a (1 * 4 + row) * py +
         get a (2 * 4 + row) * pz + get a (3 * 4 + row) * pw)
      (seq 0 4).

(** A pitch of the closed interval from -89 to 89 degrees. *)
Definition in_pitch_range (pitch : num) : bool :=
  (- of_int 89 <=? pitch) && (pitch <=? of_int 89).

(** What a pitch key adds or takes in a pass of [dt] seconds. *)
Definition pitch_step (dt : num) : num := rotationSpeed * dt * dec 1 2.

(** The attributes of a body that are set when the scene is built. *)
Definition attributes (p : Planet F) : num * num * num * num :=
  (orbitRadius p, orbitSpeed p, selfSpeed p, scale p).

(** What the bodies expose after each pass of a run. *)
Definition observations (trace : list (World F * Frame F))
  : list (list (num * num * Mat4 F)) :=
  map (fun wf => map observe (planets (fst wf))) trace.

End SceneVocabulary.

Section LoaderVocabulary.
Context {F : Scalar}.

(** The five reals of one vertex: position, then texture coordinate. *)
Definition emit (p : Vec3 F) (t : Vector2f F) : list num :=
  [x p; y p; z p; u t; v t].

Definition stream_of (vs : list (Vec3 F * Vector2f F)) : list num :=
  flat_map (fun pt => emit (fst pt) (snd pt)) vs.

(** The texture coordinate a reference with texture index [ti] gets. *)
Definition texture (st : Loader F) (ti : Z) : Vector2f F :=
  if ((ti >? 0) && (ti <=? Text.to_int (List.length (texcoords st))))%Z
  then nth (Z.to_nat (ti - 1)) (texcoords st) (mkVector2f zero zero)
  else mkVector2f zero zero.

(** A position index that names one of the positions read so far. *)
Definition in_range (st : Loader F) (vi : Z) : bool :=
  ((0 <? vi) && (vi <=? Text.to_int (List.length (positions st))))%Z.

(** Fan triangulation of a polygon around its first vertex:
    (v0, v1, v2), (v0, v2, v3), ..., (v0, v_{n-2}, v_{n-1}). *)
Definition fan {A : Type} (vs : list A) : list (A * A * A) :=
  match vs with
  | [] => []
  | v0 :: rest => map (fun ab => (v0, fst ab, snd ab)) (combine rest (tl rest))
  end.

(** The vertices a reference contributes: one when its position index
    is in range, none otherwise. *)
Definition pushed (st : Loader F) (ref : Z * Z) : list (Vec3 F * Vector2f F) :=
  if in_range st (fst ref)
  then [(nth (Z.to_nat (fst ref - 1)) (positions st) Vec3_default,
         texture st (snd ref))]
  else [].

Definition pushed_triangle (st : Loader F) (tri : (Z * Z) * (Z * Z) * (Z * Z))
  : list (Vec3 F * Vector2f F) :=
  let '(a, b, c) := tri in pushed st a ++ pushed st b ++ pushed st c.

(** The three [pushVertex] calls for one triangle of references. *)
Definition push_triangle (st : Loader F) (tri : (Z * Z) * (Z * Z) * (Z * Z))
  : Loader F :=
  let '(a, b, c) := tri in
  let st := pushVertex st (fst a) (snd a) in
  let st := pushVertex st (fst b) (snd b) in
  let st := pushVertex st (fst c) (snd c) in
  st.

End LoaderVocabulary.

Section ReaderVocabulary.
Context {F : Scalar}.
Variable extract_float : string -> num * string.

(** [iss >> x >> y >> z] and [iss >> u >> v] on what follows the prefix. *)
Definition scan_position (iss : string) : Vec3 F :=
  let '(px, iss) := extract_float iss in
  let '(py, iss) := extract_float iss in
  let '(pz, iss) := extract_float iss in
  mkVec3 px py pz.

Definition scan_texcoord (iss : string) : Vector2f F :=
  let '(tu, iss) := extract_float iss in
  let '(tv, iss) := extract_float iss in
  mkVector2f tu tv.

End ReaderVocabulary.

(** The kinds of record the loader tells apart, with what follows the
    prefix: the rest of the line, or the tokens of a face. *)
Inductive Record_kind : Type :=
| Position (rest : string)
| Texcoord (rest : string)
| Face (tokens : list string)
| Ignored.

Definition kind_of (line : string) : Record_kind :=
  if Text.empty line then Ignored
  else match Text.extract line with
       | None => Ignored
       | Some (prefix, rest) =>
           if String.eqb prefix "v" then Position rest
           else if String.eqb prefix "vt" then Texcoord rest
           else if String.eqb prefix "f" then Face (Text.tokens_of rest)
           else Ignored
       end.

(** Every token of a face that is triangulated converts: no [std::stoi]
    call of [parseIndex] throws. *)
Definition face_converts (tokens : list string) : bool :=
  (List.length tokens <? 3)%nat
  || forallb (fun t => match parseIndex t with Some _ => true | None => false end)
             tokens.

Definition converts (lines : list string) : bool :=
  forallb (fun line => match kind_of line with
                       | Face tokens => face_converts tokens
                       | _ => true
                       end) lines.

(** Every reference of every triangulated face converts and names a
    position declared above it; [npos] counts the positions so far. *)
Definition face_in_range (npos : nat) (tokens : list string) : bool :=
  (List.length tokens <? 3)%nat
  || forallb (fun t => match parseIndex t with
                       | Some (vi, _) => ((0 <? vi) && (vi <=? Text.to_int npos))%Z
                       | None => false
                       end) tokens.

Fixpoint refs_in_range (npos : nat) (lines : list string) : bool :=
  match lines with
  | [] => true
  | line :: rest =>
      match kind_of line with
      | Position _ => refs_in_range (S npos) rest
      | Face tokens => face_in_range npos tokens && refs_in_range npos rest
      | _ => refs_in_range npos rest
      end
  end.

(** Equality of binary32 values up to the sign of zero. *)
Definition same (a b : F32.float) : Prop :=
  a = b \/ exists s s', a = S754_zero s /\ b = S754_zero s'.

(** The sign bit is clear: +0, a positive number or +infinity. *)
Definition positive_sign (a : F32.float) : bool :=
  match a with
  | S754_zero false | S754_infinity false | S754_finite false _ _ => true
  | _ => false
  end.

(** A reference that carries no texture index: [p], [p/] or [p//n]. *)
Definition missing_texture (s : string) : bool :=
  match Text.find_slash s with
  | None => true
  | Some (_, after) =>
      Text.empty (match Text.find_slash after with
                  | None => after
                  | Some (b, _) => b
                  end)
  end.

(** A text file, given by its lines. *)
Definition unlines (lines : list string) : string :=
  String.concat (String Text.newline EmptyString) lines.

(** A line the loader acts on: a position, a texture coordinate or a
    face. *)
Definition relevant (line : string) : bool :=
  match kind_of line with Ignored => false | _ => true end.

(** A text without a slash. *)
Definition no_slash (s : string) : bool :=
  match Text.find_slash s with None => true | Some _ => false end.

Section DeclaredVocabulary.
Context {F : Scalar}.
(** [outVertices.empty()] *)
Definition is_empty (out : list num) : bool :=
  match out with [] => true | _ => false end.

End DeclaredVocabulary.

Section BufferVocabulary.
Context {F : Scalar}.

(** The loader with [out] put in front of what it has appended. *)
Definition prepend (out : list num) (st : Loader F) : Loader F :=
  mkLoader (positions st) (texcoords st) (out ++ outVertices st).

(** A vertex that is emitted carries a position the loader has read, and
    a texture coordinate it has read or (0, 0). *)
Definition known (ps : list (Vec3 F)) (ts : list (Vector2f F))
    (pt : Vec3 F * Vector2f F) : Prop :=
  In (fst pt) ps /\ (In (snd pt) ts \/ snd pt = mkVector2f zero zero).

End BufferVocabulary.

(** Exact arithmetic, written with the operations of the reals. *)
Ltac exact_arith :=
  change (@zero exact) with 0%R in *;
  change (@one exact) with 1%R in *;
  change (@add exact) with Rplus in *;
  change (@sub exact) with Rminus in *;
  change (@mul exact) with Rmult in *;
  change (@div exact) with Rdiv in *;
  change (@neg exact) with Ropp in *;
  change (@sqrt exact) with R_sqrt.sqrt in *;
  change (@of_int exact) with IZR in *;
  change (@cos exact exact_trig) with Rtrigo_def.cos in *;
  change (@sin exact exact_trig) with Rtrigo_def.sin in *;
  change (@tan exact exact_trig) with Rtrigo1.tan in *;
  change (@num exact) with R in *.

(** A rounded value [r] of an exact value [t >= 0]: within [FLT_EPSILON],
    relatively, and within [h] more. *)
Definition rounded (h r t : R) : Prop := (Rabs (r - t) <= F32.eps * t + h)%R.

(** Test data: a [Trig] whose functions are the first terms of their
    series.  It stands for no library; the statements about the program
    are made for every [Trig]. *)
Definition series_trig : Trig binary32 :=
  @Build_Trig binary32
    (fun a => (one - a * a / of_int 2)%num) (fun a => a) (fun a => a).

(** * Properties *)

Unset Implicit Arguments.

(** ** The simulator *)

Section SceneFacts.
Context {F : Scalar} {T : Trig F}.
Local Open Scope num_scope.

Lemma model_matrix_world_transform (p : Planet F) :
  model_matrix p = world_transform (orbit_position p) (selfAngle p) (scale p).
Proof.
  unfold model_matrix, world_transform, orbit_position.
  destruct (orbitRadius p >? zero); reflexivity.
Qed.

Lemma advance_attributes (dt : num) (p : Planet F) :
  attributes (advance dt p) = attributes p.
Proof. reflexivity. Qed.

Lemma update_planets_length (dt : num) (ps : list (Planet F)) :
  List.length (update_planets dt ps) = List.length ps.
Proof. unfold update_planets. apply length_map. Qed.

Lemma update_planets_nth (dt : num) (ps : list (Planet F)) (i : nat) :
  nth_error (update_planets dt ps) i = option_map (advance dt) (nth_error ps i).
Proof. unfold update_planets. apply nth_error_map. Qed.

Lemma update_planets_attributes (dt : num) (ps : list (Planet F)) :
  map attributes (update_planets dt ps) = map attributes ps.
Proof.
  unfold update_planets. rewrite map_map.
  apply map_ext. intro p. apply advance_attributes.
Qed.

Lemma frame_planets (i : num * Keys) (w : World F) :
  planets (fst (frame i w)) = update_planets (fst i) (planets w).
Proof. destruct i as [dt k]. reflexivity. Qed.

(** Bodies keep their attributes through a whole run. *)
Lemma run_attributes (inputs : list (num * Keys)) :
  forall w : World F,
    Forall (fun wf => map attributes (planets (fst wf)) = map attributes (planets w))
           (run inputs w).
Proof.
  induction inputs as [|i rest IH]; intro w; cbn [run].
  - constructor.
  - constructor.
    + rewrite frame_planets. apply update_planets_attributes.
    + specialize (IH (fst (frame i w))).
      assert (E : map attributes (planets (fst (frame i w)))
                  = map attributes (planets w)).
      { rewrite frame_planets. apply update_planets_attributes. }
      rewrite E in IH. exact IH.
Qed.

End SceneFacts.

(** In exact arithmetic the last column of the world transform is the
    position: the body is drawn where [orbit_position] puts it. *)
Lemma exact_world_position (p : Planet exact) :
  map (get (model_matrix p)) [12; 13; 14; 15]%nat
  = [x (orbit_position p); y (orbit_position p); z (orbit_position p); 1%R].
Proof.
  rewrite model_matrix_world_transform.
  generalize (orbit_position p). intros [px py pz].
  generalize (@cos exact _ (selfAngle p)) (@sin exact _ (selfAngle p)).
  generalize (scale p). change (@num exact) with R. intros k c s.
  unfold world_transform. cbn [x y z map].
  unfold mmul, entry, Translation, RotationY, Scale, Identity, Mat4_default.
  cbn [fold_left seq set get nth repeat Nat.add Nat.mul].
  change (@zero exact) with 0%R. change (@one exact) with 1%R.
  change (@add exact) with Rplus. change (@mul exact) with Rmult.
  change (@neg exact) with Ropp.
  repeat f_equal; ring.
Qed.

(** C9.  Two runs that start with the same bodies and are fed the same
    elapsed times expose the same (orbitAngle, selfAngle, world transform)
    after every pass, whatever the cameras and the keys held in either
    run: the advance step reads nothing else. *)
Theorem simulator_deterministic {F : Scalar} {T : Trig F}
    (inputs1 inputs2 : list (num * Keys)) (w1 w2 : World F) :
  planets w1 = planets w2 ->
  map fst inputs1 = map fst inputs2 ->
  observations (run inputs1 w1) = observations (run inputs2 w2).
Proof.
  revert inputs2 w1 w2.
  induction inputs1 as [|i1 rest1 IH]; intros [|i2 rest2] w1 w2 Hp Hdt;
    try discriminate; [reflexivity|].
  cbn [map] in Hdt. injection Hdt as Hdt1 Hrest.
  unfold observations in *. cbn [run map].
  assert (Hnext : planets (fst (frame i1 w1)) = planets (fst (frame i2 w2))).
  { rewrite !frame_planets. congruence. }
  f_equal.
  - now rewrite Hnext.
  - now apply IH.
Qed.

(** C10.  The advance of a body leaves [orbitRadius], [orbitSpeed],
    [selfSpeed] and [scale] as they were; the update loop returns a
    collection of the same length whose i-th body is the advance of the
    i-th body it was given; and through a whole run the collection keeps
    its length and, position by position, these four attributes.  The
    scene is built with 101 bodies, the sun and a hundred satellites, and
    has 101 bodies after every pass. *)
Theorem advance_frame_condition {F : Scalar} {T : Trig F}
    (dt : num) (p : Planet F) (ps : list (Planet F))
    (inputs : list (num * Keys)) (w : World F) :
  (orbitRadius (advance dt p) = orbitRadius p /\
   orbitSpeed (advance dt p) = orbitSpeed p /\
   selfSpeed (advance dt p) = selfSpeed p /\
   scale (advance dt p) = scale p) /\
  List.length (update_planets dt ps) = List.length ps /\
  (forall i, nth_error (update_planets dt ps) i
             = option_map (advance dt) (nth_error ps i)) /\
  Forall (fun wf =>
            List.length (planets (fst wf)) = List.length (planets w) /\
            map attributes (planets (fst wf)) = map attributes (planets w))
         (run inputs w) /\
  (forall (RAND_MAX : Z) (rand : nat -> Z),
      List.length (initial_planets RAND_MAX rand) = 101%nat /\
      Forall (fun wf => List.length (planets (fst wf)) = 101%nat)
             (run inputs (mkWorld (camera w) (initial_planets RAND_MAX rand)))).
Proof.
  assert (Hrun : forall w' : World F,
             Forall (fun wf =>
                       List.length (planets (fst wf)) = List.length (planets w') /\
                       map attributes (planets (fst wf))
                       = map attributes (planets w'))
                    (run inputs w')).
  { intro w'. eapply Forall_impl; [|apply run_attributes].
    intros wf H. split; [|exact H].
    apply (f_equal (@List.length _)) in H. now rewrite !length_map in H. }
  split; [now repeat split|].
  split; [apply update_planets_length|].
  split; [intro i; apply update_planets_nth|].
  split; [apply Hrun|].
  intros RAND_MAX rand.
  assert (Hlen : List.length (initial_planets (F:=F) RAND_MAX rand) = 101%nat).
  { unfold initial_planets. cbn [List.length].
    now rewrite length_map, length_seq. }
  split; [exact Hlen|].
  eapply Forall_impl; [|apply Hrun].
  intros wf [H _]. cbn [planets] in H. now rewrite H.
Qed.

(** Two runs over the sun alone, with different cameras and keys. *)
Lemma simulator_deterministic_witness :
  let sun := @mkPlanet exact 0%R 0%R (1 / 5)%R 4%R 0%R 0%R in
  let cam1 := @mkCamera exact (mkVec3 (F:=exact) 0%R 3%R 12%R) (-90)%R (-15)%R in
  let cam2 := @mkCamera exact (mkVec3 (F:=exact) 1%R 1%R 1%R) 0%R 0%R in
  let up := mkKeys false false false false false false false false true false in
  let none := mkKeys false false false false false false false false false false in
  let w1 := mkWorld cam1 [sun] in
  let w2 := mkWorld cam2 [sun] in
  let inputs1 : list (@num exact * Keys) :=
    [((1 / 60)%R, up); ((1 / 30)%R, none)] in
  let inputs2 : list (@num exact * Keys) :=
    [((1 / 60)%R, none); ((1 / 30)%R, up)] in
  planets w1 = planets w2 /\
  map fst inputs1 = map fst inputs2 /\
  observations (run (T:=exact_trig) inputs1 w1)
  = observations (run (T:=exact_trig) inputs2 w2).
Proof.
  intros. split; [reflexivity|]. split; [reflexivity|].
  apply (@simulator_deterministic exact exact_trig inputs1 inputs2 w1 w2);
    reflexivity.
Defined.

(** ** Binary32 arithmetic *)

Module F32Facts.

(** Comparison is antisymmetric, and defined unless an operand is NaN. *)
Lemma compare_antisym (a b : F32.float) :
  SFcompare b a = option_map CompOpp (SFcompare a b).
Proof.
  destruct a as [sa|sa| |sa ma ea], b as [sb|sb| |sb mb eb]; cbn;
    try reflexivity; try (now destruct sa); try (now destruct sb);
    try (now destruct sa, sb).
  destruct sa, sb; try reflexivity; rewrite (Z.compare_antisym ea eb);
    destruct (ea ?= eb)%Z; cbn; try reflexivity;
    repeat f_equal; exact (eq_sym (Pos.compare_cont_antisym ma mb Eq)).
Qed.

Lemma compare_defined (a b : F32.float) :
  F32.is_nan a = false -> F32.is_nan b = false -> SFcompare a b <> None.
Proof.
  destruct a as [sa|sa| |sa ma ea], b as [sb|sb| |sb mb eb]; cbn;
    intros Ha Hb; congruence.
Qed.

(** For numbers, [not (b < a)] is [a <= b]. *)
Lemma leb_of_not_ltb (a b : F32.float) :
  F32.is_nan a = false -> F32.is_nan b = false ->
  F32.ltb b a = false -> F32.leb a b = true.
Proof.
  intros Ha Hb. unfold F32.ltb, F32.leb, SFltb, SFleb.
  rewrite (compare_antisym a b).
  assert (H := compare_defined a b Ha Hb).
  destruct (SFcompare a b) as [[]|]; cbn; congruence.
Qed.

Lemma leb_not_nan (a b : F32.float) :
  F32.leb a b = true -> F32.is_nan a = false /\ F32.is_nan b = false.
Proof.
  unfold F32.leb, SFleb.
  destruct a as [sa|sa| |sa ma ea], b as [sb|sb| |sb mb eb]; cbn;
    intro H; split; congruence.
Qed.

(** *** Rounding never produces NaN *)

Lemma iter_pos_invariant {X : Type} (P : X -> Prop) (f : X -> X) :
  (forall a, P a -> P (f a)) ->
  forall (n : positive) (a : X), P a -> P (iter_pos f n a).
Proof.
  intros Hf. induction n as [n IH|n IH|]; intros a Ha; cbn [iter_pos]; auto.
Qed.

Lemma shr_1_nonneg (mrs : shr_record) :
  (0 <= shr_m mrs)%Z -> (0 <= shr_m (shr_1 mrs))%Z.
Proof.
  destruct mrs as [m r s]. cbn [shr_m shr_1].
  destruct m as [|[p|p|]|[p|p|]]; cbn [shr_m]; lia.
Qed.

Lemma shr_fexp_nonneg (m e : Z) (l : location) :
  (0 <= m)%Z ->
  (0 <= shr_m (fst (shr_fexp F32.prec F32.emax m e l)))%Z.
Proof.
  intro Hm. unfold shr_fexp, shr.
  assert (H0 : (0 <= shr_m (shr_record_of_loc m l))%Z).
  { destruct l as [|[]]; exact Hm. }
  destruct (fexp F32.prec F32.emax (Zdigits2 m + e) - e)%Z; cbn [fst];
    try exact H0.
  now apply iter_pos_invariant; [apply shr_1_nonneg|].
Qed.

Lemma round_nearest_even_nonneg (m : Z) (l : location) :
  (0 <= m)%Z -> (0 <= round_nearest_even m l)%Z.
Proof.
  intro Hm. unfold round_nearest_even.
  destruct l as [|[]]; try lia. destruct (Z.even m); lia.
Qed.

Lemma binary_round_aux_not_nan (sx : bool) (mx ex : Z) (lx : location) :
  (0 <= mx)%Z ->
  F32.is_nan (binary_round_aux F32.prec F32.emax sx mx ex lx) = false.
Proof.
  intro Hm. unfold binary_round_aux.
  assert (H1 := shr_fexp_nonneg mx ex lx Hm).
  destruct (shr_fexp F32.prec F32.emax mx ex lx) as [mrs' e'].
  cbn [fst] in H1.
  assert (H2 := shr_fexp_nonneg _ e' loc_Exact
                  (round_nearest_even_nonneg _ (loc_of_shr_record mrs') H1)).
  destruct (shr_fexp F32.prec F32.emax _ e' loc_Exact) as [mrs'' e''].
  cbn [fst] in H2.
  destruct (shr_m mrs'') as [|m|m]; [reflexivity| |lia].
  now destruct (e'' <=? F32.emax - F32.prec)%Z.
Qed.

Lemma binary_normalize_not_nan (m e : Z) (szero : bool) :
  F32.is_nan (binary_normalize F32.prec F32.emax m e szero) = false.
Proof.
  unfold binary_normalize, binary_round.
  destruct m as [|m|m]; [reflexivity| |];
    destruct (shl_align m e _) as [mz ez];
    now apply binary_round_aux_not_nan.
Qed.

(** A value that is neither an infinity nor NaN. *)
Lemma finite_cases (a : F32.float) :
  F32.finite a = true ->
  (exists s, a = S754_zero s) \/ (exists s m e, a = S754_finite s m e).
Proof.
  destruct a as [s|s| |s m e]; cbn; intro H; try discriminate;
    [left|right]; eauto.
Qed.

(** The sum and the difference of a finite number and a number are
    numbers: NaN arises from two infinities only. *)
Lemma add_not_nan (a b : F32.float) :
  F32.is_nan a = false -> F32.finite b = true ->
  F32.is_nan (F32.add a b) = false.
Proof.
  intros Ha Hb. unfold F32.add, SFadd.
  destruct (finite_cases b Hb) as [[sb ->]|[sb [mb [eb ->]]]];
    destruct a as [sa|sa| |sa ma ea]; try discriminate; try reflexivity;
    try (now destruct sa, sb).
  apply binary_normalize_not_nan.
Qed.

Lemma sub_not_nan (a b : F32.float) :
  F32.is_nan a = false -> F32.finite b = true ->
  F32.is_nan (F32.sub a b) = false.
Proof.
  intros Ha Hb. unfold F32.sub, SFsub.
  destruct (finite_cases b Hb) as [[sb ->]|[sb [mb [eb ->]]]];
    destruct a as [sa|sa| |sa ma ea]; try discriminate; try reflexivity;
    try (now destruct sa, sb).
  apply binary_normalize_not_nan.
Qed.

(** *** Exact identities of rounded arithmetic *)

(** Multiplication by one is exact. *)
Lemma mul_one_r (a : F32.float) :
  F32.finite a = true -> F32.mul a (F32.of_int 1) = a.
Proof.
  intro H. destruct a as [s|s| |s m e]; try discriminate.
  - now destruct s.
  - cbn [F32.finite] in H. unfold bounded, canonical_mantissa in H.
    apply andb_prop in H as [Hc He]. apply Z.eqb_eq in Hc.
    change (F32.of_int 1) with (S754_finite false 8388608 (-23)).
    unfold F32.mul, SFmul. rewrite Bool.xorb_false_r.
    rewrite !Pos.mul_xO_r, Pos.mul_1_r.
    unfold binary_round_aux, shr_fexp. cbn [Zdigits2 digits2_pos].
    match goal with
    | |- context [fexp _ _ (?a + (e + -23))%Z] =>
        replace (a + (e + -23))%Z with (Z.pos (digits2_pos m) + e)%Z by lia
    end.
    rewrite Hc. replace (e - (e + -23))%Z with 23%Z by lia.
    unfold shr at 1. cbn [iter_pos shr_1 shr_record_of_loc orb].
    cbn [shr_m loc_of_shr_record round_nearest_even Zdigits2].
    replace (e + -23 + 23)%Z with e by lia.
    rewrite Hc, Z.sub_diag. cbn [shr shr_m]. now rewrite He.
Qed.

Lemma finite_neg (a : F32.float) : F32.finite (F32.neg a) = F32.finite a.
Proof. now destruct a. Qed.

Lemma neg_involutive (a : F32.float) : F32.neg (F32.neg a) = a.
Proof. destruct a as [s|s| |s m e]; cbn; now rewrite ?Bool.negb_involutive. Qed.

(** A number and its opposite add up to +0. *)
Lemma add_neg_diag (a : F32.float) :
  F32.finite a = true -> F32.add a (F32.neg a) = S754_zero false.
Proof.
  intro H. destruct (finite_cases a H) as [[s ->]|[s [m [e ->]]]].
  - now destruct s.
  - unfold F32.add, F32.neg, SFadd, SFopp, shl_align.
    rewrite Z.min_id, Z.sub_diag. cbn [fst].
    now destruct s; cbn [cond_Zopp negb]; rewrite ?Z.add_opp_diag_l,
      ?Z.add_opp_diag_r.
Qed.

(** Rounding is symmetric: the sign goes through. *)
Lemma binary_round_aux_neg (s : bool) (m e : Z) (l : location) :
  binary_round_aux F32.prec F32.emax (negb s) m e l
  = F32.neg (binary_round_aux F32.prec F32.emax s m e l).
Proof.
  unfold binary_round_aux.
  destruct (shr_fexp F32.prec F32.emax m e l) as [mrs' e'].
  destruct (shr_fexp F32.prec F32.emax _ e' loc_Exact) as [mrs'' e''].
  destruct (shr_m mrs''); try reflexivity.
  now destruct (e'' <=? F32.emax - F32.prec)%Z.
Qed.

Lemma mul_neg_l (a b : F32.float) :
  F32.mul (F32.neg a) b = F32.neg (F32.mul a b).
Proof.
  destruct a as [sa|sa| |sa ma ea], b as [sb|sb| |sb mb eb]; cbn;
    try reflexivity; try (now destruct sa, sb).
  rewrite <- binary_round_aux_neg. now destruct sa, sb.
Qed.

Lemma same_refl (a : F32.float) : same a a.
Proof. now left. Qed.

Lemma same_trans (a b c : F32.float) : same a b -> same b c -> same a c.
Proof.
  intros [H1|[s1 [s2 [H1 H2]]]] [H3|[s3 [s4 [H3 H4]]]]; subst;
    try (now left); right; eauto.
Qed.

Lemma same_neg (a b : F32.float) : same a b -> same (F32.neg a) (F32.neg b).
Proof.
  intros [->|[s [s' [-> ->]]]]; [now left|]. right. cbn. eauto.
Qed.

Lemma same_add_l (a a' b : F32.float) :
  same a a' -> same (F32.add a b) (F32.add a' b).
Proof.
  intros [->|[s [s' [-> ->]]]]; [now left|].
  destruct b as [sb|sb| |sb mb eb]; try (now left).
  right. destruct s, s', sb; cbn; eauto.
Qed.

Lemma same_zero_eqb (a : F32.float) :
  same a (S754_zero false) -> F32.eqb a (F32.of_int 0) = true.
Proof.
  intros [->|[s [s' [-> _]]]]; reflexivity.
Qed.

(** The sum of two opposites is the opposite of the sum, up to the sign
    of a zero sum. *)
Lemma add_neg_neg (a b : F32.float) :
  same (F32.add (F32.neg a) (F32.neg b)) (F32.neg (F32.add a b)).
Proof.
  destruct a as [sa|sa| |sa ma ea], b as [sb|sb| |sb mb eb];
    try (now left); try (now left; destruct sa, sb).
  - destruct sa, sb; cbn; try (now left); right; eauto.
  - unfold F32.add, F32.neg, SFadd, SFopp.
    set (A := Z.pos (fst (shl_align ma ea (Z.min ea eb)))).
    set (B := Z.pos (fst (shl_align mb eb (Z.min ea eb)))).
    replace (cond_Zopp (negb sa) A + cond_Zopp (negb sb) B)%Z
      with (- (cond_Zopp sa A + cond_Zopp sb B))%Z
      by (destruct sa, sb; cbn [cond_Zopp negb]; lia).
    destruct (cond_Zopp sa A + cond_Zopp sb B)%Z as [|p|p];
      cbn [Z.opp binary_normalize].
    + right. cbn. eauto.
    + left. unfold binary_round.
      destruct (shl_align p _ _) as [mz ez].
      exact (binary_round_aux_neg false _ _ _).
    + left. unfold binary_round.
      destruct (shl_align p _ _) as [mz ez].
      exact (binary_round_aux_neg true _ _ _).
Qed.

(** A finite number times zero is a zero, and zeros add up to a zero. *)
Lemma zero_mul_finite (a : F32.float) :
  F32.finite a = true ->
  exists s, F32.mul (S754_zero false) a = S754_zero s.
Proof.
  intro H. destruct (finite_cases a H) as [[s ->]|[s [m [e ->]]]]; cbn; eauto.
Qed.

Lemma zero_add_zero (s s' : bool) :
  exists s'', F32.add (S754_zero s) (S754_zero s') = S754_zero s''.
Proof. destruct s, s'; cbn; eauto. Qed.

Lemma mul_zero_r (a : F32.float) :
  F32.finite a = true ->
  exists s, F32.mul a (S754_zero false) = S754_zero s.
Proof.
  intro H. destruct (finite_cases a H) as [[s ->]|[s [m [e ->]]]]; cbn; eauto.
Qed.

End F32Facts.

(** ** Text *)

Lemma skipws_length (s : string) :
  (String.length (Text.skipws s) <= String.length s)%nat.
Proof.
  induction s as [|c s IH]; cbn [Text.skipws String.length]; [lia|].
  destruct (Text.isspace c); cbn [String.length]; lia.
Qed.

Lemma word_length (s : string) :
  (String.length (fst (Text.word s)) + String.length (snd (Text.word s))
   = String.length s)%nat.
Proof.
  induction s as [|c s IH]; [reflexivity|]. cbn [Text.word].
  destruct (Text.isspace c); [reflexivity|].
  destruct (Text.word s) as [w r]. cbn [fst snd String.length] in *. lia.
Qed.

(** A successful extraction consumes at least one character. *)
Lemma extract_shorter (s t rest : string) :
  Text.extract s = Some (t, rest) ->
  (String.length rest < String.length s)%nat.
Proof.
  unfold Text.extract. intro H.
  assert (Hs := skipws_length s).
  destruct (Text.skipws s) as [|c s1] eqn:E; [discriminate|].
  assert (Hc : Text.isspace c = false).
  { clear H Hs. revert E. induction s as [|c' s' IH]; [discriminate|].
    cbn [Text.skipws]. destruct (Text.isspace c') eqn:E'; [exact IH|].
    intro H. now injection H as <- _. }
  assert (Hw := word_length s1).
  cbn [Text.word] in H. rewrite Hc in H.
  destruct (Text.word s1) as [w r]. injection H as <- <-.
  cbn [fst snd String.length] in *. lia.
Qed.

(** The loop that reads the tokens stops because the stream is
    exhausted: more fuel reads the same tokens. *)
Lemma read_tokens_fuel (fuel1 : nat) :
  forall (fuel2 : nat) (s : string),
    (String.length s < fuel1)%nat -> (String.length s < fuel2)%nat ->
    Text.read_tokens fuel1 s = Text.read_tokens fuel2 s.
Proof.
  induction fuel1 as [|fuel1 IH]; intros fuel2 s H1 H2; [lia|].
  destruct fuel2 as [|fuel2]; [lia|]. cbn [Text.read_tokens].
  destruct (Text.extract s) as [[t rest]|] eqn:E; [|reflexivity].
  apply extract_shorter in E. f_equal. apply IH; lia.
Qed.

Lemma tokens_of_unfold (s : string) :
  Text.tokens_of s =
  match Text.extract s with
  | None => []
  | Some (t, rest) => t :: Text.tokens_of rest
  end.
Proof.
  unfold Text.tokens_of.
  change (Text.read_tokens (S (String.length s)) s)
    with (match Text.extract s with
          | None => []
          | Some (t, rest) => t :: Text.read_tokens (String.length s) rest
          end).
  destruct (Text.extract s) as [[t rest]|] eqn:E; [|reflexivity].
  apply extract_shorter in E. f_equal. apply read_tokens_fuel; lia.
Qed.

(** [(int)v.size()] is the size itself below [2^31]. *)
Lemma to_int_small (n : nat) :
  (Z.of_nat n < 2 ^ 31)%Z -> Text.to_int n = Z.of_nat n.
Proof.
  intro H. unfold Text.to_int.
  rewrite Z.mod_small by lia. lia.
Qed.

(** ** The mesh loader *)

Section FanFacts.
Context {A : Type}.

Lemma combine_tl_indices (d : A) (l : list A) :
  combine l (tl l)
  = map (fun i => (nth i l d, nth (S i) l d)) (seq 0 (List.length l - 1)).
Proof.
  induction l as [|a r IH]; [reflexivity|].
  destruct r as [|b r']; [reflexivity|].
  cbn [tl] in *.
  change (combine (a :: b :: r') (b :: r')) with ((a, b) :: combine (b :: r') r').
  rewrite IH.
  replace (List.length (a :: b :: r') - 1)%nat with (S (List.length r'))
    by (cbn [List.length]; lia).
  replace (List.length (b :: r') - 1)%nat with (List.length r')
    by (cbn [List.length]; lia).
  cbn [seq map nth]. f_equal.
  rewrite <- seq_shift, map_map. reflexivity.
Qed.

(** The triangles of a fan, by index: (v0, v_i, v_{i+1}) for i = 1..n-2. *)
Lemma fan_indices (d : A) (vs : list A) :
  fan vs
  = map (fun i => (nth 0 vs d, nth i vs d, nth (i + 1) vs d))
        (seq 1 (List.length vs - 2)).
Proof.
  destruct vs as [|v0 rest]; [reflexivity|].
  unfold fan. rewrite (combine_tl_indices d), map_map.
  replace (List.length (v0 :: rest) - 2)%nat with (List.length rest - 1)%nat
    by (cbn [List.length]; lia).
  rewrite <- seq_shift, map_map. apply map_ext. intro i.
  cbn [fst snd nth]. now rewrite Nat.add_1_r.
Qed.

Lemma fan_length (vs : list A) : List.length (fan vs) = (List.length vs - 2)%nat.
Proof.
  destruct vs as [|v0 rest]; [reflexivity|].
  unfold fan. rewrite length_map, length_combine.
  destruct rest; cbn [tl List.length]; lia.
Qed.

Lemma fan_In (vs : list A) (a b c : A) :
  In (a, b, c) (fan vs) -> In a vs /\ In b vs /\ In c vs.
Proof.
  destruct vs as [|v0 rest]; [contradiction|].
  unfold fan. intro H. apply in_map_iff in H as [[b' c'] [E H]].
  cbn [fst snd] in E. injection E as -> -> ->.
  split; [now left|].
  split; right.
  - now apply in_combine_l in H.
  - apply in_combine_r in H. destruct rest; [contradiction|now right].
Qed.

End FanFacts.

Section LoaderFacts.
Context {F : Scalar}.
Variable extract_float : string -> num * string.

Lemma pushVertex_spec (st : Loader F) (vi ti : Z) :
  pushVertex st vi ti =
  if in_range st vi
  then mkLoader (positions st) (texcoords st)
         (outVertices st
          ++ emit (nth (Z.to_nat (vi - 1)) (positions st) Vec3_default)
                  (texture st ti))
  else st.
Proof.
  unfold pushVertex, in_range, texture, emit.
  set (n := Text.to_int (List.length (positions st))).
  rewrite (Z.gtb_ltb vi n).
  destruct (Z.leb_spec vi 0), (Z.ltb_spec n vi), (Z.ltb_spec 0 vi),
    (Z.leb_spec vi n); try lia; reflexivity.
Qed.

Lemma pushVertex_positions (st : Loader F) (vi ti : Z) :
  positions (pushVertex st vi ti) = positions st.
Proof. rewrite pushVertex_spec. now destruct (in_range st vi). Qed.

Lemma pushVertex_texcoords (st : Loader F) (vi ti : Z) :
  texcoords (pushVertex st vi ti) = texcoords st.
Proof. rewrite pushVertex_spec. now destruct (in_range st vi). Qed.

Lemma push_triangle_positions (st : Loader F) tri :
  positions (push_triangle st tri) = positions st.
Proof.
  destruct tri as [[a b] c]. unfold push_triangle.
  now rewrite !pushVertex_positions.
Qed.

Lemma push_triangle_texcoords (st : Loader F) tri :
  texcoords (push_triangle st tri) = texcoords st.
Proof.
  destruct tri as [[a b] c]. unfold push_triangle.
  now rewrite !pushVertex_texcoords.
Qed.

Lemma parsed_nth (tokens : list string) (refs : list (Z * Z)) (d : Z * Z) (i : nat) :
  map parseIndex tokens = map Some refs ->
  (i < List.length tokens)%nat ->
  parseIndex (nth i tokens EmptyString) = Some (nth i refs d).
Proof.
  intros Hmap Hi.
  assert (Hlen : List.length tokens = List.length refs).
  { apply (f_equal (@List.length _)) in Hmap. now rewrite !length_map in Hmap. }
  rewrite <- (map_nth parseIndex), Hmap.
  rewrite (nth_indep _ _ (Some d)) by (rewrite length_map; lia).
  apply map_nth.
Qed.

(** The triangulation loop pushes the triangles (v0, v_i, v_{i+1}) one
    after the other. *)
Lemma fan_loop (tokens : list string) (refs : list (Z * Z)) (d v0 : Z * Z) :
  map parseIndex tokens = map Some refs ->
  forall (m a : nat) (st : Loader F),
    (a + m < List.length tokens)%nat ->
    fold_left (fan_step tokens v0) (seq a m) (Some st)
    = Some (fold_left push_triangle
              (map (fun i => (v0, nth i refs d, nth (i + 1) refs d)) (seq a m))
              st).
Proof.
  intros Hmap. induction m as [|m IH]; intros a st Hlt; [reflexivity|].
  cbn [seq map fold_left]. unfold fan_step at 2.
  rewrite (@parsed_nth tokens refs d a Hmap) by lia.
  rewrite (@parsed_nth tokens refs d (a + 1) Hmap) by lia.
  rewrite IH by lia. reflexivity.
Qed.

Lemma fan_step_none (tokens : list string) (v0 : Z * Z) (l : list nat) :
  fold_left (fan_step tokens v0) l None = None.
Proof. induction l as [|i l IH]; [reflexivity|exact IH]. Qed.

(** A face whose tokens all convert appends its fan, triangle by
    triangle; a face of fewer than three tokens appends nothing, and its
    tokens are not even converted. *)
Lemma face_fan (st : Loader F) (tokens : list string) (refs : list (Z * Z)) :
  map parseIndex tokens = map Some refs ->
  face st tokens = Some (fold_left push_triangle (fan refs) st).
Proof.
  intro Hmap.
  assert (Hlen : List.length tokens = List.length refs).
  { apply (f_equal (@List.length _)) in Hmap. now rewrite !length_map in Hmap. }
  unfold face. destruct (Nat.ltb_spec (List.length tokens) 3) as [Hn|Hn].
  - assert (E : fan refs = []).
    { apply length_zero_iff_nil. rewrite fan_length. lia. }
    now rewrite E.
  - rewrite (@parsed_nth tokens refs (0%Z, 0%Z) 0 Hmap) by lia.
    rewrite (@fan_loop tokens refs (0%Z, 0%Z) _ Hmap) by lia.
    rewrite (fan_indices (0%Z, 0%Z)). now rewrite Hlen.
Qed.

Lemma face_short (st : Loader F) (tokens : list string) :
  (List.length tokens < 3)%nat -> face st tokens = Some st.
Proof.
  intro Hn. unfold face.
  now destruct (Nat.ltb_spec (List.length tokens) 3); [|lia].
Qed.

Lemma stream_of_app (vs ws : list (Vec3 F * Vector2f F)) :
  stream_of (vs ++ ws) = stream_of vs ++ stream_of ws.
Proof. unfold stream_of. apply flat_map_app. Qed.

Lemma stream_of_length (vs : list (Vec3 F * Vector2f F)) :
  List.length (stream_of vs) = (5 * List.length vs)%nat.
Proof.
  induction vs as [|pt vs IH]; [reflexivity|].
  change (stream_of (pt :: vs)) with (emit (fst pt) (snd pt) ++ stream_of vs).
  rewrite length_app, IH. cbn [emit List.length]. lia.
Qed.

Lemma pushVertex_pushed (st : Loader F) (ref : Z * Z) :
  pushVertex st (fst ref) (snd ref)
  = mkLoader (positions st) (texcoords st)
             (outVertices st ++ stream_of (pushed st ref)).
Proof.
  rewrite pushVertex_spec. unfold pushed.
  destruct (in_range st (fst ref)).
  - cbn [stream_of flat_map fst snd]. now rewrite app_nil_r.
  - cbn [stream_of flat_map]. rewrite app_nil_r. now destruct st.
Qed.

Lemma pushed_same (st st' : Loader F) (ref : Z * Z) :
  positions st' = positions st -> texcoords st' = texcoords st ->
  pushed st' ref = pushed st ref.
Proof.
  intros Hp Ht. unfold pushed, in_range, texture. now rewrite Hp, Ht.
Qed.

Lemma push_triangle_pushed (st : Loader F) tri :
  push_triangle st tri
  = mkLoader (positions st) (texcoords st)
             (outVertices st ++ stream_of (pushed_triangle st tri)).
Proof.
  destruct tri as [[a b] c]. unfold push_triangle, pushed_triangle.
  rewrite (pushVertex_pushed st a).
  set (st1 := mkLoader _ _ _).
  rewrite (pushVertex_pushed st1 b), (pushed_same st st1 b) by reflexivity.
  set (st2 := mkLoader _ _ _).
  rewrite (pushVertex_pushed st2 c), (pushed_same st st2 c) by reflexivity.
  cbn [positions texcoords outVertices st1 st2].
  now rewrite !stream_of_app, !app_assoc.
Qed.

Lemma pushed_triangle_same (st st' : Loader F) tri :
  positions st' = positions st -> texcoords st' = texcoords st ->
  pushed_triangle st' tri = pushed_triangle st tri.
Proof.
  intros Hp Ht. destruct tri as [[a b] c]. unfold pushed_triangle.
  now rewrite !(pushed_same st st') by assumption.
Qed.

(** What a list of triangles appends, seen from the state before it. *)
Lemma push_triangles_pushed (tris : list ((Z * Z) * (Z * Z) * (Z * Z))) :
  forall st : Loader F,
    fold_left push_triangle tris st
    = mkLoader (positions st) (texcoords st)
        (outVertices st ++ stream_of (flat_map (pushed_triangle st) tris)).
Proof.
  induction tris as [|tri tris IH]; intro st.
  - cbn [fold_left flat_map stream_of]. rewrite app_nil_r. now destruct st.
  - cbn [fold_left flat_map]. rewrite IH, push_triangle_pushed.
    cbn [positions texcoords outVertices].
    rewrite stream_of_app, app_assoc. reflexivity.
Qed.

Lemma record_kind (st : Loader F) (line : string) :
  record extract_float st line =
  match kind_of line with
  | Position rest =>
      Some (mkLoader (positions st ++ [scan_position extract_float rest])
                     (texcoords st) (outVertices st))
  | Texcoord rest =>
      Some (mkLoader (positions st)
                     (texcoords st ++ [scan_texcoord extract_float rest])
                     (outVertices st))
  | Face tokens => face st tokens
  | Ignored => Some st
  end.
Proof.
  unfold record, kind_of, scan_position, scan_texcoord.
  destruct (Text.empty line); [reflexivity|].
  destruct (Text.extract line) as [[prefix rest]|]; [|reflexivity].
  destruct (String.eqb prefix "v").
  - destruct (extract_float rest) as [px r1].
    destruct (extract_float r1) as [py r2].
    now destruct (extract_float r2) as [pz r3].
  - destruct (String.eqb prefix "vt"); [|now destruct (String.eqb prefix "f")].
    destruct (extract_float rest) as [tu r1].
    now destruct (extract_float r1) as [tv r2].
Qed.

Lemma converts_refs (tokens : list string) :
  forallb (fun t => match parseIndex t with Some _ => true | None => false end)
          tokens = true ->
  exists refs, map parseIndex tokens = map Some refs.
Proof.
  induction tokens as [|t ts IH]; intro H.
  - now exists [].
  - cbn [forallb] in H. apply andb_prop in H as [Ht Hts].
    destruct (IH Hts) as [refs Hrefs].
    destruct (parseIndex t) as [r|] eqn:E; [|discriminate].
    exists (r :: refs). cbn [map]. now rewrite E, Hrefs.
Qed.

(** A face whose triangulated tokens convert is processed to the end. *)
Lemma face_returns (st : Loader F) (tokens : list string) :
  face_converts tokens = true ->
  exists vs, face st tokens
             = Some (mkLoader (positions st) (texcoords st)
                              (outVertices st ++ stream_of vs)).
Proof.
  unfold face_converts. intro H. apply orb_prop in H as [H|H].
  - exists []. apply Nat.ltb_lt in H. rewrite (face_short st _ H).
    cbn [stream_of flat_map]. rewrite app_nil_r. now destruct st.
  - destruct (converts_refs _ H) as [refs Hrefs].
    exists (flat_map (pushed_triangle st) (fan refs)).
    now rewrite (face_fan st _ _ Hrefs), push_triangles_pushed.
Qed.

Lemma fan_steps_parse (tokens : list string) (v0 : Z * Z) (l : list nat) :
  forall (s : option (Loader F)) (st' : Loader F),
    fold_left (fan_step tokens v0) l s = Some st' ->
    forall i, In i l ->
      parseIndex (nth i tokens EmptyString) <> None /\
      parseIndex (nth (i + 1) tokens EmptyString) <> None.
Proof.
  induction l as [|j l IH]; intros s st' H i Hi; [contradiction|].
  cbn [fold_left] in H. destruct Hi as [->|Hi]; [|now apply (IH _ _ H)].
  destruct s as [st|]; [|now rewrite fan_step_none in H].
  unfold fan_step in H at 2.
  destruct (parseIndex (nth i tokens EmptyString));
    [|now rewrite fan_step_none in H].
  destruct (parseIndex (nth (i + 1) tokens EmptyString));
    [|now rewrite fan_step_none in H].
  split; discriminate.
Qed.

(** Conversely, a face that is processed to the end had no token on
    which [std::stoi] throws. *)
Lemma face_converts_of_returns (st st' : Loader F) (tokens : list string) :
  face st tokens = Some st' -> face_converts tokens = true.
Proof.
  unfold face, face_converts. intro H.
  destruct (Nat.ltb_spec (List.length tokens) 3) as [Hn|Hn]; [reflexivity|].
  cbn [orb]. apply forallb_forall. intros t Ht.
  destruct (In_nth _ _ EmptyString Ht) as [j [Hj <-]].
  destruct (parseIndex (nth 0 tokens EmptyString)) as [v0|] eqn:E0;
    [|discriminate].
  assert (Hall := fan_steps_parse tokens v0 _ _ _ H).
  destruct (Nat.eq_dec j 0) as [->|Hj0]; [now rewrite E0|].
  destruct (Nat.eq_dec j (List.length tokens - 1)) as [Hlast|Hmid].
  - destruct (Hall (List.length tokens - 2)%nat) as [_ H2].
    { apply in_seq. lia. }
    replace (List.length tokens - 2 + 1)%nat with j in H2 by lia.
    now destruct (parseIndex (nth j tokens EmptyString)).
  - destruct (Hall j) as [H1 _].
    { apply in_seq. lia. }
    now destruct (parseIndex (nth j tokens EmptyString)).
Qed.

Lemma flat_map_length_const {X Y : Type} (f : X -> list Y) (n : nat) (l : list X) :
  (forall a, In a l -> List.length (f a) = n) ->
  List.length (flat_map f l) = (n * List.length l)%nat.
Proof.
  induction l as [|a l IH]; intro H; [cbn; lia|].
  cbn [flat_map List.length]. rewrite length_app, (H a) by now left.
  rewrite IH by (intros; apply H; now right). lia.
Qed.

(** When every reference of a face names a declared position, each of
    its triangles contributes exactly three vertices. *)
Lemma face_whole_triangles (st : Loader F) (tokens : list string)
    (refs : list (Z * Z)) :
  map parseIndex tokens = map Some refs ->
  forallb (fun t => match parseIndex t with
                    | Some (vi, _) =>
                        ((0 <? vi)
                         && (vi <=? Text.to_int (List.length (positions st))))%Z
                    | None => false
                    end) tokens = true ->
  List.length (flat_map (pushed_triangle st) (fan refs))
  = (3 * List.length (fan refs))%nat.
Proof.
  intros Hmap Hall.
  assert (Hlen : List.length tokens = List.length refs).
  { apply (f_equal (@List.length _)) in Hmap. now rewrite !length_map in Hmap. }
  assert (Hin : forall r, In r refs -> List.length (pushed st r) = 1%nat).
  { intros r Hr. destruct (In_nth _ _ (0%Z, 0%Z) Hr) as [j [Hj <-]].
    assert (Hp := parsed_nth tokens refs (0%Z, 0%Z) j Hmap).
    rewrite Hlen in Hp. specialize (Hp Hj).
    rewrite forallb_forall in Hall.
    specialize (Hall (nth j tokens EmptyString)).
    rewrite Hp in Hall. unfold pushed, in_range.
    destruct (nth j refs (0%Z, 0%Z)) as [vi ti]. cbn [fst].
    rewrite Hall; [reflexivity|]. apply nth_In. lia. }
  apply flat_map_length_const. intros [[a b] c] Htri.
  apply fan_In in Htri as [Ha [Hb Hc]].
  unfold pushed_triangle. rewrite !length_app.
  now rewrite (Hin a Ha), (Hin b Hb), (Hin c Hc).
Qed.

(** What one record does to the loader. *)
Lemma record_stream (st st' : Loader F) (line : string) :
  record extract_float st line = Some st' ->
  exists vs,
    outVertices st' = outVertices st ++ stream_of vs /\
    List.length (positions st')
    = match kind_of line with
      | Position _ => S (List.length (positions st))
      | _ => List.length (positions st)
      end /\
    match kind_of line with
    | Face tokens =>
        face_converts tokens = true /\
        (face_in_range (List.length (positions st)) tokens = true ->
         exists k, List.length vs = (3 * k)%nat)
    | _ => vs = []
    end.
Proof.
  rewrite record_kind. destruct (kind_of line) as [rest|rest|tokens|]; intro H.
  - injection H as <-. exists []. cbn [outVertices positions stream_of flat_map].
    rewrite app_nil_r, length_app. cbn [List.length].
    repeat split. lia.
  - injection H as <-. exists []. cbn [outVertices positions stream_of flat_map].
    now rewrite app_nil_r.
  - assert (Hc := face_converts_of_returns _ _ _ H).
    unfold face_converts in Hc. unfold face_in_range.
    destruct (Nat.ltb_spec (List.length tokens) 3) as [Hn|Hn].
    + rewrite (face_short st _ Hn) in H. injection H as <-.
      exists []. cbn [stream_of flat_map]. rewrite app_nil_r.
      repeat split; try reflexivity.
      * unfold face_converts. apply orb_true_iff. left. now apply Nat.ltb_lt.
      * intros _. now exists 0%nat.
    + cbn [orb] in Hc |- *. destruct (converts_refs _ Hc) as [refs Hrefs].
      rewrite (face_fan st _ _ Hrefs), push_triangles_pushed in H.
      injection H as <-. exists (flat_map (pushed_triangle st) (fan refs)).
      cbn [outVertices positions]. repeat split; try reflexivity.
      * unfold face_converts. apply orb_true_iff. now right.
      * intro Hr. exists (List.length (fan refs)).
        now apply (face_whole_triangles st tokens).
  - injection H as <-. exists []. cbn [stream_of flat_map].
    now rewrite app_nil_r.
Qed.

Lemma records_none (lines : list string) :
  fold_left (fun st line => match st with
                            | Some st => record extract_float st line
                            | None => None
                            end) lines None = None.
Proof. induction lines as [|l ls IH]; [reflexivity|exact IH]. Qed.

(** What a whole text does to the loader, when it is read to the end. *)
Lemma records_stream (lines : list string) :
  forall st st' : Loader F,
    records extract_float st lines = Some st' ->
    exists vs,
      outVertices st' = outVertices st ++ stream_of vs /\
      converts lines = true /\
      (refs_in_range (List.length (positions st)) lines = true ->
       exists k, List.length vs = (3 * k)%nat).
Proof.
  unfold records.
  induction lines as [|line lines IH]; intros st st' H.
  - injection H as <-. exists []. cbn [stream_of flat_map].
    rewrite app_nil_r. repeat split. intros _. now exists 0%nat.
  - cbn [fold_left] in H.
    destruct (record extract_float st line) as [st1|] eqn:E;
      [|now rewrite records_none in H].
    destruct (record_stream _ _ _ E) as [vs1 [Hout1 [Hpos1 Hkind]]].
    destruct (IH _ _ H) as [vs2 [Hout2 [Hconv2 Hrange2]]].
    exists (vs1 ++ vs2). rewrite Hout2, Hout1, stream_of_app, app_assoc.
    split; [reflexivity|]. cbn [converts forallb refs_in_range].
    fold (converts lines). rewrite Hconv2, Hpos1 in *.
    destruct (kind_of line) as [rest|rest|tokens|].
    + subst vs1. split; [reflexivity|]. exact Hrange2.
    + subst vs1. split; [reflexivity|]. exact Hrange2.
    + destruct Hkind as [Hc Hr]. rewrite Hc. split; [reflexivity|].
      intro Hall. apply andb_prop in Hall as [Hf Hrest].
      destruct (Hr Hf) as [k1 Hk1]. destruct (Hrange2 Hrest) as [k2 Hk2].
      exists (k1 + k2)%nat. rewrite length_app. lia.
    + subst vs1. split; [reflexivity|]. exact Hrange2.
Qed.

(** A text whose face tokens convert is read to the end. *)
Lemma records_return (lines : list string) :
  forall st : Loader F,
    converts lines = true ->
    exists st', records extract_float st lines = Some st'.
Proof.
  unfold records.
  induction lines as [|line lines IH]; intros st H; [now exists st|].
  cbn [converts forallb] in H. apply andb_prop in H as [Hline Hrest].
  cbn [fold_left]. rewrite record_kind.
  destruct (kind_of line) as [rest|rest|tokens|]; try now apply IH.
  destruct (face_returns st tokens Hline) as [vs ->]. now apply IH.
Qed.

(** Records other than faces append nothing. *)
Lemma records_no_faces (lines : list string) :
  forall st : Loader F,
    forallb (fun line => match kind_of line with
                         | Face _ => false
                         | _ => true
                         end) lines = true ->
    exists st', records extract_float st lines = Some st' /\
                outVertices st' = outVertices st.
Proof.
  unfold records.
  induction lines as [|line lines IH]; intros st H; [now exists st|].
  cbn [forallb] in H. apply andb_prop in H as [Hline Hrest].
  cbn [fold_left]. rewrite record_kind.
  destruct (kind_of line) as [rest|rest|tokens|]; try discriminate.
  - destruct (IH (mkLoader (positions st ++ [scan_position extract_float rest])
                           (texcoords st) (outVertices st)) Hrest)
      as [st' [E Hout]].
    exists st'. now split.
  - destruct (IH (mkLoader (positions st)
                           (texcoords st ++ [scan_texcoord extract_float rest])
                           (outVertices st)) Hrest)
      as [st' [E Hout]].
    exists st'. now split.
  - exact (IH st Hrest).
Qed.

End LoaderFacts.




Section LoadOBJFacts.
Context {F : Scalar}.
Variable extract_float : string -> num * string.

Lemma LoadOBJ_returns (text : string) :
  converts (Text.getlines text) = true <->
  LoadOBJ extract_float (Some text) [] <> None.
Proof.
  unfold LoadOBJ. split.
  - intro H.
    destruct (records_return extract_float _ (mkLoader (F:=F) [] [] []) H)
      as [st' ->].
    now destruct (outVertices st').
  - destruct (records extract_float (mkLoader [] [] []) (Text.getlines text))
      as [st'|] eqn:E; [|congruence].
    intros _. now destruct (records_stream extract_float _ _ _ E) as [vs [_ [H _]]].
Qed.

(** The stream returned is made of whole vertices. *)
Lemma LoadOBJ_vertices (text : string) (ok : bool) (out : list num) :
  LoadOBJ extract_float (Some text) [] = Some (ok, out) ->
  exists vs : list (Vec3 F * Vector2f F),
    out = stream_of vs /\
    ok = negb (match out with [] => true | _ => false end) /\
    vertexCount out = List.length vs /\
    (refs_in_range 0 (Text.getlines text) = true ->
     exists k, List.length vs = (3 * k)%nat).
Proof.
  unfold LoadOBJ.
  destruct (records extract_float (mkLoader [] [] []) (Text.getlines text))
    as [st'|] eqn:E; [|discriminate].
  destruct (records_stream extract_float _ _ _ E) as [vs [Hout [_ Hrange]]].
  cbn [outVertices positions app List.length] in Hout, Hrange.
  intro H. exists vs.
  assert (Hst : out = outVertices st' /\
                ok = negb (match out with [] => true | _ => false end)).
  { destruct (outVertices st'); injection H as <- <-; now split. }
  destruct Hst as [-> Hok]. rewrite Hout in *.
  repeat split; try assumption.
  unfold vertexCount. rewrite stream_of_length, Nat.mul_comm.
  now apply Nat.div_mul.
Qed.

End LoadOBJFacts.

(** C3.  A reference whose position index is not positive, or exceeds
    the number of positions read so far (as an [int], which is the
    number itself below 2^31), appends nothing: [pushVertex]
    leaves the loader as it was, no default position is substituted, and
    the load goes on (a text whose face tokens convert is always read to
    the end).  A reference whose position index is in range appends its
    vertex whatever its texture index: the texture coordinate is the one
    named when the index is in range, and (0, 0) when the index is not
    positive, exceeds the number of texture coordinates, or is missing
    from the token. *)
Theorem pushVertex_skip_policy {F : Scalar}
    (extract_float : string -> num * string)
    (st : Loader F) (vi ti : Z) :
  ((vi <= 0 \/ Text.to_int (List.length (positions st)) < vi)%Z ->
   pushVertex st vi ti = st) /\
  ((0 < vi <= Text.to_int (List.length (positions st)))%Z ->
   pushVertex st vi ti
   = mkLoader (positions st) (texcoords st)
       (outVertices st
        ++ emit (nth (Z.to_nat (vi - 1)) (positions st) Vec3_default)
                (texture st ti))) /\
  ((ti <= 0 \/ Text.to_int (List.length (texcoords st)) < ti)%Z ->
   texture st ti = mkVector2f zero zero) /\
  ((0 < ti <= Text.to_int (List.length (texcoords st)))%Z ->
   texture st ti = nth (Z.to_nat (ti - 1)) (texcoords st) (mkVector2f zero zero)) /\
  (forall (s : string) (vi' ti' : Z),
      parseIndex s = Some (vi', ti') -> missing_texture s = true -> ti' = 0%Z) /\
  (forall text : string,
      converts (Text.getlines text) = true ->
      LoadOBJ extract_float (Some text) [] <> None) /\
  (forall n : nat, (Z.of_nat n < 2 ^ 31)%Z -> Text.to_int n = Z.of_nat n).
Proof.
  split; [|split; [|split; [|split; [|split; [|split; [|apply to_int_small]]]]]].
  - intro H. rewrite pushVertex_spec. unfold in_range.
    destruct (Z.ltb_spec 0 vi), (Z.leb_spec vi (Text.to_int (List.length (positions st))));
      try reflexivity; lia.
  - intro H. rewrite pushVertex_spec. unfold in_range.
    destruct (Z.ltb_spec 0 vi), (Z.leb_spec vi (Text.to_int (List.length (positions st))));
      try reflexivity; lia.
  - intro H. unfold texture. rewrite Z.gtb_ltb.
    destruct (Z.ltb_spec 0 ti), (Z.leb_spec ti (Text.to_int (List.length (texcoords st))));
      try reflexivity; lia.
  - intro H. unfold texture. rewrite Z.gtb_ltb.
    destruct (Z.ltb_spec 0 ti), (Z.leb_spec ti (Text.to_int (List.length (texcoords st))));
      try reflexivity; lia.
  - intros s vi' ti'. unfold parseIndex, missing_texture.
    destruct (Text.find_slash s) as [[vStr after]|].
    + destruct (if Text.empty vStr then Some 0%Z else Text.stoi vStr);
        [|discriminate].
      destruct (Text.empty _); [|discriminate].
      intro H. now injection H as _ <-.
    + destruct (Text.stoi s); [|discriminate].
      intro H. now injection H as _ <-.
  - intros text H. now apply LoadOBJ_returns.
Qed.

(** One position, no texture coordinate, and references with texture
    index 5: nothing is skipped. *)
Lemma texture_index_out_of_range_not_skipped :
  let p := mkVec3 (F:=binary32) (of_int 1) (of_int 2) (of_int 3) in
  let st := mkLoader [p] [] [] in
  (Text.to_int (List.length (texcoords st)) < 5)%Z /\
  outVertices (pushVertex st 1 5) = emit p (mkVector2f zero zero) /\
  LoadOBJ Decimal.read (Some (unlines ["v 1 2 3"; "f 1/5 1/5 1/5"]%string)) []
  = Some (true, emit p (mkVector2f zero zero)
                ++ emit p (mkVector2f zero zero)
                ++ emit p (mkVector2f zero zero)).
Proof. vm_compute. repeat split. Qed.

(** A triangle, the first reference of which names no position and the
    second no texture coordinate. *)
Lemma pushVertex_skip_policy_witness :
  let p := mkVec3 (F:=binary32) (of_int 1) (of_int 2) (of_int 3) in
  let st := mkLoader [p] [mkVector2f one one] [zero] in
  ((0 <= 0 \/ Text.to_int (List.length (positions st)) < 0)%Z /\
   pushVertex st 0 1 = st) /\
  ((0 < 1 <= Text.to_int (List.length (positions st)))%Z /\
   (7 <= 0 \/ Text.to_int (List.length (texcoords st)) < 7)%Z /\
   pushVertex st 1 7
   = mkLoader (positions st) (texcoords st)
       (outVertices st ++ emit p (mkVector2f zero zero))) /\
  converts (Text.getlines (unlines ["v 1 2 3"; "f 0/1 1/7 2"]%string)) = true /\
  LoadOBJ Decimal.read (Some (unlines ["v 1 2 3"; "f 0/1 1/7 2"]%string)) []
  <> None.
Proof.
  intros p st.
  pose proof (pushVertex_skip_policy Decimal.read st 0 1) as [Hskip _].
  pose proof (pushVertex_skip_policy Decimal.read st 1 7)
    as [_ [Hpush [Htex [_ [_ [Hload _]]]]]].
  assert (H0 : (0 <= 0 \/ Text.to_int (List.length (positions st)) < 0)%Z)
    by (left; lia).
  assert (H1 : (0 < 1 <= Text.to_int (List.length (positions st)))%Z)
    by (vm_compute; split; [reflexivity|discriminate]).
  assert (H7 : (7 <= 0 \/ Text.to_int (List.length (texcoords st)) < 7)%Z)
    by (right; vm_compute; reflexivity).
  split; [split; [exact H0|exact (Hskip H0)]|].
  split.
  - split; [exact H1|]. split; [exact H7|].
    rewrite (Hpush H1), (Htex H7). reflexivity.
  - split; [reflexivity|]. apply Hload. reflexivity.
Defined.

(** C5.  When the file cannot be opened the loader returns false and
    leaves the stream empty.  When it can, the loader returns exactly
    when every token of every triangulated face converts (otherwise a
    [std::stoi] exception leaves it); when it returns, it returns false
    exactly when the stream is empty, as for an empty file or a file
    without [f] records, and true otherwise, with a stream of five reals
    for each of its [vertexCount] vertices. *)
Theorem LoadOBJ_outcome {F : Scalar}
    (extract_float : string -> num * string) (text : string) :
  LoadOBJ extract_float None [] = Some (false, []) /\
  (converts (Text.getlines text) = true <->
   LoadOBJ extract_float (Some text) [] <> None) /\
  (forall (ok : bool) (out : list num),
      LoadOBJ extract_float (Some text) [] = Some (ok, out) ->
      (ok = false <-> out = []) /\
      (ok = true -> (0 < vertexCount out)%nat) /\
      List.length out = (5 * vertexCount out)%nat) /\
  (forallb (fun line => match kind_of line with
                        | Face _ => false
                        | _ => true
                        end) (Text.getlines text) = true ->
   LoadOBJ extract_float (Some text) [] = Some (false, [])) /\
  LoadOBJ extract_float (Some EmptyString) [] = Some (false, []).
Proof.
  split; [reflexivity|].
  split; [apply LoadOBJ_returns|].
  split; [|split; [|reflexivity]].
  - intros ok out H.
    destruct (LoadOBJ_vertices extract_float _ _ _ H) as [vs [-> [-> [Hcount _]]]].
    rewrite Hcount, stream_of_length.
    destruct vs as [|[p t] vs]; cbn [stream_of flat_map emit app negb List.length].
    + repeat split; try reflexivity; discriminate.
    + repeat split; try discriminate; lia.
  - intro H. unfold LoadOBJ.
    destruct (records_no_faces extract_float _ (mkLoader (F:=F) [] [] []) H)
      as [st' [-> Hout]].
    cbn [outVertices] in Hout. now rewrite Hout.
Qed.

(** A face with tokens that are no integers: the loader neither returns
    false nor true, whether or not vertices were appended before. *)
Lemma LoadOBJ_malformed_index_throws :
  LoadOBJ Decimal.read (Some "f a b c"%string) [] = None /\
  LoadOBJ Decimal.read
    (Some (unlines ["v 1 2 3"; "f 1 1 1"; "f 1 2 x"]%string)) [] = None /\
  LoadOBJ Decimal.read
    (Some (unlines ["v 1 2 3"; "f 1 1 99999999999"]%string)) [] = None.
Proof. vm_compute. repeat split. Qed.

(** A triangle read to the end. *)
Lemma LoadOBJ_outcome_witness :
  let text := unlines ["v 0 0 0"; "v 1 0 0"; "v 0 1 0"; "f 1 2 3"]%string in
  let out := [zero; zero; zero; zero; zero;
              one; zero; zero; zero; zero;
              zero; one; zero; zero; zero] in
  converts (Text.getlines text) = true /\
  LoadOBJ Decimal.read (Some text) [] = Some (true, out) /\
  (true = false <-> out = []) /\
  (true = true -> (0 < vertexCount out)%nat) /\
  List.length out = (5 * vertexCount out)%nat.
Proof.
  intros text out.
  assert (H : LoadOBJ Decimal.read (Some text) [] = Some (true, out))
    by (vm_compute; reflexivity).
  split; [reflexivity|]. split; [exact H|].
  exact (proj1 (proj2 (proj2 (LoadOBJ_outcome Decimal.read text))) true out H).
Defined.

(** C6.  The stream the loader returns is a sequence of vertices, five
    reals each: the three coordinates of a position, then the two of a
    texture coordinate; [vertexCount] is their number.  When every
    reference of every triangulated face names a position declared above
    it, the vertices come in whole triangles: their number is a multiple
    of three. *)
Theorem LoadOBJ_stream {F : Scalar}
    (extract_float : string -> num * string) (text : string)
    (ok : bool) (out : list num) :
  LoadOBJ extract_float (Some text) [] = Some (ok, out) ->
  exists vs : list (Vec3 F * Vector2f F),
    out = stream_of vs /\
    List.length out = (5 * List.length vs)%nat /\
    vertexCount out = List.length vs /\
    (refs_in_range 0 (Text.getlines text) = true ->
     exists k, vertexCount out = (3 * k)%nat).
Proof.
  intro H.
  destruct (LoadOBJ_vertices extract_float _ _ _ H) as [vs [-> [_ [Hcount Hk]]]].
  exists vs. rewrite Hcount, stream_of_length. repeat split. exact Hk.
Qed.

(** The quad of the round-trip test. *)
Lemma LoadOBJ_stream_witness :
  let text := unlines ["v 0 0 0"; "v 1 0 0"; "v 1 1 0"; "v 0 1 0";
                       "f 1 2 3 4"]%string in
  let out : list (@num binary32) :=
    [zero; zero; zero; zero; zero;   one; zero; zero; zero; zero;
     one; one; zero; zero; zero;     zero; zero; zero; zero; zero;
     one; one; zero; zero; zero;     zero; one; zero; zero; zero] in
  LoadOBJ Decimal.read (Some text) [] = Some (true, out) /\
  refs_in_range 0 (Text.getlines text) = true /\
  exists vs : list (Vec3 binary32 * Vector2f binary32),
    out = stream_of vs /\
    List.length out = (5 * List.length vs)%nat /\
    vertexCount out = List.length vs /\
    (refs_in_range 0 (Text.getlines text) = true ->
     exists k, vertexCount out = (3 * k)%nat).
Proof.
  intros text out.
  assert (H : LoadOBJ Decimal.read (Some text) [] = Some (true, out))
    by (vm_compute; reflexivity).
  split; [exact H|]. split; [reflexivity|].
  exact (LoadOBJ_stream Decimal.read text true out H).
Defined.

(** Two positions and a face that names a third: the loader succeeds
    with two vertices, which is no whole triangle. *)
Lemma LoadOBJ_partial_triangle :
  let text := unlines ["v 0 0 0"; "v 1 0 0"; "f 1 2 3"]%string in
  let out := [zero; zero; zero; zero; zero; one; zero; zero; zero; zero] in
  LoadOBJ Decimal.read (Some text) [] = Some (true, out) /\
  vertexCount out = 2%nat /\
  ~ (exists k, vertexCount out = (3 * k)%nat).
Proof.
  split; [vm_compute; reflexivity|]. split; [reflexivity|].
  intros [k Hk]. cbn in Hk. lia.
Qed.

(** ** The camera *)

Section PitchFacts.
Local Open Scope num_scope.

Lemma clamp_never_beyond (q : num) :
  let c := if q >? of_int 89 then of_int 89 else q in
  let r := if c <? - of_int 89 then - of_int 89 else c in
  (r >? of_int 89) = false /\ (r <? - of_int 89) = false.
Proof.
  cbn zeta. destruct (q >? of_int 89) eqn:E1.
  - now vm_compute.
  - destruct (q <? - of_int 89) eqn:E2; [now vm_compute|now split].
Qed.

Lemma clamp_not_nan (q : num) :
  let c := if q >? of_int 89 then of_int 89 else q in
  let r := if c <? - of_int 89 then - of_int 89 else c in
  F32.is_nan q = false -> F32.is_nan r = false.
Proof.
  cbn zeta. intro H. destruct (q >? of_int 89); [reflexivity|].
  now destruct (q <? - of_int 89).
Qed.

Lemma in_pitch_range_of_bounds (r : num) :
  F32.is_nan r = false ->
  (r >? of_int 89) = false -> (r <? - of_int 89) = false ->
  in_pitch_range r = true.
Proof.
  intros Hn H1 H2. unfold in_pitch_range. apply andb_true_intro. split.
  - now apply F32Facts.leb_of_not_ltb.
  - now apply F32Facts.leb_of_not_ltb.
Qed.

Lemma turn_pitch_not_nan (k : Keys) (dt p : num) :
  F32.is_nan p = false -> F32.finite (pitch_step dt) = true ->
  F32.is_nan (turn_pitch k dt p) = false.
Proof.
  intros Hp Hstep. unfold turn_pitch. apply clamp_not_nan.
  fold (pitch_step dt).
  assert (H1 : F32.is_nan (if key_Up k then p + pitch_step dt else p) = false).
  { destruct (key_Up k); [now apply F32Facts.add_not_nan|exact Hp]. }
  destruct (key_Down k); [now apply F32Facts.sub_not_nan|exact H1].
Qed.

End PitchFacts.

(** In exact arithmetic the clamped pitch always lies in the interval. *)
Lemma exact_turn_pitch (k : Keys) (dt p : R) :
  in_pitch_range (F:=exact) (turn_pitch (F:=exact) k dt p) = true.
Proof.
  unfold turn_pitch, in_pitch_range.
  set (q := if key_Down k then _ else _).
  change (@num exact) with R in q.
  assert (H89 : @of_int exact 89 = 89%R).
  { unfold of_int; cbn. lra. }
  rewrite H89. clearbody q.
  change (@neg exact) with Ropp.
  cbn [ltb leb exact].
  repeat match goal with
         | |- context [Rlt_dec ?a ?b] => destruct (Rlt_dec a b)
         | |- context [Rle_dec ?a ?b] => destruct (Rle_dec a b)
         end; try reflexivity; lra.
Qed.

(** ** The algebra *)

Section AlgebraFacts.
Context {F : Scalar}.
Local Open Scope num_scope.

(** The sixteen entries of the view matrix. *)
Lemma LookAt_entries (eye center up : Vec3 F) :
  let f := Normalize (vsub center eye) in
  let s := Normalize (Cross f up) in
  let u := Cross s f in
  LookAt eye center up
  = [x s; x u; - x f; zero;
     y s; y u; - y f; zero;
     z s; z u; - z f; zero;
     - Dot s eye; - Dot u eye; Dot f eye; one].
Proof. reflexivity. Qed.

(** The image of a point is the last column of the product with the
    translation to this point, as [operator*] computes it. *)
Lemma transform_Translation (a : Mat4 F) (px py pz : num) :
  transform a px py pz one
  = map (get (mmul a (Translation px py pz))) [12; 13; 14; 15]%nat.
Proof. reflexivity. Qed.

Lemma Normalize_short (v : Vec3 F) :
  (Length v <=? dec 1 1000000) = true -> Normalize v = v.
Proof. intro H. unfold Normalize. now rewrite H. Qed.

Lemma Normalize_long (v : Vec3 F) :
  (Length v <=? dec 1 1000000) = false ->
  Normalize v = vscale v (one / Length v).
Proof. intro H. unfold Normalize. now rewrite H. Qed.

End AlgebraFacts.

(** *** In exact arithmetic *)

Section ExactFacts.
Local Open Scope R_scope.

Lemma exact_leb_false (a b : R) : @leb exact a b = false -> b < a.
Proof. cbn. destruct (Rle_dec a b); [discriminate|]. intros _. lra. Qed.

Lemma exact_Dot (a b : Vec3 exact) :
  Dot a b = x a * x b + y a * y b + z a * z b.
Proof. reflexivity. Qed.

Lemma exact_Dot_nonneg (v : Vec3 exact) : 0 <= Dot v v.
Proof. rewrite exact_Dot. nra. Qed.

(** A vector longer than the threshold is normalized to length one. *)
Lemma exact_Normalize_unit (v : Vec3 exact) :
  @leb exact (Length v) (dec 1 1000000) = false -> Length (Normalize v) = 1.
Proof.
  intro H. rewrite (Normalize_long v H).
  apply exact_leb_false in H.
  change (@dec exact 1 1000000) with (1 / 1000000) in H.
  change (Length v) with (R_sqrt.sqrt (Dot v v)) in *.
  set (len := R_sqrt.sqrt (Dot v v)) in *.
  assert (Hlen : 0 < len) by lra.
  assert (Hsq : len * len = Dot v v) by (apply sqrt_sqrt, exact_Dot_nonneg).
  change (Length (vscale v (@div exact (@one exact) len)))
    with (R_sqrt.sqrt (Dot (F:=exact) (vscale v (1 / len)%R)
                                       (vscale v (1 / len)%R))).
  replace (Dot (F:=exact) (vscale v (1 / len)%R) (vscale v (1 / len)%R))
    with 1;
    [apply sqrt_1|].
  rewrite exact_Dot in *. cbn [vscale x y z]. change (@mul exact) with Rmult.
  transitivity ((x v * x v + y v * y v + z v * z v) * (1 / len * (1 / len)));
    [|ring].
  rewrite <- Hsq. field. lra.
Qed.

(** The view matrix sends the eye to the origin, whatever the vectors. *)
Lemma exact_LookAt_eye (eye center up : Vec3 exact) :
  transform (LookAt eye center up) (x eye) (y eye) (z eye) (@one exact)
  = [0; 0; 0; 1].
Proof.
  rewrite LookAt_entries. cbn zeta.
  set (f := Normalize (vsub center eye)).
  set (s := Normalize (Cross f up)).
  set (u := Cross s f).
  unfold transform. cbn [map seq get nth Nat.add Nat.mul].
  rewrite !exact_Dot.
  change (@zero exact) with 0. change (@one exact) with 1.
  change (@add exact) with Rplus. change (@mul exact) with Rmult.
  change (@neg exact) with Ropp.
  repeat f_equal; ring.
Qed.

End ExactFacts.

(** *** In binary32 *)

Section ViewFacts.
Local Open Scope num_scope.

(** A row of the rotation part against its translation entry: the dot
    product is computed twice, with the same roundings, and cancels. *)
Lemma row_cancels (a b c ex ey ez : num) :
  F32.finite (- (a * ex + b * ey + c * ez)) = true ->
  F32.eqb (a * ex + b * ey + c * ez + - (a * ex + b * ey + c * ez) * one) zero
  = true.
Proof.
  intro H. change (@one binary32) with (F32.of_int 1).
  change (@mul binary32) with F32.mul in *.
  change (@add binary32) with F32.add in *.
  change (@neg binary32) with F32.neg in *.
  rewrite (F32Facts.mul_one_r _ H).
  rewrite F32Facts.finite_neg in H.
  now rewrite (F32Facts.add_neg_diag _ H).
Qed.

(** The row of the negated forward vector against the forward entry. *)
Lemma row_cancels_neg (a b c ex ey ez : num) :
  F32.finite (a * ex + b * ey + c * ez) = true ->
  F32.eqb (- a * ex + - b * ey + - c * ez + (a * ex + b * ey + c * ez) * one)
          zero = true.
Proof.
  intro H. change (@one binary32) with (F32.of_int 1).
  change (@mul binary32) with F32.mul in *.
  change (@add binary32) with F32.add in *.
  change (@neg binary32) with F32.neg in *.
  rewrite (F32Facts.mul_one_r _ H). rewrite !F32Facts.mul_neg_l.
  set (p1 := F32.mul a ex) in *. set (p2 := F32.mul b ey) in *.
  set (p3 := F32.mul c ez) in *. set (d := F32.add (F32.add p1 p2) p3) in *.
  apply F32Facts.same_zero_eqb.
  assert (Hsum : same (F32.add (F32.add (F32.neg p1) (F32.neg p2)) (F32.neg p3))
                      (F32.neg d)).
  { eapply F32Facts.same_trans; [|apply F32Facts.add_neg_neg].
    apply F32Facts.same_add_l, F32Facts.add_neg_neg. }
  eapply F32Facts.same_trans; [apply F32Facts.same_add_l, Hsum|].
  left. rewrite <- (F32Facts.neg_involutive d) at 2.
  apply F32Facts.add_neg_diag. now rewrite F32Facts.finite_neg.
Qed.

(** The last row, (0, 0, 0, 1), against a finite point of weight one. *)
Lemma row_weight (ex ey ez : num) :
  F32.finite ex = true -> F32.finite ey = true -> F32.finite ez = true ->
  zero * ex + zero * ey + zero * ez + one * one = one.
Proof.
  intros Hx Hy Hz.
  change (@mul binary32) with F32.mul. change (@add binary32) with F32.add.
  change (@zero binary32) with (S754_zero false).
  destruct (F32Facts.zero_mul_finite ex Hx) as [sx ->].
  destruct (F32Facts.zero_mul_finite ey Hy) as [sy ->].
  destruct (F32Facts.zero_mul_finite ez Hz) as [sz ->].
  destruct (F32Facts.zero_add_zero sx sy) as [s1 ->].
  destruct (F32Facts.zero_add_zero s1 sz) as [s2 ->].
  reflexivity.
Qed.

End ViewFacts.

(** When the squared length overflows, the computed length is infinite,
    its inverse is zero, and a finite vector is scaled to a zero vector. *)
Lemma Normalize_infinite_length (v : Vec3 binary32) :
  F32.finite (x v) = true -> F32.finite (y v) = true ->
  F32.finite (z v) = true ->
  Length v = S754_infinity false ->
  (exists sx sy sz,
      Normalize v = mkVec3 (S754_zero sx) (S754_zero sy) (S754_zero sz)) /\
  Length (Normalize v) = zero.
Proof.
  intros Hx Hy Hz Hlen. unfold Normalize. rewrite Hlen.
  replace (@leb binary32 (S754_infinity false) (dec 1 1000000)) with false
    by (vm_compute; reflexivity).
  replace (@div binary32 one (S754_infinity false)) with (S754_zero false)
    by (vm_compute; reflexivity).
  unfold vscale. change (@mul binary32) with F32.mul.
  destruct (F32Facts.mul_zero_r _ Hx) as [sx ->].
  destruct (F32Facts.mul_zero_r _ Hy) as [sy ->].
  destruct (F32Facts.mul_zero_r _ Hz) as [sz ->].
  split; [now exists sx, sy, sz|].
  now destruct sx, sy, sz.
Qed.

(** C8.  Whenever the coordinates of the eye and the three translation
    entries of the view matrix built from (eye, eye + forward, up) are
    finite binary32 numbers, the matrix maps the point (eye, 1) to
    (0, 0, 0, 1): each translation entry cancels the dot product of its
    basis vector with the eye.  In exact arithmetic it does so for all
    vectors. *)
Theorem LookAt_eye_to_origin :
  (forall eye forward up : Vec3 binary32,
      let M := LookAt eye (vadd eye forward) up in
      F32.finite (x eye) = true -> F32.finite (y eye) = true ->
      F32.finite (z eye) = true ->
      F32.finite (get M 12) = true -> F32.finite (get M 13) = true ->
      F32.finite (get M 14) = true ->
      Forall2 (fun a b => F32.eqb a b = true)
              (transform M (x eye) (y eye) (z eye) one)
              [zero; zero; zero; one]) /\
  (forall eye forward up : Vec3 exact,
      transform (LookAt eye (vadd eye forward) up)
                (x eye) (y eye) (z eye) (@one exact)
      = [0; 0; 0; 1]%R).
Proof.
  split; [|intros; apply exact_LookAt_eye].
  intros eye forward up M Hx Hy Hz. subst M.
  rewrite LookAt_entries. cbn zeta.
  set (f := Normalize (vsub (vadd eye forward) eye)).
  set (s := Normalize (Cross f up)).
  set (u := Cross s f).
  unfold transform. cbn [map seq get nth Nat.add Nat.mul].
  unfold Dot. intros H12 H13 H14.
  repeat constructor.
  - now apply row_cancels.
  - now apply row_cancels.
  - now apply row_cancels_neg.
  - now rewrite row_weight.
Qed.

(** The initial camera position, looking down the negative z axis. *)
Lemma LookAt_eye_to_origin_witness :
  let eye := mkVec3 (F:=binary32) zero (of_int 3) (of_int 12) in
  let forward := mkVec3 (F:=binary32) zero zero (- one)%num in
  let up := mkVec3 (F:=binary32) zero one zero in
  let M := LookAt eye (vadd eye forward) up in
  (F32.finite (x eye) = true /\ F32.finite (y eye) = true /\
   F32.finite (z eye) = true /\ F32.finite (get M 12) = true /\
   F32.finite (get M 13) = true /\ F32.finite (get M 14) = true) /\
  Forall2 (fun a b => F32.eqb a b = true)
          (transform M (x eye) (y eye) (z eye) one)
          [zero; zero; zero; one].
Proof.
  intros eye forward up M.
  assert (H : F32.finite (x eye) = true /\ F32.finite (y eye) = true /\
              F32.finite (z eye) = true /\ F32.finite (get M 12) = true /\
              F32.finite (get M 13) = true /\ F32.finite (get M 14) = true)
    by (vm_compute; repeat split).
  split; [exact H|].
  destruct H as [Hx [Hy [Hz [H12 [H13 H14]]]]].
  exact (proj1 LookAt_eye_to_origin eye forward up Hx Hy Hz H12 H13 H14).
Defined.

(** An up vector with two components equal to the largest binary32,
    orthogonal to the forward vector (0, 1, -1): the cross product
    overflows, the right vector is not a number, and neither is the image
    of the eye. *)
Lemma LookAt_overflow :
  let eye := mkVec3 (F:=binary32) zero zero zero in
  let forward := mkVec3 (F:=binary32) zero one (- one)%num in
  let big := SFmax_float F32.prec F32.emax in
  let up := mkVec3 (F:=binary32) zero big big in
  let M := LookAt eye (vadd eye forward) up in
  F32.finite big = true /\
  F32.eqb (Dot forward up) zero = true /\
  get M 12 = S754_nan /\
  nth 0 (transform M (x eye) (y eye) (z eye) one) zero = S754_nan /\
  F32.eqb (nth 0 (transform M (x eye) (y eye) (z eye) one) zero) zero = false.
Proof. vm_compute. repeat split. Qed.

(** ** The scene as it is built *)

(** X3.  The first body is the sun, of radius zero, which stands at the
    origin; the hundred satellites have positive radii, i/2 + 4 for index
    [i], which do not decrease with the index and do not depend on the
    random numbers drawn. *)
Lemma initial_scene_radii (T : Trig binary32) (RAND_MAX : Z) (rand : nat -> Z) :
  List.length (initial_planets (F:=binary32) RAND_MAX rand) = 101%nat /\
  orbit_position (hd (satellite RAND_MAX rand 0) (initial_planets RAND_MAX rand))
  = mkVec3 zero zero zero /\
  (forall i : nat, (i < 100)%nat ->
      nth_error (initial_planets RAND_MAX rand) (S i)
      = Some (satellite RAND_MAX rand i) /\
      orbitRadius (satellite RAND_MAX rand i)
      = (of_int (Z.of_nat i / 2) + of_int 4)%num /\
      (orbitRadius (satellite RAND_MAX rand i) >? zero)%num = true /\
      (orbitRadius (satellite RAND_MAX rand i)
       <=? orbitRadius (satellite RAND_MAX rand (S i)))%num = true).
Proof.
  split; [|split].
  - unfold initial_planets. cbn [List.length].
    now rewrite length_map, length_seq.
  - reflexivity.
  - intros i Hi. split; [|split; [reflexivity|]].
    + unfold initial_planets. cbn [nth_error].
      rewrite nth_error_map, nth_error_seq.
      destruct (Nat.ltb_spec i planetCount) as [_|H]; [reflexivity|].
      unfold planetCount in H. lia.
    + cbn [satellite orbitRadius].
      assert (Hall : forallb
                (fun i => F32.ltb (F32.of_int 0)
                            (F32.add (F32.of_int (Z.of_nat i / 2)) (F32.of_int 4))
                          && F32.leb
                               (F32.add (F32.of_int (Z.of_nat i / 2)) (F32.of_int 4))
                               (F32.add (F32.of_int (Z.of_nat (S i) / 2))
                                        (F32.of_int 4)))
                (seq 0 100) = true) by (vm_compute; reflexivity).
      rewrite forallb_forall in Hall.
      specialize (Hall i). rewrite in_seq in Hall.
      apply andb_prop. apply Hall. lia.
Qed.

(** ** Laws of binary32 arithmetic *)

Module F32Laws.

Lemma mul_comm (a b : F32.float) : F32.mul a b = F32.mul b a.
Proof.
  destruct a as [sa|sa| |sa ma ea], b as [sb|sb| |sb mb eb];
    unfold F32.mul, SFmul; try reflexivity;
    rewrite (Bool.xorb_comm sa sb); try reflexivity.
  now rewrite (Pos.mul_comm ma mb), (Z.add_comm ea eb).
Qed.

Lemma add_comm (a b : F32.float) : F32.add a b = F32.add b a.
Proof.
  destruct a as [sa|sa| |sa ma ea], b as [sb|sb| |sb mb eb];
    unfold F32.add, SFadd; try reflexivity;
    try (now destruct sa, sb).
  now rewrite (Z.min_comm ea eb), Z.add_comm.
Qed.

Lemma sub_add_neg (a b : F32.float) : F32.sub a b = F32.add a (F32.neg b).
Proof.
  destruct a as [sa|sa| |sa ma ea], b as [sb|sb| |sb mb eb];
    unfold F32.sub, F32.add, F32.neg, SFsub, SFadd, SFopp; try reflexivity;
    try (now destruct sa, sb).
Qed.

Lemma same_sym (a b : F32.float) : same a b -> same b a.
Proof. intros [->|[s [s' [-> ->]]]]; [now left|right; eauto]. Qed.

(** [b - a] is the opposite of [a - b], up to the sign of zero. *)
Lemma sub_antisym (a b : F32.float) :
  same (F32.sub b a) (F32.neg (F32.sub a b)).
Proof.
  rewrite !sub_add_neg. rewrite (add_comm b (F32.neg a)).
  rewrite <- (F32Facts.neg_involutive b) at 1.
  apply F32Facts.add_neg_neg.
Qed.

(** *** Signs *)

Lemma binary_round_aux_sign (m e : Z) (l : location) :
  (0 <= m)%Z ->
  positive_sign (binary_round_aux F32.prec F32.emax false m e l) = true.
Proof.
  intro Hm. unfold binary_round_aux.
  assert (H1 := F32Facts.shr_fexp_nonneg m e l Hm).
  destruct (shr_fexp F32.prec F32.emax m e l) as [mrs' e'].
  cbn [fst] in H1.
  assert (H2 := F32Facts.shr_fexp_nonneg _ e' loc_Exact
                  (F32Facts.round_nearest_even_nonneg _ (loc_of_shr_record mrs') H1)).
  destruct (shr_fexp F32.prec F32.emax _ e' loc_Exact) as [mrs'' e''].
  cbn [fst] in H2.
  destruct (shr_m mrs'') as [|p|p]; [reflexivity| |lia].
  now destruct (e'' <=? F32.emax - F32.prec)%Z.
Qed.

(** A square has its sign bit clear. *)
Lemma square_sign (a : F32.float) :
  F32.is_nan a = false -> positive_sign (F32.mul a a) = true.
Proof.
  destruct a as [s|s| |s m e]; try discriminate; intros _.
  - now destruct s.
  - now destruct s.
  - unfold F32.mul, SFmul. rewrite Bool.xorb_nilpotent.
    now apply binary_round_aux_sign.
Qed.

Lemma add_sign (a b : F32.float) :
  positive_sign a = true -> positive_sign b = true ->
  positive_sign (F32.add a b) = true.
Proof.
  destruct a as [[]|[]| |[] ma ea], b as [[]|[]| |[] mb eb];
    try discriminate; try reflexivity; intros _ _.
  unfold F32.add, SFadd. cbn [cond_Zopp].
  unfold binary_normalize, binary_round.
  destruct (shl_align mb eb _) as [mz ez] eqn:E; cbn [fst].
  destruct (shl_align ma ea _) as [mz' ez'] eqn:E'; cbn [fst].
  cbn [Z.add].
  destruct (shl_align (mz' + mz) _ _) as [m1 e1].
  now apply binary_round_aux_sign.
Qed.

Lemma sqrt_sign (a : F32.float) :
  positive_sign a = true -> positive_sign (F32.sqrt a) = true.
Proof.
  destruct a as [[]|[]| |[] m e]; try discriminate; try reflexivity; intros _.
  unfold F32.sqrt, SFsqrt, SFsqrt_core_binary.
  set (m' := match (e - 2 * _)%Z with Z0 => _ | Z.pos _ => _ | Z.neg _ => _ end).
  assert (Hq := Z.sqrtrem_sqrt m').
  destruct (Z.sqrtrem m') as [q r]. cbn [fst] in Hq.
  apply binary_round_aux_sign. rewrite Hq. apply Z.sqrt_nonneg.
Qed.

Lemma positive_sign_not_nan (a : F32.float) :
  positive_sign a = true -> F32.is_nan a = false.
Proof. now destruct a. Qed.

Lemma mul_nan_l (a : F32.float) : F32.mul S754_nan a = S754_nan.
Proof. reflexivity. Qed.

Lemma add_nan_l (a : F32.float) : F32.add S754_nan a = S754_nan.
Proof. reflexivity. Qed.

Lemma add_nan_r (a : F32.float) : F32.add a S754_nan = S754_nan.
Proof. now destruct a. Qed.

End F32Laws.

Section VectorLaws.
Local Open Scope num_scope.

(** X6.  In binary32 [Length v] has its sign bit clear (it is +0, a
    positive number or +infinity) whenever no component of [v] is NaN,
    and it is NaN as soon as one is: the length is never negative and
    never -0. *)
Theorem binary32_Length_sign (v : Vec3 binary32) :
  (F32.is_nan (x v) || F32.is_nan (y v) || F32.is_nan (z v) = false ->
   positive_sign (Length v) = true) /\
  (F32.is_nan (x v) || F32.is_nan (y v) || F32.is_nan (z v) = true ->
   Length v = S754_nan).
Proof.
  destruct v as [a b c]. cbn [x y z]. split; intro H.
  - apply orb_false_elim in H as [H Hc]. apply orb_false_elim in H as [Ha Hb].
    apply F32Laws.sqrt_sign.
    change (positive_sign (F32.add (F32.add (F32.mul a a) (F32.mul b b)) (F32.mul c c)) = true).
    repeat apply F32Laws.add_sign; now apply F32Laws.square_sign.
  - change (F32.sqrt (F32.add (F32.add (F32.mul a a) (F32.mul b b)) (F32.mul c c)) = S754_nan).
    apply orb_prop in H as [H|H]; [apply orb_prop in H as [H|H]|].
    + destruct a; try discriminate. now rewrite F32Laws.mul_nan_l, !F32Laws.add_nan_l.
    + destruct b; try discriminate.
      now rewrite F32Laws.mul_nan_l, F32Laws.add_nan_r, F32Laws.add_nan_l.
    + destruct c; try discriminate.
      now rewrite F32Laws.mul_nan_l, F32Laws.add_nan_r.
Qed.

End VectorLaws.

Module F32Units.

Lemma mul_one_l (a : F32.float) :
  F32.finite a = true -> F32.mul (F32.of_int 1) a = a.
Proof. intro H. rewrite F32Laws.mul_comm. now apply F32Facts.mul_one_r. Qed.

Lemma add_zero_r (a : F32.float) (s : bool) :
  F32.finite a = true -> same (F32.add a (S754_zero s)) a.
Proof.
  intro H. destruct (F32Facts.finite_cases a H) as [[sa ->]|[sa [m [e ->]]]].
  - right. destruct sa, s; cbn; eauto.
  - now left.
Qed.

Lemma add_zero_l (a : F32.float) (s : bool) :
  F32.finite a = true -> same (F32.add (S754_zero s) a) a.
Proof. intro H. rewrite F32Laws.add_comm. now apply add_zero_r. Qed.

(** Adding a zero to what equals [a] still equals [a]. *)
Lemma absorb (t a : F32.float) (s : bool) :
  F32.finite a = true -> same t a -> same (F32.add t (S754_zero s)) a.
Proof.
  intros H Hx. eapply F32Facts.same_trans; [apply F32Facts.same_add_l, Hx|].
  now apply add_zero_r.
Qed.

Lemma compare_refl (a : F32.float) :
  F32.is_nan a = false -> SFcompare a a = Some Eq.
Proof.
  destruct a as [s|s| |s m e]; try discriminate; intros _; cbn.
  - reflexivity.
  - now destruct s.
  - destruct s; rewrite Z.compare_refl, Pos.compare_cont_refl; reflexivity.
Qed.

(** Values equal up to the sign of zero compare equal with [==]. *)
Lemma same_eqb (a b : F32.float) :
  F32.is_nan b = false -> same a b -> F32.eqb a b = true.
Proof.
  intros H [->|[s [s' [-> ->]]]]; [|reflexivity].
  unfold F32.eqb, SFeqb. now rewrite compare_refl.
Qed.

Lemma finite_not_nan (a : F32.float) : F32.finite a = true -> F32.is_nan a = false.
Proof. now destruct a. Qed.

End F32Units.

Section IdentityRows.
Local Open Scope num_scope.
Variables a b c d : @num binary32.
Hypothesis Ha : F32.finite a = true.
Hypothesis Hb : F32.finite b = true.
Hypothesis Hc : F32.finite c = true.
Hypothesis Hd : F32.finite d = true.

Lemma Identity_row0 : same (one * a + zero * b + zero * c + zero * d) a.
Proof.
  change (same (F32.add (F32.add (F32.add (F32.mul (F32.of_int 1) a)
                                          (F32.mul (S754_zero false) b))
                                 (F32.mul (S754_zero false) c))
                        (F32.mul (S754_zero false) d)) a).
  rewrite (F32Units.mul_one_l a Ha).
  destruct (F32Facts.zero_mul_finite b Hb) as [sb ->].
  destruct (F32Facts.zero_mul_finite c Hc) as [sc ->].
  destruct (F32Facts.zero_mul_finite d Hd) as [sd ->].
  repeat apply F32Units.absorb; try assumption. apply F32Facts.same_refl.
Qed.

Lemma Identity_row1 : same (zero * a + one * b + zero * c + zero * d) b.
Proof.
  change (same (F32.add (F32.add (F32.add (F32.mul (S754_zero false) a)
                                          (F32.mul (F32.of_int 1) b))
                                 (F32.mul (S754_zero false) c))
                        (F32.mul (S754_zero false) d)) b).
  rewrite (F32Units.mul_one_l b Hb).
  destruct (F32Facts.zero_mul_finite a Ha) as [sa ->].
  destruct (F32Facts.zero_mul_finite c Hc) as [sc ->].
  destruct (F32Facts.zero_mul_finite d Hd) as [sd ->].
  repeat apply F32Units.absorb; try assumption. now apply F32Units.add_zero_l.
Qed.

Lemma Identity_row2 : same (zero * a + zero * b + one * c + zero * d) c.
Proof.
  change (same (F32.add (F32.add (F32.add (F32.mul (S754_zero false) a)
                                          (F32.mul (S754_zero false) b))
                                 (F32.mul (F32.of_int 1) c))
                        (F32.mul (S754_zero false) d)) c).
  rewrite (F32Units.mul_one_l c Hc).
  destruct (F32Facts.zero_mul_finite a Ha) as [sa ->].
  destruct (F32Facts.zero_mul_finite b Hb) as [sb ->].
  destruct (F32Facts.zero_mul_finite d Hd) as [sd ->].
  destruct (F32Facts.zero_add_zero sa sb) as [s1 ->].
  apply F32Units.absorb; try assumption. now apply F32Units.add_zero_l.
Qed.

Lemma Identity_row3 : same (zero * a + zero * b + zero * c + one * d) d.
Proof.
  change (same (F32.add (F32.add (F32.add (F32.mul (S754_zero false) a)
                                          (F32.mul (S754_zero false) b))
                                 (F32.mul (S754_zero false) c))
                        (F32.mul (F32.of_int 1) d)) d).
  rewrite (F32Units.mul_one_l d Hd).
  destruct (F32Facts.zero_mul_finite a Ha) as [sa ->].
  destruct (F32Facts.zero_mul_finite b Hb) as [sb ->].
  destruct (F32Facts.zero_mul_finite c Hc) as [sc ->].
  destruct (F32Facts.zero_add_zero sa sb) as [s1 ->].
  destruct (F32Facts.zero_add_zero s1 sc) as [s2 ->].
  now apply F32Units.add_zero_l.
Qed.

Lemma Identity_col0 : same (a * one + b * zero + c * zero + d * zero) a.
Proof.
  change (@mul binary32) with F32.mul.
  rewrite (F32Laws.mul_comm a), (F32Laws.mul_comm b), (F32Laws.mul_comm c),
    (F32Laws.mul_comm d).
  exact Identity_row0.
Qed.

Lemma Identity_col1 : same (a * zero + b * one + c * zero + d * zero) b.
Proof.
  change (@mul binary32) with F32.mul.
  rewrite (F32Laws.mul_comm a), (F32Laws.mul_comm b), (F32Laws.mul_comm c),
    (F32Laws.mul_comm d).
  exact Identity_row1.
Qed.

Lemma Identity_col2 : same (a * zero + b * zero + c * one + d * zero) c.
Proof.
  change (@mul binary32) with F32.mul.
  rewrite (F32Laws.mul_comm a), (F32Laws.mul_comm b), (F32Laws.mul_comm c),
    (F32Laws.mul_comm d).
  exact Identity_row2.
Qed.

Lemma Identity_col3 : same (a * zero + b * zero + c * zero + d * one) d.
Proof.
  change (@mul binary32) with F32.mul.
  rewrite (F32Laws.mul_comm a), (F32Laws.mul_comm b), (F32Laws.mul_comm c),
    (F32Laws.mul_comm d).
  exact Identity_row3.
Qed.

End IdentityRows.

Section MatrixLaws.
Local Open Scope num_scope.

(** X7.  In binary32 the product of [Identity] and a matrix of sixteen
    finite entries, on either side, equals the matrix entry by entry
    under [==]: multiplying by one is exact and the products by zero add
    zeros, which can only change the sign of a zero entry. *)
Theorem binary32_Identity_neutral (m : Mat4 binary32) :
  List.length m = 16%nat -> forallb F32.finite m = true ->
  Forall2 (fun a b => F32.eqb a b = true) (mmul Identity m) m /\
  Forall2 (fun a b => F32.eqb a b = true) (mmul m Identity) m.
Proof.
  intros Hlen Hfin.
  do 16 (destruct m as [|? m]; [discriminate|]).
  destruct m; [|discriminate]. clear Hlen.
  cbn [forallb] in Hfin.
  repeat match type of Hfin with
         | (_ && _) = true => apply andb_prop in Hfin as [? Hfin]
         end.
  split.
  - unfold mmul, entry, Identity, Mat4_default.
    cbn [fold_left seq set get nth repeat Nat.add Nat.mul].
    repeat (constructor;
            [apply F32Units.same_eqb; [now apply F32Units.finite_not_nan|];
             lazymatch goal with
             | |- same (one * _ + _ + _ + _) _ => now apply Identity_row0
             | |- same (_ + one * _ + _ + _) _ => now apply Identity_row1
             | |- same (_ + _ + one * _ + _) _ => now apply Identity_row2
             | |- same (_ + _ + _ + one * _) _ => now apply Identity_row3
             end|]).
    constructor.
  - unfold mmul, entry, Identity, Mat4_default.
    cbn [fold_left seq set get nth repeat Nat.add Nat.mul].
    repeat (constructor;
            [apply F32Units.same_eqb; [now apply F32Units.finite_not_nan|];
             lazymatch goal with
             | |- same (_ * one + _ + _ + _) _ => now apply Identity_col0
             | |- same (_ + _ * one + _ + _) _ => now apply Identity_col1
             | |- same (_ + _ + _ * one + _) _ => now apply Identity_col2
             | |- same (_ + _ + _ + _ * one) _ => now apply Identity_col3
             end|]).
    constructor.
Qed.

(** The translation by (1, 2, 3). *)
Lemma binary32_Identity_neutral_witness :
  let m := Translation (F:=binary32) (of_int 1) (of_int 2) (of_int 3) in
  List.length m = 16%nat /\ forallb F32.finite m = true /\
  Forall2 (fun a b => F32.eqb a b = true) (mmul Identity m) m /\
  Forall2 (fun a b => F32.eqb a b = true) (mmul m Identity) m.
Proof.
  intro m.
  assert (H1 : List.length m = 16%nat) by reflexivity.
  assert (H2 : forallb F32.finite m = true) by reflexivity.
  split; [exact H1|]. split; [exact H2|].
  exact (binary32_Identity_neutral m H1 H2).
Defined.

(** X4.  In binary32 the dot product and the sum of two vectors do not
    depend on the order of the operands: the results are the same value,
    infinities and NaN included. *)
Theorem binary32_Dot_comm (a b : Vec3 binary32) :
  Dot a b = Dot b a /\ vadd a b = vadd b a.
Proof.
  split.
  - unfold Dot. change (@mul binary32) with F32.mul.
    now rewrite (F32Laws.mul_comm (x a)), (F32Laws.mul_comm (y a)),
      (F32Laws.mul_comm (z a)).
  - unfold vadd. change (@add binary32) with F32.add.
    now rewrite (F32Laws.add_comm (x a)), (F32Laws.add_comm (y a)),
      (F32Laws.add_comm (z a)).
Qed.

Lemma cross_component (p q r s : F32.float) :
  same (F32.sub (F32.mul p q) (F32.mul r s))
       (F32.neg (F32.sub (F32.mul s r) (F32.mul q p))).
Proof.
  rewrite (F32Laws.mul_comm p q), (F32Laws.mul_comm r s).
  apply F32Laws.sub_antisym.
Qed.

(** X5.  In binary32 each component of [Cross b a] is the opposite of the
    component of [Cross a b], up to the sign of a zero; and [Cross a a]
    is the zero vector whenever the three products of components of [a]
    are finite. *)
Theorem binary32_Cross_antisym (a b : Vec3 binary32) :
  (same (x (Cross b a)) (- x (Cross a b)) /\
   same (y (Cross b a)) (- y (Cross a b)) /\
   same (z (Cross b a)) (- z (Cross a b))) /\
  (F32.finite (y a * z a) = true -> F32.finite (z a * x a) = true ->
   F32.finite (x a * y a) = true ->
   Cross a a = mkVec3 zero zero zero).
Proof.
  split.
  - unfold Cross. cbn [x y z]. repeat split; apply cross_component.
  - intros Hx Hy Hz. unfold Cross.
    change (@mul binary32) with F32.mul in *. change (@sub binary32) with F32.sub.
    rewrite (F32Laws.mul_comm (z a) (y a)), (F32Laws.mul_comm (x a) (z a)),
      (F32Laws.mul_comm (y a) (x a)).
    rewrite !F32Laws.sub_add_neg.
    now rewrite !F32Facts.add_neg_diag.
Qed.

End MatrixLaws.

(** ** The loader and its buffer *)

Section LoaderBuffer.
Context {F : Scalar}.
Variable extract_float : string -> num * string.

Lemma pushed_triangles_same (st st' : Loader F) tris :
  positions st' = positions st -> texcoords st' = texcoords st ->
  flat_map (pushed_triangle st') tris = flat_map (pushed_triangle st) tris.
Proof.
  intros Hp Ht. induction tris as [|t tris IH]; [reflexivity|].
  cbn [flat_map]. now rewrite IH, (pushed_triangle_same st st' t Hp Ht).
Qed.

Lemma face_none (st : Loader F) (tokens : list string) :
  face_converts tokens = false -> face st tokens = None.
Proof.
  intro H. destruct (face st tokens) as [st'|] eqn:E; [|reflexivity].
  apply face_converts_of_returns in E. congruence.
Qed.

(** A face appends the same reals whatever the buffer holds. *)
Lemma face_prepend (out : list num) (st : Loader F) (tokens : list string) :
  face (prepend out st) tokens = option_map (prepend out) (face st tokens).
Proof.
  destruct (face_converts tokens) eqn:E.
  - unfold face_converts in E. apply orb_prop in E as [E|E].
    + apply Nat.ltb_lt in E. now rewrite !face_short.
    + destruct (converts_refs _ E) as [refs Hrefs].
      rewrite !(face_fan _ _ _ Hrefs), !push_triangles_pushed.
      cbn [option_map]. unfold prepend at 3. cbn [positions texcoords outVertices].
      rewrite (pushed_triangles_same st (prepend out st)) by reflexivity.
      unfold prepend. cbn [positions texcoords outVertices].
      now rewrite app_assoc.
  - now rewrite !face_none.
Qed.

Lemma record_prepend (out : list num) (st : Loader F) (line : string) :
  record extract_float (prepend out st) line
  = option_map (prepend out) (record extract_float st line).
Proof.
  rewrite !record_kind. destruct (kind_of line); try reflexivity.
  apply face_prepend.
Qed.

Lemma records_prepend (out : list num) (lines : list string) :
  forall st : Loader F,
    records extract_float (prepend out st) lines
    = option_map (prepend out) (records extract_float st lines).
Proof.
  unfold records. induction lines as [|l ls IH]; intro st; [reflexivity|].
  cbn [fold_left]. rewrite record_prepend.
  destruct (record extract_float st l) as [st1|]; cbn [option_map].
  - apply IH.
  - now rewrite !records_none.
Qed.

End LoaderBuffer.

(** X18.  [LoadOBJ] does not clear the buffer it is given: it appends to
    it, and tests the whole buffer for emptiness at the end, so that a
    buffer that is not empty makes it return true even for a text
    without faces. *)
Theorem LoadOBJ_appends {F : Scalar} (extract_float : string -> num * string)
    (text : string) (out0 : list num) :
  LoadOBJ extract_float None out0 = Some (false, out0) /\
  LoadOBJ extract_float (Some text) out0
  = option_map (fun r => (negb (is_empty (out0 ++ snd r)), out0 ++ snd r))
               (LoadOBJ extract_float (Some text) []) /\
  (out0 <> [] ->
   LoadOBJ extract_float (Some EmptyString) out0 = Some (true, out0)).
Proof.
  split; [reflexivity|]. split.
  - unfold LoadOBJ.
    replace (mkLoader [] [] out0) with (prepend out0 (mkLoader (F:=F) [] [] []))
      by (unfold prepend; cbn [positions texcoords outVertices];
          now rewrite app_nil_r).
    rewrite records_prepend.
    destruct (records extract_float (mkLoader [] [] []) (Text.getlines text))
      as [st|]; [|reflexivity].
    cbn [option_map prepend outVertices].
    destruct (outVertices st) as [|a l]; cbn [option_map snd];
      now destruct (out0 ++ _).
  - intro H. unfold LoadOBJ. cbn. now destruct out0.
Qed.

(** A buffer of one vertex and the empty text. *)
Lemma LoadOBJ_appends_witness :
  let out0 := [one; one; one; zero; zero] in
  out0 <> [] /\
  LoadOBJ Decimal.read (Some EmptyString) out0 = Some (true, out0).
Proof.
  intro out0.
  assert (H : out0 <> []) by discriminate.
  split; [exact H|].
  exact (proj2 (proj2 (LoadOBJ_appends Decimal.read EmptyString out0)) H).
Defined.

Section LoaderLines.
Context {F : Scalar}.
Variable extract_float : string -> num * string.

Lemma records_cons (st : Loader F) (line : string) (lines : list string) :
  records extract_float st (line :: lines)
  = match record extract_float st line with
    | Some st' => records extract_float st' lines
    | None => None
    end.
Proof.
  unfold records. cbn [fold_left].
  destruct (record extract_float st line); [reflexivity|apply records_none].
Qed.

Lemma records_relevant (lines : list string) :
  forall st : Loader F,
    records extract_float st (filter relevant lines)
    = records extract_float st lines.
Proof.
  induction lines as [|l ls IH]; intro st; [reflexivity|].
  cbn [filter]. unfold relevant at 1.
  rewrite (records_cons st l ls), (record_kind extract_float st l).
  destruct (kind_of l) eqn:E; try (rewrite records_cons, record_kind, E);
    try (now rewrite IH); try (destruct (face st tokens); now rewrite ?IH).
Qed.

End LoaderLines.

(** X19.  Lines that are empty or blank, or whose first token is not
    [v], [vt] or [f], do not count: two texts with the same other lines
    load the same. *)
Theorem LoadOBJ_ignores {F : Scalar} (extract_float : string -> num * string)
    (text1 text2 : string) (out0 : list num) :
  filter relevant (Text.getlines text1) = filter relevant (Text.getlines text2) ->
  LoadOBJ extract_float (Some text1) out0 = LoadOBJ extract_float (Some text2) out0.
Proof.
  intro H. unfold LoadOBJ.
  rewrite <- (records_relevant extract_float (Text.getlines text1)).
  rewrite <- (records_relevant extract_float (Text.getlines text2)).
  now rewrite H.
Qed.

(** A triangle, with and without comments, normals and blank lines. *)
Lemma LoadOBJ_ignores_witness :
  let text1 := unlines ["# a triangle"; "v 0 0 0"; "v 1 0 0"; ""; "vn 0 0 1";
                        "v 0 1 0"; "usemtl m"; "   "; "f 1 2 3"]%string in
  let text2 := unlines ["v 0 0 0"; "v 1 0 0"; "v 0 1 0"; "f 1 2 3"]%string in
  filter relevant (Text.getlines text1) = filter relevant (Text.getlines text2) /\
  LoadOBJ Decimal.read (Some text1) [] = LoadOBJ Decimal.read (Some text2) [].
Proof.
  intros text1 text2.
  assert (H : filter relevant (Text.getlines text1)
              = filter relevant (Text.getlines text2)) by reflexivity.
  split; [exact H|].
  exact (LoadOBJ_ignores Decimal.read text1 text2 [] H).
Defined.

Section IndexFields.
Local Open Scope string_scope.

Lemma find_slash_app (v rest : string) :
  no_slash v = true ->
  Text.find_slash (v ++ String Text.slash rest) = Some (v, rest).
Proof.
  unfold no_slash. induction v as [|c v IH]; intro H.
  - reflexivity.
  - cbn [append Text.find_slash] in *.
    destruct (Ascii.eqb c Text.slash); [discriminate|].
    destruct (Text.find_slash v) as [[b a]|]; [discriminate|].
    now rewrite IH.
Qed.

Lemma find_slash_none (s : string) :
  no_slash s = true -> Text.find_slash s = None.
Proof. unfold no_slash. now destruct (Text.find_slash s). Qed.

End IndexFields.

(** X20.  The fields of a reference [v/t/n]: the third one is never
    read, an empty first or second one counts as zero, and a token
    without a slash is converted as a whole. *)
Theorem parseIndex_fields (v t n : string) :
  no_slash v = true -> no_slash t = true ->
  let field := fun s => if Text.empty s then Some 0%Z else Text.stoi s in
  let sep := String Text.slash in
  parseIndex (v ++ sep (t ++ sep n))%string = parseIndex (v ++ sep t)%string /\
  parseIndex (v ++ sep t)%string
  = match field v, field t with
    | Some vi, Some ti => Some (vi, ti)
    | _, _ => None
    end /\
  parseIndex v = option_map (fun vi => (vi, 0%Z)) (Text.stoi v).
Proof.
  intros Hv Ht field sep. unfold parseIndex, sep.
  rewrite !(find_slash_app v _ Hv), (find_slash_app t n Ht),
    (find_slash_none t Ht), (find_slash_none v Hv).
  split; [reflexivity|]. split.
  - unfold field. destruct (if Text.empty v then _ else _); [|reflexivity].
    now destruct (if Text.empty t then _ else _).
  - now destruct (Text.stoi v).
Qed.

(** The reference [7//x]. *)
Lemma parseIndex_fields_witness :
  let field := fun s => if Text.empty s then Some 0%Z else Text.stoi s in
  let sep := String Text.slash in
  no_slash "7" = true /\ no_slash EmptyString = true /\
  parseIndex ("7" ++ sep (EmptyString ++ sep "x"))%string
  = parseIndex ("7" ++ sep EmptyString)%string /\
  parseIndex ("7" ++ sep EmptyString)%string
  = match field "7"%string, field EmptyString with
    | Some vi, Some ti => Some (vi, ti)
    | _, _ => None
    end /\
  parseIndex "7" = option_map (fun vi => (vi, 0%Z)) (Text.stoi "7").
Proof.
  intros field sep.
  assert (H1 : no_slash "7" = true) by reflexivity.
  assert (H2 : no_slash EmptyString = true) by reflexivity.
  split; [exact H1|]. split; [exact H2|].
  exact (parseIndex_fields "7" EmptyString "x" H1 H2).
Defined.

(** ** The vertices of a face *)

Section FaceKnown.
Context {F : Scalar}.

Lemma to_int_le (n : nat) : (Text.to_int n <= Z.of_nat n)%Z.
Proof.
  unfold Text.to_int.
  assert (H := Z.mod_le (Z.of_nat n + 2 ^ 31) (2 ^ 32)). lia.
Qed.

Lemma pushed_known (st : Loader F) (ref : Z * Z) :
  Forall (known (positions st) (texcoords st)) (pushed st ref).
Proof.
  unfold pushed, in_range, texture.
  assert (Hp := to_int_le (List.length (positions st))).
  assert (Ht := to_int_le (List.length (texcoords st))).
  destruct (Z.ltb_spec 0 (fst ref)), (Z.leb_spec (fst ref)
             (Text.to_int (List.length (positions st)))); cbn [andb];
    constructor; [|constructor]. split; cbn [fst snd].
  - apply nth_In. lia.
  - rewrite Z.gtb_ltb.
    destruct (Z.ltb_spec 0 (snd ref)), (Z.leb_spec (snd ref)
               (Text.to_int (List.length (texcoords st)))); cbn [andb];
      try (now right).
    left. apply nth_In. lia.
Qed.

Lemma pushed_triangles_known (st : Loader F) tris :
  Forall (known (positions st) (texcoords st))
         (flat_map (pushed_triangle st) tris).
Proof.
  induction tris as [|[[a b] c] tris IH]; [constructor|].
  cbn [flat_map]. unfold pushed_triangle.
  repeat (apply Forall_app; split); try apply pushed_known. exact IH.
Qed.

End FaceKnown.

Section FaceVertices.
Context {F : Scalar}.

Lemma pushed_length (st : Loader F) (ref : Z * Z) :
  (List.length (pushed st ref) <= 1)%nat.
Proof. unfold pushed. destruct (in_range st (fst ref)); cbn; lia. Qed.

Lemma pushed_triangles_length (st : Loader F) tris :
  (List.length (flat_map (pushed_triangle st) tris) <= 3 * List.length tris)%nat.
Proof.
  induction tris as [|[[a b] c] tris IH]; [cbn; lia|].
  cbn [flat_map List.length].
  change (pushed_triangle st (a, b, c))
    with (pushed st a ++ pushed st b ++ pushed st c).
  rewrite !length_app.
  assert (Ha := pushed_length st a). assert (Hb := pushed_length st b).
  assert (Hc := pushed_length st c). lia.
Qed.

End FaceVertices.

(** X21.  What a face appends.  A face that is read to its end leaves
    the positions and the texture coordinates as they were and appends, for
    its n tokens, at most 3 * (n - 2) vertices; every one of them carries
    a position of the collection read so far, and a texture coordinate
    of the collection read so far or (0, 0): the loader substitutes no
    other value. *)
Theorem face_vertices_known {F : Scalar} (st st' : Loader F) (tokens : list string) :
  face st tokens = Some st' ->
  positions st' = positions st /\ texcoords st' = texcoords st /\
  exists vs : list (Vec3 F * Vector2f F),
    outVertices st' = outVertices st ++ stream_of vs /\
    Forall (known (positions st) (texcoords st)) vs /\
    (List.length vs <= 3 * (List.length tokens - 2))%nat.
Proof.
  intro H.
  assert (Hc := face_converts_of_returns _ _ _ H). unfold face_converts in Hc.
  apply orb_prop in Hc as [Hc|Hc].
  - apply Nat.ltb_lt in Hc. rewrite (face_short st _ Hc) in H.
    injection H as <-. repeat split. exists []. cbn [stream_of flat_map List.length].
    rewrite app_nil_r. repeat split; [constructor|lia].
  - destruct (converts_refs _ Hc) as [refs Hrefs].
    rewrite (face_fan st _ _ Hrefs), push_triangles_pushed in H.
    injection H as <-. cbn [positions texcoords outVertices].
    repeat split. eexists. split; [reflexivity|]. split.
    + apply pushed_triangles_known.
    + eapply Nat.le_trans; [apply pushed_triangles_length|].
      rewrite fan_length. apply (f_equal (@List.length _)) in Hrefs.
      rewrite !length_map in Hrefs. rewrite Hrefs. lia.
Qed.

(** A quad over three positions: the reference 4 is skipped. *)
Lemma face_vertices_known_witness :
  let p1 := mkVec3 (F:=binary32) zero zero zero in
  let p2 := mkVec3 (F:=binary32) one zero zero in
  let p3 := mkVec3 (F:=binary32) one one zero in
  let o := mkVector2f (F:=binary32) zero zero in
  let st := mkLoader [p1; p2; p3] [mkVector2f one one] [] in
  let tokens := ["1/1"; "2"; "3/9"; "4"]%string in
  let st' := mkLoader [p1; p2; p3] [mkVector2f one one]
               (stream_of [(p1, mkVector2f one one); (p2, o); (p3, o);
                           (p1, mkVector2f one one); (p3, o)]) in
  face st tokens = Some st' /\
  positions st' = positions st /\ texcoords st' = texcoords st /\
  exists vs : list (Vec3 binary32 * Vector2f binary32),
    outVertices st' = outVertices st ++ stream_of vs /\
    Forall (known (positions st) (texcoords st)) vs /\
    (List.length vs <= 3 * (List.length tokens - 2))%nat.
Proof.
  intros p1 p2 p3 o st tokens st'.
  assert (H : face st tokens = Some st') by reflexivity.
  split; [exact H|].
  exact (face_vertices_known st st' tokens H).
Defined.

(** ** The world transform in binary32 *)

Module F32Zeros.

(** Adding a zero changes at most the sign of a zero. *)
Lemma add_any_zero_r (a : F32.float) (s : bool) : same (F32.add a (S754_zero s)) a.
Proof.
  destruct a as [sa|sa| |sa m e]; try (now left).
  right. destruct sa, s; cbn; eauto.
Qed.

Lemma add_any_zero_l (a : F32.float) (s : bool) : same (F32.add (S754_zero s) a) a.
Proof. rewrite F32Laws.add_comm. apply add_any_zero_r. Qed.

Lemma absorb_zero (t a : F32.float) (s : bool) :
  same t a -> same (F32.add t (S754_zero s)) a.
Proof.
  intro H. eapply F32Facts.same_trans; [apply F32Facts.same_add_l, H|].
  apply add_any_zero_r.
Qed.

(** Products respect equality up to the sign of zero. *)
Lemma same_mul_l (a a' b : F32.float) :
  same a a' -> same (F32.mul a b) (F32.mul a' b).
Proof.
  intros [->|[s [s' [-> ->]]]]; [now left|].
  destruct b as [sb|sb| |sb mb eb]; try (now left).
  - right. cbn. eauto.
  - right. cbn. eauto.
Qed.

Lemma same_finite (a b : F32.float) :
  same a b -> F32.finite b = true -> F32.finite a = true.
Proof. intros [->|[s [s' [-> ->]]]]; [trivial|reflexivity]. Qed.

Lemma mul_not_nan (a b : F32.float) :
  F32.finite a = true -> F32.finite b = true ->
  F32.is_nan (F32.mul a b) = false.
Proof.
  intros Ha Hb.
  destruct (F32Facts.finite_cases a Ha) as [[sa ->]|[sa [ma [ea ->]]]];
    destruct (F32Facts.finite_cases b Hb) as [[sb ->]|[sb [mb [eb ->]]]];
    try reflexivity.
  unfold F32.mul, SFmul. now apply F32Facts.binary_round_aux_not_nan.
Qed.

Lemma zero_mul (a : F32.float) :
  F32.finite a = true -> same (F32.mul (S754_zero false) a) (S754_zero false).
Proof.
  intro H. destruct (F32Facts.zero_mul_finite a H) as [s ->]. right. eauto.
Qed.

End F32Zeros.

Section ListsUpToZero.

Lemma Forall2_same_trans (a b c : list F32.float) :
  Forall2 same a b -> Forall2 same b c -> Forall2 same a c.
Proof.
  intro H. revert c. induction H as [|p q a b Hpq _ IH]; intros c Hc.
  - inversion Hc. constructor.
  - inversion Hc as [|q' r b' c' Hqr Hbc]; subst. constructor.
    + exact (F32Facts.same_trans _ _ _ Hpq Hqr).
    + now apply IH.
Qed.

Lemma Forall2_same_eqb (a b : list F32.float) :
  Forall2 same a b -> forallb (fun c => negb (F32.is_nan c)) b = true ->
  Forall2 (fun p q => F32.eqb p q = true) a b.
Proof.
  induction 1 as [|p q a b Hpq _ IH]; cbn [forallb]; intro Hb; constructor.
  - apply andb_prop in Hb as [Hq _]. apply F32Units.same_eqb; [|exact Hpq].
    now destruct (F32.is_nan q).
  - apply IH. now apply andb_prop in Hb as [_ Hb].
Qed.

End ListsUpToZero.

Section FactorEntries.
Context {F : Scalar} {T : Trig F}.
Local Open Scope num_scope.

(** The sixteen entries of each factor, column by column. *)
Lemma Translation_entries (tx ty tz : num) :
  Translation tx ty tz
  = [one; zero; zero; zero;  zero; one; zero; zero;  zero; zero; one; zero;
     tx; ty; tz; one].
Proof. reflexivity. Qed.

Lemma RotationY_entries (a : num) :
  RotationY a
  = [cos a; zero; sin a; zero;  zero; one; zero; zero;
     - sin a; zero; cos a; zero;  zero; zero; zero; one].
Proof. reflexivity. Qed.

Lemma Scale_entries (sx sy sz : num) :
  Scale sx sy sz
  = [sx; zero; zero; zero;  zero; sy; zero; zero;  zero; zero; sz; zero;
     zero; zero; zero; one].
Proof. reflexivity. Qed.

Lemma mmul_entries (a b : Mat4 F) :
  mmul a b
  = [entry a b 0 0; entry a b 0 1; entry a b 0 2; entry a b 0 3;
     entry a b 1 0; entry a b 1 1; entry a b 1 2; entry a b 1 3;
     entry a b 2 0; entry a b 2 1; entry a b 2 2; entry a b 2 3;
     entry a b 3 0; entry a b 3 1; entry a b 3 2; entry a b 3 3].
Proof. reflexivity. Qed.

Lemma orbit_position_y (p : Planet F) : y (orbit_position p) = zero.
Proof. unfold orbit_position. now destruct (orbitRadius p >? zero). Qed.

End FactorEntries.

Section WorldTransformFacts.
Local Open Scope num_scope.

(** The translation by a finite (px, 0, pz) times the rotation of finite
    cosine [c] and sine [s]: the rotation, with the translation in the
    last column. *)
Lemma translation_rotation (c s px pz : F32.float) :
  F32.finite c = true -> F32.finite s = true ->
  F32.finite px = true -> F32.finite pz = true ->
  Forall2 same
    (mmul (Translation px zero pz)
          [c; zero; s; zero;  zero; one; zero; zero;
           - s; zero; c; zero;  zero; zero; zero; one])
    [c; zero; s; zero;  zero; one; zero; zero;
     - s; zero; c; zero;  px; zero; pz; one].
Proof.
  intros Hc Hs Hpx Hpz.
  assert (Hn : F32.finite (F32.neg s) = true) by now rewrite F32Facts.finite_neg.
  assert (H1 : F32.finite (F32.of_int 1) = true) by reflexivity.
  assert (H0 : F32.finite (S754_zero false) = true) by reflexivity.
  rewrite mmul_entries, Translation_entries. unfold entry.
  cbn [get nth Nat.add Nat.mul].
  change (@zero binary32) with (S754_zero false).
  change (@one binary32) with (F32.of_int 1).
  change (@mul binary32) with F32.mul. change (@add binary32) with F32.add.
  change (@neg binary32) with F32.neg.
  repeat match goal with
         | |- context [F32.mul (F32.of_int 1) ?a] =>
             rewrite (F32Units.mul_one_l a) by assumption
         | |- context [F32.mul ?a (F32.of_int 1)] =>
             rewrite (F32Facts.mul_one_r a) by assumption
         | |- context [F32.mul (S754_zero false) ?a] =>
             let H := fresh in
             assert (H : F32.finite a = true) by assumption;
             destruct (F32Facts.zero_mul_finite a H) as [? ->]; clear H
         | |- context [F32.mul ?a (S754_zero false)] =>
             let H := fresh in
             assert (H : F32.finite a = true) by assumption;
             destruct (F32Facts.mul_zero_r a H) as [? ->]; clear H
         end.
  repeat match goal with
         | |- context [F32.add (S754_zero ?u) (S754_zero ?v)] =>
             destruct (F32Facts.zero_add_zero u v) as [? ->]
         end.
  repeat (constructor;
          [repeat lazymatch goal with
                  | |- same (F32.add _ (S754_zero _)) _ => apply F32Zeros.absorb_zero
                  end;
           lazymatch goal with
           | |- same (F32.add (S754_zero _) _) _ => apply F32Zeros.add_any_zero_l
           | |- same (S754_zero _) (S754_zero _) => right; eauto
           | |- same ?a ?a => now left
           end|]).
  constructor.
Qed.

End WorldTransformFacts.

Section ScaleFacts.
Local Open Scope num_scope.

(** A matrix whose entries are, up to the sign of zero, the finite
    entries [v], times a uniform scale: the first three columns are
    multiplied by [k], the last one is kept. *)
Lemma scale_on_the_right (m v : Mat4 binary32) (k : F32.float) :
  List.length v = 16%nat -> Forall2 same m v ->
  forallb F32.finite v = true -> F32.finite k = true ->
  Forall2 same (mmul m (Scale k k k))
    (map (fun i => if (i <? 12)%nat then get v i * k else get v i) (seq 0 16)).
Proof.
  intros Hlen Hmv Hfin Hk.
  do 16 (destruct v as [|? v]; [discriminate|]).
  destruct v; [|discriminate]. clear Hlen.
  do 16 (destruct m as [|? m]; [inversion Hmv|];
         apply Forall2_cons_iff in Hmv as [? Hmv]).
  destruct m; [|inversion Hmv]. clear Hmv.
  cbn [forallb] in Hfin.
  repeat match type of Hfin with
         | (_ && _) = true => apply andb_prop in Hfin as [? Hfin]
         end.
  repeat match goal with
         | H : same ?a ?b, Hb : F32.finite ?b = true |- _ =>
             lazymatch goal with
             | _ : F32.finite a = true |- _ => fail
             | _ => assert (F32.finite a = true)
                      by exact (F32Zeros.same_finite a b H Hb)
             end
         end.
  assert (Hone : F32.finite (F32.of_int 1) = true) by reflexivity.
  assert (Hzero : F32.finite (S754_zero false) = true) by reflexivity.
  rewrite mmul_entries, Scale_entries. unfold entry.
  cbn [get nth Nat.add Nat.mul map seq Nat.ltb Nat.leb].
  change (@zero binary32) with (S754_zero false).
  change (@one binary32) with (F32.of_int 1).
  change (@mul binary32) with F32.mul. change (@add binary32) with F32.add.
  repeat match goal with
         | |- context [F32.mul ?a (F32.of_int 1)] =>
             rewrite (F32Facts.mul_one_r a) by assumption
         | |- context [F32.mul ?a (S754_zero false)] =>
             let H := fresh in
             assert (H : F32.finite a = true) by assumption;
             destruct (F32Facts.mul_zero_r a H) as [? ->]; clear H
         end.
  repeat match goal with
         | |- context [F32.add (S754_zero ?u) (S754_zero ?v)] =>
             destruct (F32Facts.zero_add_zero u v) as [? ->]
         end.
  repeat (constructor;
          [repeat lazymatch goal with
                  | |- same (F32.add _ (S754_zero _)) _ => apply F32Zeros.absorb_zero
                  end;
           lazymatch goal with
           | |- same (F32.add (S754_zero _) (F32.mul _ _)) _ =>
               eapply F32Facts.same_trans;
               [apply F32Zeros.add_any_zero_l|now apply F32Zeros.same_mul_l]
           | |- same (F32.add (S754_zero _) _) _ =>
               eapply F32Facts.same_trans; [apply F32Zeros.add_any_zero_l|assumption]
           | |- same (F32.mul _ _) _ => now apply F32Zeros.same_mul_l
           end|]).
  constructor.
Qed.

End ScaleFacts.

Section WorldTransform.
Local Open Scope num_scope.
Context (T : Trig binary32).

(** The world transform of a body, entry by entry. *)
Lemma model_matrix_entries (q : Planet binary32) :
  let pos := orbit_position q in
  let c := cos (selfAngle q) in
  let s := sin (selfAngle q) in
  let k := scale q in
  F32.finite c = true -> F32.finite s = true -> F32.finite k = true ->
  F32.finite (x pos) = true -> F32.finite (z pos) = true ->
  Forall2 (fun a b => F32.eqb a b = true) (model_matrix q)
    [c * k; zero; s * k; zero;
     zero; k; zero; zero;
     - (s * k); zero; c * k; zero;
     x pos; y pos; z pos; one].
Proof.
  intros pos c s k Hc Hs Hk Hx Hz.
  rewrite model_matrix_world_transform. unfold world_transform.
  fold pos k. rewrite RotationY_entries. fold c s.
  assert (Hy : y pos = zero) by apply orbit_position_y.
  rewrite Hy.
  assert (Hn : F32.finite (F32.neg s) = true) by now rewrite F32Facts.finite_neg.
  apply Forall2_same_eqb.
  - eapply Forall2_same_trans.
    + apply scale_on_the_right
        with (v := [c; zero; s; zero;  zero; one; zero; zero;
                    - s; zero; c; zero;  x pos; zero; z pos; one]).
      * reflexivity.
      * now apply translation_rotation.
      * cbn [forallb]. change (@neg binary32) with F32.neg.
        rewrite Hc, Hs, Hn, Hx, Hz. reflexivity.
      * exact Hk.
    + cbn [map seq get nth Nat.ltb Nat.leb].
      change (@zero binary32) with (S754_zero false).
      change (@one binary32) with (F32.of_int 1).
      change (@mul binary32) with F32.mul. change (@neg binary32) with F32.neg.
      rewrite (F32Units.mul_one_l k Hk), F32Facts.mul_neg_l.
      repeat (constructor;
              [lazymatch goal with
               | |- same (F32.mul (S754_zero false) _) _ => now apply F32Zeros.zero_mul
               | |- same ?a ?a => now left
               end|]).
      constructor.
  - cbn [forallb]. change (@mul binary32) with F32.mul.
    change (@neg binary32) with F32.neg.
    assert (Hck := F32Zeros.mul_not_nan c k Hc Hk).
    assert (Hsk := F32Zeros.mul_not_nan s k Hs Hk).
    assert (Hnk : F32.is_nan (F32.neg (F32.mul s k)) = false)
      by now destruct (F32.mul s k).
    rewrite Hck, Hsk, Hnk.
    rewrite (F32Units.finite_not_nan k Hk), (F32Units.finite_not_nan _ Hx),
      (F32Units.finite_not_nan _ Hz).
    reflexivity.
Qed.

End WorldTransform.

(** C1.  One pass of the update loop replaces a body's [orbitAngle] by
    [orbitAngle + orbitSpeed * dt] and its [selfAngle] by
    [selfAngle + selfSpeed * dt], the sums being plain binary32 operations
    with no clamping and no reduction of the angle.  The position of the
    advanced body is (cos(orbitAngle) * r, 0, sin(orbitAngle) * r) when
    the radius [r] is positive and the origin when [r == 0], whatever the
    orbit angle.  The matrix drawn for it is the product
    translate(position) * rotateY(selfAngle) * scale(s, s, s) as
    [operator*] computes it, the three factors having the entries listed
    (column by column).  Whenever the cosine [c] and the sine [s] of
    [selfAngle], the scale [k] and the position are finite, the sixteen
    entries of the product are, under [==]: (c*k, 0, s*k, 0), (0, k, 0, 0)
    and (-(s*k), 0, c*k, 0) for the first three columns, the rotation
    scaled by [k], and (position, 1) for the last.  In exact arithmetic
    the last column is the position for every body. *)
Theorem advance_world_transform (T : Trig binary32) (dt : num) (p : Planet binary32) :
  let q := advance dt p in
  let pos := orbit_position q in
  let c := cos (selfAngle q) in
  let s := sin (selfAngle q) in
  let k := scale q in
  orbitAngle q = (orbitAngle p + orbitSpeed p * dt)%num /\
  selfAngle q = (selfAngle p + selfSpeed p * dt)%num /\
  ((orbitRadius q >? zero)%num = true ->
   pos = mkVec3 (cos (orbitAngle q) * orbitRadius q)%num zero
                (sin (orbitAngle q) * orbitRadius q)%num) /\
  (F32.eqb (orbitRadius q) zero = true -> pos = mkVec3 zero zero zero) /\
  model_matrix q
  = mmul (mmul (Translation (x pos) (y pos) (z pos)) (RotationY (selfAngle q)))
         (Scale k k k) /\
  (forall tx ty tz a sx sy sz : num,
      Translation tx ty tz
      = [one; zero; zero; zero;  zero; one; zero; zero;
         zero; zero; one; zero;  tx; ty; tz; one] /\
      RotationY a
      = [cos a; zero; sin a; zero;  zero; one; zero; zero;
         (- sin a)%num; zero; cos a; zero;  zero; zero; zero; one] /\
      Scale sx sy sz
      = [sx; zero; zero; zero;  zero; sy; zero; zero;
         zero; zero; sz; zero;  zero; zero; zero; one]) /\
  (F32.finite c = true -> F32.finite s = true -> F32.finite k = true ->
   F32.finite (x pos) = true -> F32.finite (z pos) = true ->
   Forall2 (fun a b => F32.eqb a b = true) (model_matrix q)
     [c * k; zero; s * k; zero;
      zero; k; zero; zero;
      - (s * k); zero; c * k; zero;
      x pos; y pos; z pos; one]%num) /\
  (forall b : Planet exact,
      map (get (model_matrix b)) [12; 13; 14; 15]%nat
      = [x (orbit_position b); y (orbit_position b); z (orbit_position b);
         1%R]).
Proof.
  intros q pos c s k.
  split; [reflexivity|]. split; [reflexivity|].
  split; [|split; [|split; [|split; [|split]]]].
  - intro Hr. unfold pos, orbit_position. now rewrite Hr.
  - intro Hr. unfold pos, orbit_position.
    assert (Hlt : (orbitRadius q >? zero)%num = false).
    { revert Hr. generalize (orbitRadius q). intros [u|u| |u m e]; cbn;
        try reflexivity; try discriminate; destruct u; cbn; discriminate. }
    now rewrite Hlt.
  - rewrite model_matrix_world_transform. unfold world_transform, pos, k.
    reflexivity.
  - intros tx ty tz a sx sy sz.
    split; [apply Translation_entries|].
    split; [apply RotationY_entries|apply Scale_entries].
  - apply model_matrix_entries.
  - apply exact_world_position.
Qed.

(** A body at radius 4, advanced by a sixtieth of a second. *)
Lemma advance_world_transform_witness :
  let dt : @num binary32 := dec 1 60 in
  let p := @mkPlanet binary32 (of_int 4) one one (of_int 2) zero zero in
  let q := advance dt p in
  let pos := orbit_position (T:=series_trig) q in
  let c := @cos binary32 series_trig (selfAngle q) in
  let s := @sin binary32 series_trig (selfAngle q) in
  let k := scale q in
  (F32.finite c = true /\ F32.finite s = true /\ F32.finite k = true /\
   F32.finite (x pos) = true /\ F32.finite (z pos) = true) /\
  Forall2 (fun a b => F32.eqb a b = true) (model_matrix (T:=series_trig) q)
    [c * k; zero; s * k; zero;
     zero; k; zero; zero;
     - (s * k); zero; c * k; zero;
     x pos; y pos; z pos; one]%num.
Proof.
  intros dt p q pos c s k.
  assert (Hc : F32.finite c = true) by (vm_compute; reflexivity).
  assert (Hs : F32.finite s = true) by (vm_compute; reflexivity).
  assert (Hk : F32.finite k = true) by (vm_compute; reflexivity).
  assert (Hx : F32.finite (x pos) = true) by (vm_compute; reflexivity).
  assert (Hz : F32.finite (z pos) = true) by (vm_compute; reflexivity).
  split; [repeat split; assumption|].
  exact (proj1 (proj2 (proj2 (proj2 (proj2 (proj2 (proj2
           (advance_world_transform series_trig dt p)))))))
           Hc Hs Hk Hx Hz).
Defined.

(** ** Rounding *)

Module Rounding.
Local Open Scope Z_scope.

(** *** Powers of two *)

Lemma bpow_pos (e : Z) : (0 < F32.bpow e)%R.
Proof. apply powerRZ_lt. lra. Qed.

Lemma bpow_add (a b : Z) : F32.bpow (a + b) = (F32.bpow a * F32.bpow b)%R.
Proof. apply powerRZ_add. lra. Qed.

Lemma bpow_IZR (e : Z) : 0 <= e -> F32.bpow e = IZR (2 ^ e).
Proof.
  intro H. unfold F32.bpow.
  rewrite <- (Z2Nat.id e H) at 1. rewrite <- pow_powerRZ, pow_IZR.
  now rewrite Z2Nat.id.
Qed.

Lemma bpow_le (a b : Z) : a <= b -> (F32.bpow a <= F32.bpow b)%R.
Proof.
  intro H. replace b with (a + (b - a)) by lia. rewrite bpow_add.
  rewrite (bpow_IZR (b - a)) by lia.
  assert (H1 : (1 <= IZR (2 ^ (b - a)))%R).
  { apply IZR_le. assert (0 < 2 ^ (b - a)) by (apply Z.pow_pos_nonneg; lia). lia. }
  assert (H2 := bpow_pos a). nra.
Qed.

Lemma bpow_lt (a b : Z) : a < b -> (F32.bpow a < F32.bpow b)%R.
Proof.
  intro H. replace b with (a + (b - a)) by lia. rewrite bpow_add.
  rewrite (bpow_IZR (b - a)) by lia.
  assert (H1 : (2 <= IZR (2 ^ (b - a)))%R).
  { apply IZR_le. replace (b - a) with (1 + (b - a - 1)) by lia.
    rewrite Z.pow_add_r by lia.
    assert (0 < 2 ^ (b - a - 1)) by (apply Z.pow_pos_nonneg; lia). lia. }
  assert (H2 := bpow_pos a). nra.
Qed.

(** *** The number of binary digits *)

Lemma digits2_pos_bounds (m : positive) :
  2 ^ (Z.pos (digits2_pos m) - 1) <= Z.pos m < 2 ^ Z.pos (digits2_pos m).
Proof.
  induction m as [m IH|m IH|]; cbn [digits2_pos].
  - rewrite Pos2Z.inj_succ.
    replace (Z.succ (Z.pos (digits2_pos m)) - 1)
      with (1 + (Z.pos (digits2_pos m) - 1)) by lia.
    rewrite Z.pow_succ_r, Z.pow_add_r by lia. lia.
  - rewrite Pos2Z.inj_succ.
    replace (Z.succ (Z.pos (digits2_pos m)) - 1)
      with (1 + (Z.pos (digits2_pos m) - 1)) by lia.
    rewrite Z.pow_succ_r, Z.pow_add_r by lia. lia.
  - cbn. lia.
Qed.

Lemma Zdigits2_nonneg (m : Z) : 0 <= Zdigits2 m.
Proof. destruct m; cbn; lia. Qed.

Lemma Zdigits2_bounds (m : Z) :
  0 < m -> 2 ^ (Zdigits2 m - 1) <= m < 2 ^ Zdigits2 m.
Proof. destruct m as [|p|p]; try lia. intros _. apply digits2_pos_bounds. Qed.

(** A number of at least [k] digits, and one of at most [k]. *)
Lemma Zdigits2_ge (m k : Z) : 0 < m -> 2 ^ (k - 1) <= m -> k <= Zdigits2 m.
Proof.
  intros Hm H. destruct (Zdigits2_bounds m Hm) as [_ Hu].
  destruct (Z_le_gt_dec k (Zdigits2 m)) as [|Hgt]; [assumption|].
  assert (2 ^ Zdigits2 m <= 2 ^ (k - 1)) by (apply Z.pow_le_mono_r; lia). lia.
Qed.

Lemma Zdigits2_le (m k : Z) : 0 <= m -> 0 <= k -> m < 2 ^ k -> Zdigits2 m <= k.
Proof.
  intros Hm Hk H. destruct (Z.eq_dec m 0) as [->|Hne]; [exact Hk|].
  destruct (Zdigits2_bounds m ltac:(lia)) as [Hl _].
  destruct (Z_le_gt_dec (Zdigits2 m) k) as [|Hgt]; [assumption|].
  assert (2 ^ k <= 2 ^ (Zdigits2 m - 1)) by (apply Z.pow_le_mono_r; lia). lia.
Qed.

(** *** Shifting right *)

Lemma shr_1_div (mrs : shr_record) :
  0 <= shr_m mrs -> shr_m (shr_1 mrs) = shr_m mrs / 2.
Proof.
  destruct mrs as [m r s]. cbn [shr_m shr_1].
  destruct m as [|[p|p|]|p]; cbn [shr_m]; intro H; try lia.
  - reflexivity.
  - rewrite Pos2Z.inj_xI. apply Z.div_unique with 1; lia.
  - rewrite Pos2Z.inj_xO. apply Z.div_unique with 0; lia.
  - reflexivity.
Qed.

Lemma iter_shr_1_div (p : positive) :
  forall mrs : shr_record,
    0 <= shr_m mrs ->
    shr_m (iter_pos shr_1 p mrs) = shr_m mrs / 2 ^ Z.pos p.
Proof.
  assert (Hnn : forall q mrs, 0 <= shr_m mrs -> 0 <= shr_m (iter_pos shr_1 q mrs)).
  { intros q mrs H.
    now apply F32Facts.iter_pos_invariant; [apply F32Facts.shr_1_nonneg|]. }
  induction p as [p IH|p IH|]; intros mrs H; cbn [iter_pos].
  - rewrite IH, IH, shr_1_div by (auto using F32Facts.shr_1_nonneg).
    rewrite !Z.div_div by (try apply Z.pow_pos_nonneg; lia).
    f_equal. rewrite Pos2Z.inj_xI.
    replace (2 * Z.pos p + 1) with (1 + Z.pos p + Z.pos p) by lia.
    rewrite !Z.pow_add_r by lia. change (2 ^ 1) with 2. ring.
  - rewrite IH, IH by auto.
    rewrite !Z.div_div by (try apply Z.pow_pos_nonneg; lia).
    f_equal. replace (Z.pos p~0) with (Z.pos p + Z.pos p) by lia.
    now rewrite Z.pow_add_r by lia.
  - now rewrite shr_1_div.
Qed.

Lemma shr_record_of_loc_m (m : Z) (l : location) :
  shr_m (shr_record_of_loc m l) = m.
Proof. now destruct l as [|[]]. Qed.

(** The first step of rounding: the mantissa loses the digits below the
    exponent of the format. *)
Lemma shr_fexp_spec (m e : Z) (l : location) :
  0 <= m ->
  e <= fexp F32.prec F32.emax (Zdigits2 m + e) ->
  shr_m (fst (shr_fexp F32.prec F32.emax m e l))
  = m / 2 ^ (fexp F32.prec F32.emax (Zdigits2 m + e) - e) /\
  snd (shr_fexp F32.prec F32.emax m e l) = fexp F32.prec F32.emax (Zdigits2 m + e).
Proof.
  intros Hm He. unfold shr_fexp, shr.
  destruct (fexp F32.prec F32.emax (Zdigits2 m + e) - e) as [|p|p] eqn:E;
    cbn [fst snd]; try lia.
  - rewrite shr_record_of_loc_m, Z.pow_0_r, Z.div_1_r. split; lia.
  - rewrite iter_shr_1_div by (rewrite shr_record_of_loc_m; exact Hm).
    rewrite shr_record_of_loc_m. split; [reflexivity|lia].
Qed.

Lemma round_nearest_even_cases (m : Z) (l : location) :
  round_nearest_even m l = m \/ round_nearest_even m l = m + 1.
Proof.
  unfold round_nearest_even. destruct l as [|[]]; auto.
  destruct (Z.even m); auto.
Qed.

(** *** The result of rounding *)

Lemma fexp_eq (k : Z) : fexp F32.prec F32.emax k = Z.max (k - 24) (-149).
Proof. reflexivity. Qed.

Lemma bpow_23 : F32.bpow 23 = 8388608%R.
Proof. rewrite bpow_IZR by lia. reflexivity. Qed.

Lemma bpow_24 : F32.bpow 24 = 16777216%R.
Proof. rewrite bpow_IZR by lia. reflexivity. Qed.

Lemma bpow_1 : F32.bpow 1 = 2%R.
Proof. rewrite bpow_IZR by lia. reflexivity. Qed.

(** What [binary_round_aux] returns for a mantissa [m >= 0] whose
    exponent is at most the one the format gives to its magnitude: with
    [e1] this exponent and [m1] the mantissa cut at [e1], the value is
    [m1] or [m1 + 1] units of [2^e1], an infinity when this does not fit,
    and a number of the format otherwise. *)
Lemma binary_round_aux_cases (s : bool) (m e : Z) (l : location) :
  0 <= m -> e <= fexp F32.prec F32.emax (Zdigits2 m + e) ->
  let e1 := fexp F32.prec F32.emax (Zdigits2 m + e) in
  let m1 := m / 2 ^ (e1 - e) in
  exists mr : Z,
    (mr = m1 \/ mr = m1 + 1) /\
    match binary_round_aux F32.prec F32.emax s m e l with
    | S754_zero s' => s' = s /\ mr = 0
    | S754_finite s' m'' e'' =>
        s' = s /\ bounded F32.prec F32.emax m'' e'' = true /\
        (IZR (Z.pos m'') * F32.bpow e'' = IZR mr * F32.bpow e1)%R
    | S754_infinity s' =>
        s' = s /\ -149 < e1 /\ (F32.bpow 128 <= IZR mr * F32.bpow e1)%R
    | S754_nan => False
    end.
Proof.
  intros Hm He e1 m1.
  destruct (shr_fexp_spec m e l Hm He) as [H1 H2].
  fold e1 in H1, H2. fold m1 in H1.
  unfold binary_round_aux.
  destruct (shr_fexp F32.prec F32.emax m e l) as [mrs' e']. cbn [fst snd] in H1, H2.
  subst e'.
  set (mr := round_nearest_even (shr_m mrs') (loc_of_shr_record mrs')).
  assert (Hmr : mr = m1 \/ mr = m1 + 1).
  { unfold mr. rewrite H1. apply round_nearest_even_cases. }
  exists mr. split; [exact Hmr|]. clearbody mr. clear H1 mrs'.
  assert (Hpow : 0 < 2 ^ (e1 - e)) by (apply Z.pow_pos_nonneg; lia).
  assert (Hd := Zdigits2_nonneg m).
  assert (He1 : e1 = Z.max (Zdigits2 m + e - 24) (-149)) by reflexivity.
  assert (Hm1 : 0 <= m1) by (apply Z.div_pos; lia).
  assert (Hhi : m1 < 16777216).
  { apply Z.div_lt_upper_bound; [exact Hpow|].
    destruct (Z.eq_dec m 0) as [->|Hne]; [lia|].
    destruct (Zdigits2_bounds m ltac:(lia)) as [_ Hu].
    assert (2 ^ Zdigits2 m <= 2 ^ (e1 - e + 24)) by (apply Z.pow_le_mono_r; lia).
    rewrite Z.pow_add_r in H by lia. change (2 ^ 24) with 16777216 in H. lia. }
  assert (Hlo : -149 < e1 -> 8388608 <= m1).
  { intro Hn. assert (He1' : e1 = Zdigits2 m + e - 24) by lia.
    assert (Hpos : 0 < m).
    { destruct (Z.eq_dec m 0) as [->|Hne]; [cbn in He1'; lia|lia]. }
    destruct (Zdigits2_bounds m Hpos) as [Hl _].
    apply Z.div_le_lower_bound; [exact Hpow|].
    replace (Zdigits2 m - 1) with (e1 - e + 23) in Hl by lia.
    rewrite Z.pow_add_r in Hl by lia. change (2 ^ 23) with 8388608 in Hl. lia. }
  destruct (Z_lt_le_dec mr 16777216) as [Hc|Hc].
  - (* no carry *)
    assert (Hdm : Zdigits2 mr <= 24) by (apply Zdigits2_le; lia).
    assert (Hdl : -149 < e1 -> 24 <= Zdigits2 mr).
    { intro Hn. specialize (Hlo Hn).
      apply Zdigits2_ge; [lia|]. change (2 ^ (24 - 1)) with 8388608. lia. }
    unfold shr_fexp, shr. rewrite fexp_eq.
    destruct (Z.max (Zdigits2 mr + e1 - 24) (-149) - e1) as [|q|q] eqn:E;
      try lia; cbn [shr_m shr_record_of_loc].
    destruct mr as [|p|p]; [split; reflexivity| |lia].
      destruct (Z.leb_spec e1 (F32.emax - F32.prec)) as [Hb|Hb].
      * split; [reflexivity|]. split; [|reflexivity].
        unfold bounded, canonical_mantissa. rewrite fexp_eq.
        apply andb_true_intro. split; [|now apply Z.leb_le].
        apply Z.eqb_eq. cbn [Zdigits2] in Hdm, Hdl, E. lia.
      * unfold F32.emax, F32.prec in Hb. split; [reflexivity|]. split; [lia|].
        assert (H8 : 8388608 <= Z.pos p) by lia.
        apply IZR_le in H8. rewrite <- bpow_23 in H8.
        assert (H105 := bpow_le 105 e1 ltac:(lia)).
        replace 128 with (23 + 105) by lia. rewrite bpow_add.
        assert (P1 := bpow_pos 23). assert (P2 := bpow_pos 105). nra.
  - (* the mantissa was rounded up to 2^24 *)
    assert (Hmr' : mr = 16777216) by lia. subst mr.
    unfold shr_fexp, shr. rewrite fexp_eq. cbn [Zdigits2 digits2_pos Pos.succ].
    replace (Z.max (25 + e1 - 24) (-149) - e1) with 1 by lia.
    cbn [iter_pos shr_1 shr_record_of_loc shr_m orb].
    destruct (Z.leb_spec (e1 + 1) (F32.emax - F32.prec)) as [Hb|Hb].
    + split; [reflexivity|]. split.
      * unfold bounded, canonical_mantissa. rewrite fexp_eq.
        apply andb_true_intro. split; [|now apply Z.leb_le].
        apply Z.eqb_eq. cbn [digits2_pos Pos.succ]. lia.
      * rewrite bpow_add, bpow_1. lra.
    + unfold F32.emax, F32.prec in Hb. split; [reflexivity|]. split; [lia|].
      assert (H104 := bpow_le 104 e1 ltac:(lia)).
      replace 128 with (24 + 104) by lia. rewrite bpow_add, bpow_24.
      assert (P2 := bpow_pos 104). lra.
Qed.

Lemma bpow_0 : F32.bpow 0 = 1%R.
Proof. reflexivity. Qed.

Lemma bpow_m23 : (F32.bpow (-23) * F32.bpow 23 = 1)%R.
Proof. rewrite <- bpow_add. reflexivity. Qed.

Lemma Rabs_le_inv (a b : R) : (Rabs a <= b)%R -> (- b <= a <= b)%R.
Proof. unfold Rabs. destruct (Rcase_abs a); lra. Qed.

(** The error of rounding.  [x] is the real number that the mantissa
    [m], the exponent [e] and the location stand for: it lies between
    [m] and [m + 1] units of [2^e].  The result is within one unit in the
    last place of [x], that is, within [2^-23 * x] or, for a subnormal
    result, within [2^-149]; it is an infinity only when [x], enlarged by
    as much, reaches [2^128]. *)
Lemma binary_round_aux_error (s : bool) (m e : Z) (l : location) (x : R) :
  0 <= m -> e <= fexp F32.prec F32.emax (Zdigits2 m + e) ->
  (IZR m * F32.bpow e <= x < (IZR m + 1) * F32.bpow e)%R ->
  let r := binary_round_aux F32.prec F32.emax s m e l in
  (F32.finite r = true /\
   exists v : R,
     F32.to_R r = (F32.sign_factor s * v)%R /\ (0 <= v)%R /\
     (Rabs (v - x) <= F32.bpow (-23) * x + F32.bpow (-149))%R) \/
  (r = S754_infinity s /\ (F32.bpow 128 <= x * (1 + F32.bpow (-23)))%R).
Proof.
  intros Hm He Hx r.
  destruct (binary_round_aux_cases s m e l Hm He) as [mr [Hmr Hr]].
  fold r in Hr.
  set (e1 := fexp F32.prec F32.emax (Zdigits2 m + e)) in *.
  set (m1 := m / 2 ^ (e1 - e)) in *.
  assert (Hpow : 0 < 2 ^ (e1 - e)) by (apply Z.pow_pos_nonneg; lia).
  assert (He1 : e1 = Z.max (Zdigits2 m + e - 24) (-149)) by reflexivity.
  assert (Hb : F32.bpow e1 = (IZR (2 ^ (e1 - e)) * F32.bpow e)%R).
  { rewrite <- bpow_IZR by lia. rewrite <- bpow_add. f_equal. lia. }
  assert (Pe := bpow_pos e). assert (Pe1 := bpow_pos e1).
  assert (Hx0 : (0 <= x)%R).
  { apply IZR_le in Hm. destruct Hx as [Hx _]. nra. }
  (* the window of [x], in units of [2^e1] *)
  assert (Hw : (IZR m1 * F32.bpow e1 <= x < (IZR m1 + 1) * F32.bpow e1)%R).
  { assert (Hlo : 2 ^ (e1 - e) * m1 <= m) by (apply Z.mul_div_le; lia).
    assert (Hhi : m < 2 ^ (e1 - e) * Z.succ m1)
      by (apply Z.mul_succ_div_gt; lia).
    assert (Hhi' : m + 1 <= 2 ^ (e1 - e) * (m1 + 1)) by lia.
    apply IZR_le in Hlo, Hhi'. rewrite mult_IZR in Hlo.
    rewrite plus_IZR, mult_IZR, plus_IZR in Hhi'.
    rewrite Hb. destruct Hx as [Hx1 Hx2]. split; nra. }
  (* one unit of [2^e1] *)
  assert (Hulp : -149 < e1 -> (F32.bpow e1 <= F32.bpow (-23) * x)%R).
  { intro Hn. assert (He1' : e1 = Zdigits2 m + e - 24) by lia.
    assert (Hpos : 0 < m).
    { destruct (Z.eq_dec m 0) as [->|Hne]; [cbn in He1'; lia|lia]. }
    destruct (Zdigits2_bounds m Hpos) as [Hl _].
    assert (Hd1 : 0 <= Zdigits2 m - 1).
    { assert (H1 : 1 <= Zdigits2 m) by (apply Zdigits2_ge; cbn; lia). lia. }
    apply IZR_le in Hl. rewrite <- bpow_IZR in Hl by exact Hd1.
    assert (Hm' : (F32.bpow (Zdigits2 m - 1) * F32.bpow e <= x)%R)
      by (destruct Hx as [Hx1 _]; nra).
    rewrite <- bpow_add in Hm'.
    replace (Zdigits2 m - 1 + e) with (e1 + 23) in Hm' by lia.
    rewrite bpow_add in Hm'.
    assert (H23 := bpow_m23). assert (P23 := bpow_pos 23).
    assert (Pm := bpow_pos (-23)). nra. }
  assert (Hulp' : (F32.bpow e1 <= F32.bpow (-23) * x + F32.bpow (-149))%R).
  { destruct (Z_lt_le_dec (-149) e1) as [Hn|Hn].
    - specialize (Hulp Hn). assert (P := bpow_pos (-149)). lra.
    - assert (e1 = -149) by lia.
      assert (Pm := bpow_pos (-23)). replace e1 with (-149) by lia. nra. }
  assert (Hv : (Rabs (IZR mr * F32.bpow e1 - x) <= F32.bpow e1)%R).
  { apply Rabs_le. destruct Hw as [Hw1 Hw2].
    destruct Hmr as [->| ->]; [|rewrite plus_IZR]; split; nra. }
  assert (Hv0 : (0 <= IZR mr * F32.bpow e1)%R).
  { assert (0 <= m1) by (apply Z.div_pos; lia).
    assert (H0 : 0 <= mr) by lia. apply IZR_le in H0. nra. }
  destruct r as [s'|s'| |s' m'' e''].
  - left. split; [reflexivity|]. destruct Hr as [-> Hz].
    exists (IZR mr * F32.bpow e1)%R. split; [|split; [exact Hv0|lra]].
    rewrite Hz. cbn. lra.
  - right. destruct Hr as [-> [Hn Hbig]]. split; [reflexivity|].
    specialize (Hulp Hn). apply Rabs_le_inv in Hv. lra.
  - contradiction.
  - left. destruct Hr as [-> [Hbd Hval]]. split; [exact Hbd|].
    exists (IZR mr * F32.bpow e1)%R. split; [|split; [exact Hv0|lra]].
    rewrite <- Hval. unfold F32.to_R, F32.sign_factor. destruct s; lra.
Qed.

(** *** Numbers of the format *)

Lemma bounded_inv (m : positive) (e : Z) :
  bounded F32.prec F32.emax m e = true ->
  Z.pos (digits2_pos m) <= 24 /\
  (Z.pos (digits2_pos m) = 24 \/ e = -149) /\ -149 <= e <= 104.
Proof.
  unfold bounded, canonical_mantissa. rewrite fexp_eq. intro H.
  apply andb_prop in H as [H1 H2]. apply Z.eqb_eq in H1. apply Z.leb_le in H2.
  unfold F32.emax, F32.prec in H2. lia.
Qed.

Lemma to_R_neg (a : F32.float) : F32.to_R (F32.neg a) = (- F32.to_R a)%R.
Proof. destruct a as [s|s| |s m e]; cbn; try lra. destruct s; cbn; lra. Qed.

Lemma to_R_finite (s : bool) (m : positive) (e : Z) :
  F32.to_R (S754_finite s m e)
  = (F32.sign_factor s * (IZR (Z.pos m) * F32.bpow e))%R.
Proof. unfold F32.to_R, F32.sign_factor. destruct s; lra. Qed.

Lemma sign_factor_xorb (s s' : bool) :
  F32.sign_factor (xorb s s') = (F32.sign_factor s * F32.sign_factor s')%R.
Proof. destruct s, s'; cbn; lra. Qed.

Lemma sign_factor_sq (s : bool) : (F32.sign_factor s * F32.sign_factor s = 1)%R.
Proof. destruct s; cbn; lra. Qed.

Lemma Rabs_sign_factor (s : bool) (v : R) :
  (0 <= v)%R -> Rabs (F32.sign_factor s * v) = v.
Proof.
  intro H. rewrite Rabs_mult. rewrite (Rabs_right v) by lra.
  destruct s; cbn; [rewrite Rabs_left|rewrite Rabs_right]; lra.
Qed.

(** The magnitude of a number of the format is below [2^128]. *)
Lemma to_R_bound (s : bool) (m : positive) (e : Z) :
  bounded F32.prec F32.emax m e = true ->
  (0 < IZR (Z.pos m) * F32.bpow e < F32.bpow 128)%R.
Proof.
  intro H. destruct (bounded_inv m e H) as [Hd [_ He]].
  destruct (digits2_pos_bounds m) as [_ Hu].
  assert (Hm : Z.pos m < 16777216).
  { assert (2 ^ Z.pos (digits2_pos m) <= 2 ^ 24) by (apply Z.pow_le_mono_r; lia).
    change (2 ^ 24) with 16777216 in *. lia. }
  assert (H0 : (0 < IZR (Z.pos m))%R) by (apply IZR_lt; lia).
  apply IZR_lt in Hm. assert (P := bpow_pos e).
  assert (H104 := bpow_le e 104 ltac:(lia)).
  replace 128 with (24 + 104) by lia. rewrite bpow_add, bpow_24.
  assert (P104 := bpow_pos 104). split; nra.
Qed.

(** *** Multiplication *)

Lemma digits_mul (ma mb : positive) :
  Z.pos (digits2_pos ma) + Z.pos (digits2_pos mb) - 1
  <= Z.pos (digits2_pos (ma * mb)).
Proof.
  destruct (digits2_pos_bounds ma) as [Ha _].
  destruct (digits2_pos_bounds mb) as [Hb _].
  change (Z.pos (digits2_pos (ma * mb))) with (Zdigits2 (Z.pos (ma * mb))).
  apply Zdigits2_ge; [lia|].
  replace (Z.pos (digits2_pos ma) + Z.pos (digits2_pos mb) - 1 - 1)
    with ((Z.pos (digits2_pos ma) - 1) + (Z.pos (digits2_pos mb) - 1)) by lia.
  rewrite Z.pow_add_r by lia. rewrite Pos2Z.inj_mul.
  apply Z.mul_le_mono_nonneg; try lia; apply Z.pow_nonneg; lia.
Qed.

(** The product of two numbers of the format is the rounded product:
    it is within [2^-23] of the exact product, relatively, or within
    [2^-149], or it is an infinity and the exact product was beyond the
    range. *)
Lemma mul_error (a b : F32.float) :
  F32.finite a = true -> F32.finite b = true ->
  let t := (F32.to_R a * F32.to_R b)%R in
  let r := F32.mul a b in
  (F32.finite r = true /\
   (Rabs (F32.to_R r - t) <= F32.bpow (-23) * Rabs t + F32.bpow (-149))%R) \/
  ((exists s, r = S754_infinity s) /\
   (F32.bpow 128 <= Rabs t * (1 + F32.bpow (-23)))%R).
Proof.
  intros Ha Hb t r.
  assert (Pd := bpow_pos (-23)). assert (Pe := bpow_pos (-149)).
  destruct (F32Facts.finite_cases a Ha) as [[sa ->]|[sa [ma [ea ->]]]];
    destruct (F32Facts.finite_cases b Hb) as [[sb ->]|[sb [mb [eb ->]]]].
  1-3: left; split; [reflexivity|]; unfold t, r; cbn [F32.mul SFmul F32.to_R];
    rewrite ?Rmult_0_l, ?Rmult_0_r, Rminus_0_r, Rabs_R0; lra.
  cbn [F32.finite] in Ha, Hb.
  destruct (bounded_inv ma ea Ha) as [Ha1 [Ha2 Ha3]].
  destruct (bounded_inv mb eb Hb) as [Hb1 [Hb2 Hb3]].
  set (x := (IZR (Z.pos (ma * mb)) * F32.bpow (ea + eb))%R).
  assert (Ht : t = (F32.sign_factor (xorb sa sb) * x)%R).
  { unfold t, x. rewrite !to_R_finite, sign_factor_xorb, Pos2Z.inj_mul, mult_IZR,
      bpow_add. ring. }
  assert (Hx0 : (0 <= x)%R).
  { unfold x. assert (P := bpow_pos (ea + eb)).
    assert (0 < IZR (Z.pos (ma * mb)))%R by (apply IZR_lt; lia). nra. }
  assert (HH : ea + eb <= fexp F32.prec F32.emax (Zdigits2 (Z.pos (ma * mb)) + (ea + eb))).
  { rewrite fexp_eq. cbn [Zdigits2]. assert (Hd := digits_mul ma mb). lia. }
  assert (Hw : (IZR (Z.pos (ma * mb)) * F32.bpow (ea + eb) <= x
                < (IZR (Z.pos (ma * mb)) + 1) * F32.bpow (ea + eb))%R).
  { unfold x. assert (P := bpow_pos (ea + eb)). split; nra. }
  destruct (binary_round_aux_error (xorb sa sb) (Z.pos (ma * mb)) (ea + eb)
              loc_Exact x ltac:(lia) HH Hw) as [[Hf [v [Hv [Hv0 Hvx]]]]|[Hinf Hbig]].
  - left. split; [exact Hf|]. unfold r. cbn [F32.mul SFmul].
    rewrite Hv, Ht, <- Rmult_minus_distr_l, !Rabs_mult.
    assert (Hs : Rabs (F32.sign_factor (xorb sa sb)) = 1%R)
      by (destruct (xorb sa sb); cbn; [rewrite Rabs_left|rewrite Rabs_right]; lra).
    rewrite Hs, !Rmult_1_l, (Rabs_right x) by lra. exact Hvx.
  - right. split; [eexists; exact Hinf|].
    rewrite Ht, Rabs_sign_factor by exact Hx0. exact Hbig.
Qed.

(** *** Addition *)

Lemma iter_xO (m d : positive) : Z.pos (Pos.iter xO m d) = Z.pos m * 2 ^ Z.pos d.
Proof.
  induction d as [|d IH] using Pos.peano_ind.
  - cbn. lia.
  - rewrite Pos.iter_succ, Pos2Z.inj_xO, IH, Pos2Z.inj_succ, Z.pow_succ_r by lia.
    ring.
Qed.

Lemma digits_shift (m d : positive) :
  Z.pos (digits2_pos (Pos.iter xO m d)) = Z.pos (digits2_pos m) + Z.pos d.
Proof.
  destruct (digits2_pos_bounds m) as [Hl Hu].
  assert (Hp : 0 < 2 ^ Z.pos d) by (apply Z.pow_pos_nonneg; lia).
  change (Z.pos (digits2_pos (Pos.iter xO m d)))
    with (Zdigits2 (Z.pos (Pos.iter xO m d))).
  rewrite iter_xO. apply Z.le_antisymm.
  - apply Zdigits2_le; try lia. rewrite Z.pow_add_r by lia. nia.
  - apply Zdigits2_ge; [lia|].
    replace (Z.pos (digits2_pos m) + Z.pos d - 1)
      with ((Z.pos (digits2_pos m) - 1) + Z.pos d) by lia.
    rewrite Z.pow_add_r by lia. nia.
Qed.

(** Aligning a mantissa on a lower exponent keeps the value. *)
Lemma shl_align_spec (m : positive) (e e' : Z) :
  let r := shl_align m e e' in
  snd r = Z.min e e' /\
  (IZR (Z.pos (fst r)) * F32.bpow (snd r) = IZR (Z.pos m) * F32.bpow e)%R /\
  Z.pos (digits2_pos (fst r)) + snd r = Z.pos (digits2_pos m) + e.
Proof.
  unfold shl_align. destruct (e' - e) as [|d|d] eqn:E; cbn [fst snd].
  - split; [lia|]. split; reflexivity.
  - split; [lia|]. split; reflexivity.
  - split; [lia|]. split.
    + rewrite iter_xO, mult_IZR, <- bpow_IZR by lia.
      rewrite Rmult_assoc, <- bpow_add. do 2 f_equal. lia.
    + rewrite digits_shift. lia.
Qed.

(** The rounding of [m * 2^e], for a positive [m]. *)
Lemma binary_round_error (m : positive) (e : Z) :
  let x := (IZR (Z.pos m) * F32.bpow e)%R in
  let r := binary_round F32.prec F32.emax false m e in
  (F32.finite r = true /\ (0 <= F32.to_R r)%R /\
   (Rabs (F32.to_R r - x) <= F32.bpow (-23) * x + F32.bpow (-149))%R) \/
  (r = S754_infinity false /\ (F32.bpow 128 <= x * (1 + F32.bpow (-23)))%R).
Proof.
  intros x r. unfold r, binary_round.
  destruct (shl_align_spec m e (fexp F32.prec F32.emax (Z.pos (digits2_pos m) + e)))
    as [H1 [H2 H3]].
  destruct (shl_align m e _) as [mz ez]. cbn [fst snd] in H1, H2, H3.
  assert (HH : ez <= fexp F32.prec F32.emax (Zdigits2 (Z.pos mz) + ez)).
  { cbn [Zdigits2]. rewrite H3. lia. }
  assert (Hw : (IZR (Z.pos mz) * F32.bpow ez <= x
                < (IZR (Z.pos mz) + 1) * F32.bpow ez)%R).
  { unfold x. rewrite <- H2. assert (P := bpow_pos ez). split; nra. }
  destruct (binary_round_aux_error false (Z.pos mz) ez loc_Exact x
              ltac:(lia) HH Hw) as [[Hf [v [Hv [Hv0 Hvx]]]]|[Hinf Hbig]].
  - left. split; [exact Hf|]. rewrite Hv. cbn [F32.sign_factor].
    rewrite Rmult_1_l. split; [exact Hv0|exact Hvx].
  - right. now split.
Qed.

(** The value of a number whose sign bit is clear. *)
Lemma to_R_positive (a : F32.float) :
  positive_sign a = true -> (0 <= F32.to_R a)%R.
Proof.
  destruct a as [s|s| |s m e]; cbn; try lra. destruct s; [discriminate|].
  intros _. assert (P := bpow_pos e).
  assert (0 < IZR (Z.pos m))%R by (apply IZR_lt; lia). nra.
Qed.

(** The sum of two numbers of the format whose sign bits are clear. *)
Lemma add_error (a b : F32.float) :
  F32.finite a = true -> F32.finite b = true ->
  positive_sign a = true -> positive_sign b = true ->
  let t := (F32.to_R a + F32.to_R b)%R in
  let r := F32.add a b in
  (F32.finite r = true /\ (0 <= F32.to_R r)%R /\
   (Rabs (F32.to_R r - t) <= F32.bpow (-23) * t + F32.bpow (-149))%R) \/
  (r = S754_infinity false /\ (F32.bpow 128 <= t * (1 + F32.bpow (-23)))%R).
Proof.
  intros Ha Hb Pa Pb t r.
  assert (Pd := bpow_pos (-23)). assert (Pe := bpow_pos (-149)).
  assert (Ta := to_R_positive a Pa). assert (Tb := to_R_positive b Pb).
  assert (Hexact : forall c : F32.float,
             F32.finite c = true -> F32.to_R c = t -> (0 <= t)%R ->
             F32.finite c = true /\ (0 <= F32.to_R c)%R /\
             (Rabs (F32.to_R c - t)
              <= F32.bpow (-23) * t + F32.bpow (-149))%R).
  { intros c Hc Hct Ht. split; [exact Hc|]. rewrite Hct. split; [exact Ht|].
    rewrite Rminus_diag, Rabs_R0. nra. }
  destruct (F32Facts.finite_cases a Ha) as [[sa ->]|[sa [ma [ea ->]]]];
    destruct (F32Facts.finite_cases b Hb) as [[sb ->]|[sb [mb [eb ->]]]];
    destruct sa; try discriminate; destruct sb; try discriminate.
  - left. apply Hexact; [reflexivity|unfold t; cbn; lra|unfold t; cbn; lra].
  - left. apply Hexact; [exact Hb|unfold t; cbn; lra|unfold t; lra].
  - left. apply Hexact; [exact Ha|unfold t; cbn; lra|unfold t; lra].
  - unfold r, F32.add, SFadd. cbn [cond_Zopp].
    destruct (shl_align_spec ma ea (Z.min ea eb)) as [A1 [A2 _]].
    destruct (shl_align_spec mb eb (Z.min ea eb)) as [B1 [B2 _]].
    destruct (shl_align ma ea (Z.min ea eb)) as [ma' ea'].
    destruct (shl_align mb eb (Z.min ea eb)) as [mb' eb'].
    cbn [fst snd] in *. cbn [Z.add binary_normalize].
    assert (Hsum : (IZR (Z.pos (ma' + mb')) * F32.bpow (Z.min ea eb) = t)%R).
    { unfold t. rewrite !to_R_finite. cbn [F32.sign_factor].
      rewrite !Rmult_1_l, <- A2, <- B2, Pos2Z.inj_add, plus_IZR.
      replace ea' with (Z.min ea eb) by lia.
      replace eb' with (Z.min ea eb) by lia. ring. }
    rewrite <- Hsum. apply binary_round_error.
Qed.

(** *** Division *)

Lemma fexp_mono (a b : Z) :
  a <= b -> fexp F32.prec F32.emax a <= fexp F32.prec F32.emax b.
Proof. rewrite !fexp_eq. lia. Qed.

(** The integer quotient that [SFdiv_core_binary] hands to the rounding:
    its exponent is at most the one of the format, and the exact quotient
    lies between [q] and [q + 1] units. *)
Lemma div_core_spec (ma mb : positive) (ea eb : Z) :
  let '(q, e', l) :=
    SFdiv_core_binary F32.prec F32.emax (Z.pos ma) ea (Z.pos mb) eb in
  let x := (IZR (Z.pos ma) * F32.bpow ea / (IZR (Z.pos mb) * F32.bpow eb))%R in
  0 <= q /\ e' <= fexp F32.prec F32.emax (Zdigits2 q + e') /\
  (IZR q * F32.bpow e' <= x < (IZR q + 1) * F32.bpow e')%R.
Proof.
  unfold SFdiv_core_binary. cbn [Zdigits2].
  set (d1 := Z.pos (digits2_pos ma)). set (d2 := Z.pos (digits2_pos mb)).
  set (e' := Z.min (fexp F32.prec F32.emax (d1 + ea - (d2 + eb))) (ea - eb)).
  set (s := ea - eb - e').
  assert (Hs : 0 <= s) by (unfold s, e'; lia).
  set (m' := match s with
             | 0 => Z.pos ma
             | Z.pos _ => Z.shiftl (Z.pos ma) s
             | Z.neg _ => 0
             end).
  assert (Hm' : m' = Z.pos ma * 2 ^ s).
  { unfold m'. destruct s as [|p|p] eqn:E; [lia| |lia].
    now rewrite Z.shiftl_mul_pow2 by lia. }
  assert (Hp : 0 < 2 ^ s) by (apply Z.pow_pos_nonneg; lia).
  assert (Hq : Z.div_eucl m' (Z.pos mb) = (m' / Z.pos mb, m' mod Z.pos mb)).
  { unfold Z.div, Z.modulo. now destruct (Z.div_eucl m' (Z.pos mb)). }
  rewrite Hq. set (q := m' / Z.pos mb). cbn zeta.
  assert (Hq0 : 0 <= q) by (apply Z.div_pos; lia).
  assert (Hlo : Z.pos mb * q <= m') by (apply Z.mul_div_le; lia).
  assert (Hhi : m' < Z.pos mb * Z.succ q) by (apply Z.mul_succ_div_gt; lia).
  destruct (digits2_pos_bounds ma) as [Ha1 Ha2]. fold d1 in Ha1, Ha2.
  destruct (digits2_pos_bounds mb) as [Hb1 Hb2]. fold d2 in Hb1, Hb2.
  split; [exact Hq0|]. split.
  - (* the quotient has the digits the format asks for *)
    assert (Hd : d1 + s - d2 <= Zdigits2 q).
    { destruct (Z_le_gt_dec (d1 + s - d2) 0) as [Hk|Hk].
      - assert (H0 := Zdigits2_nonneg q). lia.
      - assert (Hqk : 2 ^ (d1 + s - d2 - 1) <= q).
        { apply Z.div_le_lower_bound; [lia|].
          assert (Hpk : 0 < 2 ^ (d1 + s - d2 - 1)) by (apply Z.pow_pos_nonneg; lia).
          assert (H1 : 2 ^ (d1 + s - d2 - 1) * 2 ^ d2 = 2 ^ (d1 - 1) * 2 ^ s).
          { rewrite <- !Z.pow_add_r by lia. f_equal. lia. }
          nia. }
        apply Zdigits2_ge; [|exact Hqk].
        assert (0 < 2 ^ (d1 + s - d2 - 1)) by (apply Z.pow_pos_nonneg; lia). lia. }
    assert (He' : e' <= fexp F32.prec F32.emax (d1 + ea - (d2 + eb)))
      by (unfold e'; lia).
    eapply Z.le_trans; [exact He'|]. apply fexp_mono. unfold s in Hd. lia.
  - (* the window of the exact quotient *)
    assert (Pb := bpow_pos eb). assert (Pe' := bpow_pos e').
    assert (Hmb : (0 < IZR (Z.pos mb))%R) by (apply IZR_lt; lia).
    set (x := (IZR (Z.pos ma) * F32.bpow ea / (IZR (Z.pos mb) * F32.bpow eb))%R).
    assert (Hx : (x * IZR (Z.pos mb) = IZR m' * F32.bpow e')%R).
    { unfold x. rewrite Hm', mult_IZR, <- bpow_IZR by lia.
      replace ea with (s + e' + eb) by (unfold s; lia).
      rewrite !bpow_add. field. split; lra. }
    apply IZR_le in Hlo. apply IZR_lt in Hhi.
    rewrite mult_IZR in Hlo. rewrite mult_IZR, succ_IZR in Hhi.
    split.
    + apply Rmult_le_reg_r with (IZR (Z.pos mb)); [exact Hmb|]. rewrite Hx. nra.
    + apply Rmult_lt_reg_r with (IZR (Z.pos mb)); [exact Hmb|]. rewrite Hx. nra.
Qed.

(** The quotient of two positive numbers of the format. *)
Lemma div_error (ma mb : positive) (ea eb : Z) :
  let a := S754_finite false ma ea in
  let b := S754_finite false mb eb in
  let t := (F32.to_R a / F32.to_R b)%R in
  let r := F32.div a b in
  (F32.finite r = true /\ (0 <= F32.to_R r)%R /\
   (Rabs (F32.to_R r - t) <= F32.bpow (-23) * t + F32.bpow (-149))%R) \/
  (r = S754_infinity false /\ (F32.bpow 128 <= t * (1 + F32.bpow (-23)))%R).
Proof.
  intros a b t r. unfold r, a, b, F32.div, SFdiv. cbn [xorb].
  assert (H := div_core_spec ma mb ea eb).
  destruct (SFdiv_core_binary F32.prec F32.emax (Z.pos ma) ea (Z.pos mb) eb)
    as [[q e'] l].
  cbn zeta in H. destruct H as [Hq [HH Hw]].
  assert (Ht : t = (IZR (Z.pos ma) * F32.bpow ea
                    / (IZR (Z.pos mb) * F32.bpow eb))%R).
  { unfold t, a, b. rewrite !to_R_finite. cbn [F32.sign_factor]. now rewrite !Rmult_1_l. }
  rewrite <- Ht in Hw.
  destruct (binary_round_aux_error false q e' l t Hq HH Hw)
    as [[Hf [v [Hv [Hv0 Hvx]]]]|[Hinf Hbig]].
  - left. split; [exact Hf|]. rewrite Hv. cbn [F32.sign_factor].
    rewrite Rmult_1_l. split; [exact Hv0|exact Hvx].
  - right. now split.
Qed.

(** *** Square root *)

Lemma div2_div (a : Z) : Z.div2 a = a / 2.
Proof. exact (Z.div2_div a). Qed.

Lemma half_bounds (a : Z) : 2 * (a / 2) <= a < 2 * (a / 2) + 2.
Proof.
  assert (H1 : 2 * (a / 2) <= a) by (apply Z.mul_div_le; lia).
  assert (H2 : a < 2 * Z.succ (a / 2)) by (apply Z.mul_succ_div_gt; lia).
  lia.
Qed.

Lemma Rsqr_le_inv (a b : R) : (0 <= a)%R -> (0 <= b)%R -> (a * a <= b * b)%R -> (a <= b)%R.
Proof. intros Ha Hb H. destruct (Rle_lt_dec a b) as [|Hlt]; [assumption|nra]. Qed.

Lemma Rsqr_lt_inv (a b : R) : (0 <= a)%R -> (0 <= b)%R -> (a * a < b * b)%R -> (a < b)%R.
Proof. intros Ha Hb H. destruct (Rlt_le_dec a b) as [|Hle]; [assumption|nra]. Qed.

Lemma sqrt_core_spec (m : positive) (e : Z) :
  let '(q, e', l) := SFsqrt_core_binary F32.prec F32.emax (Z.pos m) e in
  let x := R_sqrt.sqrt (IZR (Z.pos m) * F32.bpow e) in
  0 <= q /\ e' <= fexp F32.prec F32.emax (Zdigits2 q + e') /\
  (IZR q * F32.bpow e' <= x < (IZR q + 1) * F32.bpow e')%R.
Proof.
  unfold SFsqrt_core_binary. cbn [Zdigits2]. rewrite !div2_div.
  set (d := Z.pos (digits2_pos m)).
  set (e' := Z.min (fexp F32.prec F32.emax ((d + e + 1) / 2)) (e / 2)).
  set (s := e - 2 * e').
  assert (B1 := half_bounds e). assert (B2 := half_bounds (d + e + 1)).
  assert (B3 := half_bounds (d + s + 1)).
  assert (Hs : 0 <= s) by (unfold s, e'; lia).
  set (m' := match s with
             | 0 => Z.pos m
             | Z.pos _ => Z.shiftl (Z.pos m) s
             | Z.neg _ => 0
             end).
  assert (Hm' : m' = Z.pos m * 2 ^ s).
  { unfold m'. destruct s as [|p|p] eqn:E; [lia| |lia].
    now rewrite Z.shiftl_mul_pow2 by lia. }
  assert (Hp : 0 < 2 ^ s) by (apply Z.pow_pos_nonneg; lia).
  assert (Hm0 : 0 <= m') by lia.
  assert (Hq := Z.sqrtrem_sqrt m').
  destruct (Z.sqrtrem m') as [q r]. cbn [fst] in Hq. subst q.
  set (q := Z.sqrt m'). cbn zeta.
  assert (Hq0 : 0 <= q) by apply Z.sqrt_nonneg.
  destruct (Z.sqrt_spec m' Hm0) as [Hlo Hhi]. fold q in Hlo, Hhi.
  destruct (digits2_pos_bounds m) as [Hd1 _]. fold d in Hd1.
  split; [exact Hq0|]. split.
  - assert (Hd : (d + s + 1) / 2 <= Zdigits2 q).
    { destruct (Z_le_gt_dec ((d + s + 1) / 2) 0) as [Hk0|Hk0].
      - assert (H0 := Zdigits2_nonneg q). lia.
      - set (k := (d + s + 1) / 2) in *.
        assert (Hpk : 0 < 2 ^ (k - 1)) by (apply Z.pow_pos_nonneg; lia).
        assert (Hqk : 2 ^ (k - 1) <= q).
        { apply Z.sqrt_le_square; try lia.
          rewrite <- Z.pow_add_r by lia.
          assert (H1 : 2 ^ (k - 1 + (k - 1)) <= 2 ^ (d - 1 + s))
            by (apply Z.pow_le_mono_r; lia).
          assert (H2 : 2 ^ (d - 1 + s) = 2 ^ (d - 1) * 2 ^ s)
            by (apply Z.pow_add_r; lia).
          nia. }
        apply Zdigits2_ge; [lia|exact Hqk]. }
    assert (He' : e' <= fexp F32.prec F32.emax ((d + e + 1) / 2))
      by (unfold e'; lia).
    eapply Z.le_trans; [exact He'|]. apply fexp_mono.
    unfold s in *. lia.
  - assert (Pe' := bpow_pos e').
    set (x := R_sqrt.sqrt (IZR (Z.pos m) * F32.bpow e)).
    assert (Hv : (IZR (Z.pos m) * F32.bpow e
                  = IZR m' * (F32.bpow e' * F32.bpow e'))%R).
    { rewrite Hm', mult_IZR, <- bpow_IZR, <- !bpow_add by lia.
      rewrite Rmult_assoc, <- bpow_add. do 2 f_equal. unfold s. lia. }
    assert (Hx0 : (0 <= x)%R) by apply sqrt_pos.
    assert (Hxx : (x * x = IZR m' * (F32.bpow e' * F32.bpow e'))%R).
    { unfold x. rewrite sqrt_sqrt; [exact Hv|].
      assert (P := bpow_pos e). assert (0 < IZR (Z.pos m))%R by (apply IZR_lt; lia).
      nra. }
    apply IZR_le in Hlo, Hq0. apply IZR_lt in Hhi.
    rewrite mult_IZR in Hlo. rewrite mult_IZR, succ_IZR in Hhi.
    split.
    + apply Rsqr_le_inv; [nra|exact Hx0|]. rewrite Hxx. nra.
    + apply Rsqr_lt_inv; [exact Hx0|nra|]. rewrite Hxx.
      assert (0 < F32.bpow e' * F32.bpow e')%R by nra. nra.
Qed.

Lemma bpow_64_sq : (F32.bpow 64 * F32.bpow 64 = F32.bpow 128)%R.
Proof. rewrite <- bpow_add. reflexivity. Qed.

(** The square root of a positive number of the format is a number of
    the format: it never overflows. *)
Lemma sqrt_error (m : positive) (e : Z) :
  bounded F32.prec F32.emax m e = true ->
  let a := S754_finite false m e in
  let t := R_sqrt.sqrt (F32.to_R a) in
  let r := F32.sqrt a in
  F32.finite r = true /\ (0 <= F32.to_R r)%R /\
  (Rabs (F32.to_R r - t) <= F32.bpow (-23) * t + F32.bpow (-149))%R.
Proof.
  intros Hb a t r. unfold r, a, F32.sqrt, SFsqrt.
  assert (H := sqrt_core_spec m e).
  destruct (SFsqrt_core_binary F32.prec F32.emax (Z.pos m) e) as [[q e'] l].
  cbn zeta in H. destruct H as [Hq [HH Hw]].
  assert (Ht : t = R_sqrt.sqrt (IZR (Z.pos m) * F32.bpow e)).
  { unfold t, a. rewrite to_R_finite. cbn [F32.sign_factor]. now rewrite Rmult_1_l. }
  rewrite <- Ht in Hw.
  destruct (binary_round_aux_error false q e' l t Hq HH Hw)
    as [[Hf [v [Hv [Hv0 Hvx]]]]|[Hinf Hbig]].
  - split; [exact Hf|]. rewrite Hv. cbn [F32.sign_factor].
    rewrite Rmult_1_l. split; [exact Hv0|exact Hvx].
  - exfalso.
    destruct (to_R_bound false m e Hb) as [Hlo Hhi].
    assert (Ht0 : (0 <= t)%R) by (rewrite Ht; apply sqrt_pos).
    assert (Htt : (t * t = IZR (Z.pos m) * F32.bpow e)%R)
      by (rewrite Ht; apply sqrt_sqrt; lra).
    assert (H64 := bpow_64_sq). assert (P64 := bpow_pos 64).
    assert (Ht64 : (t < F32.bpow 64)%R) by (apply Rsqr_lt_inv; lra).
    assert (Hd : (F32.bpow (-23) < 1)%R).
    { change 1%R with (F32.bpow 0). apply bpow_lt. lia. }
    assert (H2 : (2 <= F32.bpow 64)%R).
    { rewrite <- bpow_1. apply bpow_le. lia. }
    assert (Pd := bpow_pos (-23)). nra.
Qed.

End Rounding.

(** ** Error analysis of [Normalize] *)

Module ErrorAnalysis.
Import Rounding.
Local Open Scope R_scope.

Lemma bpow_rel : F32.bpow (-23) = F32.eps.
Proof.
  unfold F32.eps. apply Rmult_eq_reg_r with (F32.bpow 23).
  - rewrite bpow_m23, bpow_23. field.
  - assert (H := bpow_pos 23). lra.
Qed.

Lemma bpow_tiny : 0 < F32.bpow (-149) <= / 10 ^ 40.
Proof.
  split; [apply bpow_pos|].
  assert (H : (F32.bpow (-149) * F32.bpow 149 = 1)%R).
  { rewrite <- bpow_add. reflexivity. }
  rewrite (bpow_IZR 149) in H by lia.
  assert (H2 : 10 ^ 40 <= IZR (2 ^ 149)).
  { rewrite (pow_IZR 10 40). apply IZR_le. vm_compute. discriminate. }
  assert (P := bpow_pos (-149)).
  assert (H10 : 0 < 10 ^ 40) by (apply pow_lt; lra).
  apply Rmult_le_reg_r with (10 ^ 40); [exact H10|].
  rewrite Rinv_l by lra. nra.
Qed.

Lemma rounded_inv (h r t : R) :
  rounded h r t -> t - (F32.eps * t + h) <= r <= t + (F32.eps * t + h).
Proof. unfold rounded. intro H. apply Rabs_le_inv in H. lra. Qed.

Section Analysis.
Variable h : R.
Hypothesis Hh : 0 <= h <= / 10 ^ 40.

Lemma h_small : 0 <= h <= / 10000000000000000000000000000000000000000.
Proof.
  replace (10 ^ 40) with 10000000000000000000000000000000000000000 in Hh
    by (simpl; lra).
  exact Hh.
Qed.

(** The rounded sum of three rounded squares. *)
Lemma sum3_bounds (qa qb qc a2 b2 c2 S1 S : R) :
  0 <= qa -> 0 <= qb -> 0 <= qc ->
  rounded h a2 qa -> rounded h b2 qb -> rounded h c2 qc ->
  rounded h S1 (a2 + b2) -> rounded h S (S1 + c2) ->
  (1 - 3001 / 1000 * F32.eps) * (qa + qb + qc) - 6 * h <= S
  <= (1 + 3001 / 1000 * F32.eps) * (qa + qb + qc) + 6 * h.
Proof.
  intros Ha Hb Hc Ra Rb Rc R1 R2.
  apply rounded_inv in Ra, Rb, Rc, R1, R2.
  assert (H0 := h_small). unfold F32.eps in *. split; nra.
Qed.

(** The rounded square root [L] of such a sum [S] of squares, above the
    threshold of [Normalize]: it is the exact length [rho], relatively. *)
Lemma length_bounds (A rho S x L : R) :
  0 <= rho -> rho * rho = A ->
  (1 - 3001 / 1000 * F32.eps) * A - 6 * h <= S
  <= (1 + 3001 / 1000 * F32.eps) * A + 6 * h ->
  S < 340282366920938463463374607431768211456 ->
  0 <= x -> x * x = S -> rounded h L x ->
  / 1048576 <= L ->
  (1 - 251 / 100 * F32.eps) * rho <= L <= (1 + 251 / 100 * F32.eps) * rho /\
  / 1200000 <= rho <= 36893488147419103232.
Proof.
  intros Hrho HA HS Hbig Hx Hxx HL Hthr.
  apply rounded_inv in HL. assert (H0 := h_small). unfold F32.eps in *.
  assert (Hx1 : 95 / 100000000 <= x) by lra.
  assert (HS1 : 95 / 100000000 * (95 / 100000000) <= S) by nra.
  assert (HA1 : 9 / 10000000000000 <= A) by nra.
  assert (Hrho1 : / 1200000 <= rho).
  { apply Rsqr_le_inv; [lra|exact Hrho|]. rewrite HA. lra. }
  assert (Hup : x <= (1 + 1501 / 1000 * / 8388608) * rho).
  { apply Rsqr_le_inv; [exact Hx|nra|]. rewrite Hxx. nra. }
  assert (Hlo : (1 - 1501 / 1000 * / 8388608) * rho <= x).
  { apply Rsqr_le_inv; [nra|exact Hx|]. rewrite Hxx. nra. }
  assert (Hx64 : x < 18446744073709551616).
  { apply Rsqr_lt_inv; [exact Hx|lra|]. rewrite Hxx. lra. }
  split; [split; lra|]. split; [exact Hrho1|lra].
Qed.

(** The rounded inverse of [L], times the exact length. *)
Lemma inverse_bounds (rho L inv : R) :
  (1 - 251 / 100 * F32.eps) * rho <= L <= (1 + 251 / 100 * F32.eps) * rho ->
  / 1200000 <= rho <= 36893488147419103232 ->
  rounded h inv (/ L) ->
  0 <= inv /\ 1 - 352 / 100 * F32.eps <= rho * inv <= 1 + 352 / 100 * F32.eps.
Proof.
  intros HL Hrho Hinv.
  apply rounded_inv in Hinv. assert (H0 := h_small). unfold F32.eps in *.
  assert (HL0 : 0 < L) by nra.
  assert (Hi0 : 0 < / L) by now apply Rinv_0_lt_compat.
  assert (Hi1 : L * / L = 1) by (apply Rinv_r; lra).
  set (i0 := / L) in *.
  assert (Hu1 : rho * i0 <= 1 + 252 / 100 * / 8388608).
  { assert ((1 - 251 / 100 * / 8388608) * (rho * i0) <= 1) by nra. nra. }
  assert (Hu2 : 1 - 251 / 100 * / 8388608 <= rho * i0).
  { assert (1 <= (1 + 251 / 100 * / 8388608) * (rho * i0)) by nra. nra. }
  assert (Hrh : rho * h <= / 100000000000000000000) by nra.
  assert (Hil : i0 <= 1300000).
  { assert (i0 * (/ 1300000) <= i0 * L) by nra. nra. }
  split; [nra|]. split; nra.
Qed.

(** The square of a rounded component of magnitude about one at most. *)
Lemma square_component (t n : R) :
  Rabs t <= 101 / 100 ->
  Rabs (n - t) <= F32.eps * Rabs t + h ->
  Rabs n <= 102 / 100 /\
  Rabs (n * n - t * t) <= 2001 / 1000 * F32.eps * (t * t) + 3 * h.
Proof.
  intros Ht Hn. assert (H0 := h_small). unfold F32.eps in *.
  apply Rabs_le_inv in Ht, Hn.
  split; apply Rabs_le; revert Hn; unfold Rabs; destruct (Rcase_abs t);
    intro Hn; split; nra.
Qed.

(** The computed length of the scaled vector. *)
Lemma unit_bounds (g G N T x L : R) :
  1 - 352 / 100 * F32.eps <= g <= 1 + 352 / 100 * F32.eps ->
  G = g * g ->
  Rabs (N - G) <= 2001 / 1000 * F32.eps * G + 9 * h ->
  (1 - 3001 / 1000 * F32.eps) * N - 6 * h <= T
  <= (1 + 3001 / 1000 * F32.eps) * N + 6 * h ->
  0 <= x -> x * x = T -> rounded h L x ->
  Rabs (L - 1) <= / 1000000.
Proof.
  intros Hg HG HN HT Hx Hxx HL.
  apply rounded_inv in HL. apply Rabs_le_inv in HN.
  assert (H0 := h_small). unfold F32.eps in *.
  assert (HG1 : 1 - 705 / 100 * / 8388608 <= G <= 1 + 705 / 100 * / 8388608)
    by (rewrite HG; split; nra).
  assert (HN1 : 1 - 906 / 100 * / 8388608 <= N <= 1 + 906 / 100 * / 8388608)
    by (split; nra).
  assert (HT1 : 1 - 1207 / 100 * / 8388608 <= T <= 1 + 1207 / 100 * / 8388608)
    by (split; nra).
  assert (Hup : x <= 1 + 604 / 100 * / 8388608).
  { apply Rsqr_le_inv; [exact Hx|lra|]. rewrite Hxx. nra. }
  assert (Hlo : 1 - 604 / 100 * / 8388608 <= x).
  { apply Rsqr_le_inv; [lra|exact Hx|]. rewrite Hxx. nra. }
  apply Rabs_le. split; nra.
Qed.

End Analysis.
End ErrorAnalysis.

(** ** [Normalize] in binary32 *)

Module NormalizeFacts.
Import Rounding ErrorAnalysis.
Local Open Scope R_scope.

Lemma bpow_127 : F32.bpow 127 = 170141183460469231731687303715884105728.
Proof. rewrite bpow_IZR by lia. reflexivity. Qed.

Lemma bpow_128 : F32.bpow 128 = 340282366920938463463374607431768211456.
Proof. rewrite bpow_IZR by lia. reflexivity. Qed.

Lemma to_R_one : F32.to_R (F32.of_int 1) = 1.
Proof.
  change (F32.of_int 1) with (S754_finite false 8388608 (-23)).
  rewrite to_R_finite. cbn [F32.sign_factor]. rewrite bpow_rel. unfold F32.eps. field.
Qed.

Lemma tiny_small : 0 <= F32.denorm_min <= / 10 ^ 40.
Proof. unfold F32.denorm_min. destruct bpow_tiny. split; lra. Qed.

(** *** Infinities in sums *)

Lemma add_infinity_l (b : F32.float) :
  positive_sign b = true ->
  F32.add (S754_infinity false) b = S754_infinity false.
Proof. now destruct b as [[]|[]| |[] m e]. Qed.

Lemma add_infinity_r (a : F32.float) :
  positive_sign a = true ->
  F32.add a (S754_infinity false) = S754_infinity false.
Proof. now destruct a as [[]|[]| |[] m e]. Qed.

(** *** Squares and sums of squares *)

Lemma square_cases (a : F32.float) :
  F32.finite a = true ->
  let q := F32.to_R a * F32.to_R a in
  positive_sign (F32.mul a a) = true /\
  ((F32.finite (F32.mul a a) = true /\ rounded F32.denorm_min (F32.to_R (F32.mul a a)) q) \/
   (F32.mul a a = S754_infinity false /\ F32.bpow 127 <= q)).
Proof.
  intros Ha. cbn zeta.
  assert (Hs := F32Laws.square_sign a (F32Units.finite_not_nan a Ha)).
  split; [exact Hs|].
  destruct (mul_error a a Ha Ha) as [[Hf He]|[[s Hi] Hb]];
    set (q := F32.to_R a * F32.to_R a) in *;
    assert (Hq : 0 <= q) by (unfold q; nra).
  - left. split; [exact Hf|]. unfold rounded, F32.denorm_min.
    rewrite (Rabs_right q) in He by lra. now rewrite <- bpow_rel.
  - right. rewrite Hi in Hs |- *. destruct s; [discriminate|].
    split; [reflexivity|].
    rewrite (Rabs_right q) in Hb by lra.
    rewrite bpow_rel, bpow_128 in Hb. rewrite bpow_127. unfold F32.eps in Hb. lra.
Qed.

Lemma sum_cases (p q : F32.float) :
  F32.finite p = true -> F32.finite q = true ->
  positive_sign p = true -> positive_sign q = true ->
  let t := F32.to_R p + F32.to_R q in
  positive_sign (F32.add p q) = true /\
  ((F32.finite (F32.add p q) = true /\
    rounded F32.denorm_min (F32.to_R (F32.add p q)) t) \/
   (F32.add p q = S754_infinity false /\ F32.bpow 128 <= t * (1 + F32.eps))).
Proof.
  intros Hp Hq Pp Pq. cbn zeta.
  split; [now apply F32Laws.add_sign|].
  destruct (add_error p q Hp Hq Pp Pq) as [[Hf [_ He]]|[Hi Hb]].
  - left. split; [exact Hf|]. unfold rounded, F32.denorm_min. now rewrite <- bpow_rel.
  - right. split; [exact Hi|]. now rewrite <- bpow_rel.
Qed.

(** The computed length of a vector of finite components: a number of
    the format that approximates the exact length, or +infinity when
    the squared length is beyond the range. *)
Lemma Length_cases (a b c : F32.float) :
  F32.finite a = true -> F32.finite b = true -> F32.finite c = true ->
  let A := F32.to_R a * F32.to_R a + F32.to_R b * F32.to_R b
           + F32.to_R c * F32.to_R c in
  let L := Length (mkVec3 (F:=binary32) a b c) in
  positive_sign L = true /\
  ((F32.finite L = true /\
    exists S x : R,
      (1 - 3001 / 1000 * F32.eps) * A - 6 * F32.denorm_min <= S
      <= (1 + 3001 / 1000 * F32.eps) * A + 6 * F32.denorm_min /\
      S < F32.bpow 128 /\ 0 <= x /\ x * x = S /\
      rounded F32.denorm_min (F32.to_R L) x) \/
   (L = S754_infinity false /\ F32.bpow 127 <= A)).
Proof.
  intros Ha Hb Hc A L.
  assert (HL : L = F32.sqrt (F32.add (F32.add (F32.mul a a) (F32.mul b b))
                                     (F32.mul c c))) by reflexivity.
  assert (Ht := tiny_small). assert (Hts := h_small F32.denorm_min Ht).
  destruct (square_cases a Ha) as [Pa Ca].
  destruct (square_cases b Hb) as [Pb Cb].
  destruct (square_cases c Hc) as [Pc Cc].
  set (a2 := F32.mul a a) in *. set (b2 := F32.mul b b) in *.
  set (c2 := F32.mul c c) in *.
  assert (P1 : positive_sign (F32.add a2 b2) = true) by now apply F32Laws.add_sign.
  assert (PS : positive_sign (F32.add (F32.add a2 b2) c2) = true)
    by now apply F32Laws.add_sign.
  split; [rewrite HL; now apply F32Laws.sqrt_sign|].
  assert (Qa : 0 <= F32.to_R a * F32.to_R a) by nra.
  assert (Qb : 0 <= F32.to_R b * F32.to_R b) by nra.
  assert (Qc : 0 <= F32.to_R c * F32.to_R c) by nra.
  destruct Ca as [[Fa Ra]|[Ia Ba]];
    [|right; split;
      [rewrite HL, Ia, !add_infinity_l by assumption; reflexivity|unfold A; lra]].
  destruct Cb as [[Fb Rb]|[Ib Bb]];
    [|right; split;
      [rewrite HL, Ib, add_infinity_r, add_infinity_l by assumption; reflexivity
      |unfold A; lra]].
  destruct Cc as [[Fc Rc]|[Ic Bc]];
    [|right; split;
      [rewrite HL, Ic, add_infinity_r by assumption; reflexivity|unfold A; lra]].
  assert (Ra' := rounded_inv _ _ _ Ra). assert (Rb' := rounded_inv _ _ _ Rb).
  assert (Rc' := rounded_inv _ _ _ Rc).
  destruct (sum_cases a2 b2 Fa Fb Pa Pb) as [_ [[F1 R1]|[I1 B1]]].
  2:{ right. split; [rewrite HL, I1, add_infinity_l by assumption; reflexivity|].
      rewrite bpow_128 in B1. rewrite bpow_127. unfold A, F32.eps in *. lra. }
  assert (R1' := rounded_inv _ _ _ R1).
  set (S1 := F32.add a2 b2) in *.
  destruct (sum_cases S1 c2 F1 Fc P1 Pc) as [_ [[F2 R2]|[I2 B2]]].
  2:{ right. split; [rewrite HL, I2; reflexivity|].
      rewrite bpow_128 in B2. rewrite bpow_127. unfold A, F32.eps in *. lra. }
  set (S := F32.add S1 c2) in *.
  left.
  assert (HS := sum3_bounds F32.denorm_min Ht _ _ _ _ _ _ _ _ Qa Qb Qc Ra Rb Rc R1 R2).
  fold A in HS.
  destruct (F32Facts.finite_cases S F2) as [[s E]|[s [m [e E]]]].
  - (* the sum is zero *)
    rewrite E in PS. destruct s; [discriminate|].
    assert (HL0 : L = S754_zero false) by (rewrite HL, E; reflexivity).
    split; [rewrite HL0; reflexivity|].
    exists 0, 0. rewrite E in HS. cbn [F32.to_R] in HS.
    assert (P128 := bpow_pos 128).
    split; [exact HS|]. split; [lra|]. split; [lra|]. split; [lra|].
    rewrite HL0. unfold rounded. cbn [F32.to_R].
    rewrite Rminus_diag, Rabs_R0. unfold F32.eps. lra.
  - rewrite E in PS, F2. destruct s; [discriminate|]. cbn [F32.finite] in F2.
    destruct (sqrt_error m e F2) as [FL [_ RL]]. cbn zeta in FL, RL.
    assert (HLe : L = F32.sqrt (S754_finite false m e)) by (rewrite HL, E; reflexivity).
    rewrite <- HLe in FL, RL.
    split; [exact FL|].
    destruct (to_R_bound false m e F2) as [Hlo Hhi].
    assert (Hv : F32.to_R (S754_finite false m e) = IZR (Z.pos m) * F32.bpow e).
    { rewrite to_R_finite. cbn [F32.sign_factor]. lra. }
    exists (F32.to_R S), (R_sqrt.sqrt (F32.to_R S)).
    rewrite E, Hv in *.
    split; [exact HS|]. split; [exact Hhi|]. split; [apply sqrt_pos|].
    split; [apply sqrt_sqrt; lra|].
    unfold rounded, F32.denorm_min. now rewrite <- bpow_rel.
Qed.

(** *** The threshold *)

Lemma bpow_m20 : F32.bpow (-20) = / 1048576.
Proof.
  apply Rmult_eq_reg_r with (F32.bpow 20).
  - rewrite <- bpow_add. rewrite (bpow_IZR 20) by lia.
    change (F32.bpow (-20 + 20)) with 1. change (IZR (2 ^ 20)) with 1048576. field.
  - assert (H := bpow_pos 20). lra.
Qed.

(** A computed length above [1e-6f] is a positive number of the format,
    of at least [2^-20]. *)
Lemma above_threshold (L : F32.float) :
  F32.finite L = true -> positive_sign L = true ->
  F32.leb L (dec 1 1000000) = false ->
  exists (m : positive) (e : Z),
    L = S754_finite false m e /\ bounded F32.prec F32.emax m e = true /\
    / 1048576 <= F32.to_R L.
Proof.
  intros HF HP.
  replace (@dec binary32 1 1000000) with (S754_finite false 8796093 (-43))
    by (vm_compute; reflexivity).
  destruct L as [s|s| |s m e]; try discriminate.
  destruct s; [discriminate HP|]. cbn [F32.finite] in HF.
  unfold F32.leb, SFleb, SFcompare. intro H.
  exists m, e. split; [reflexivity|]. split; [exact HF|].
  destruct (bounded_inv m e HF) as [Hd [Hn He]].
  assert (Hm : (e = -43 /\ 8796093 < Z.pos m)%Z \/ (-43 < e)%Z).
  { destruct (e ?= -43)%Z eqn:E.
    - apply Z.compare_eq in E. left. split; [exact E|].
      destruct (Pos.compare_cont Eq m 8796093) eqn:E2; try discriminate H.
      assert (E3 : (m ?= 8796093)%positive = Gt) by exact E2.
      apply Pos.compare_gt_iff in E3. lia.
    - discriminate H.
    - right. apply Z.compare_gt_iff in E. lia. }
  assert (Hm23 : (8388608 <= Z.pos m)%Z).
  { destruct Hm as [[_ Hm]|Hm]; [lia|].
    destruct (digits2_pos_bounds m) as [Hl _].
    replace (Z.pos (digits2_pos m)) with 24%Z in Hl by lia.
    exact Hl. }
  rewrite to_R_finite. cbn [F32.sign_factor]. rewrite Rmult_1_l.
  apply IZR_le in Hm23. rewrite <- bpow_23 in Hm23.
  assert (He43 := bpow_le (-43) e ltac:(lia)).
  rewrite <- bpow_m20. replace (-20)%Z with (23 + -43)%Z by lia.
  rewrite bpow_add.
  assert (P1 := bpow_pos 23). assert (P2 := bpow_pos (-43)). nra.
Qed.

(** *** The scaled components *)

Lemma Rabs_le_sqrt (t rho A : R) :
  0 <= rho -> rho * rho = A -> t * t <= A -> Rabs t <= rho.
Proof.
  intros Hr HA Ht. unfold Rabs.
  destruct (Rcase_abs t); apply Rsqr_le_inv; try lra; nra.
Qed.

(** A component times the inverse of the length: no overflow, and the
    square of the result is the square of the exact product, nearly. *)
Lemma scaled_component (a inv : F32.float) (rho : R) :
  F32.finite a = true -> F32.finite inv = true ->
  0 <= F32.to_R inv -> Rabs (F32.to_R a) <= rho ->
  rho * F32.to_R inv <= 101 / 100 ->
  let t := F32.to_R a * F32.to_R inv in
  let n := F32.to_R (F32.mul a inv) in
  F32.finite (F32.mul a inv) = true /\
  n * n <= 11 / 10 /\
  Rabs (n * n - t * t) <= 2001 / 1000 * F32.eps * (t * t) + 3 * F32.denorm_min.
Proof.
  intros Ha Hi Hi0 Hrho Hg. cbn zeta.
  assert (Ht := tiny_small).
  set (t := F32.to_R a * F32.to_R inv).
  assert (Habs : Rabs t <= 101 / 100).
  { unfold t. rewrite Rabs_mult, (Rabs_right (F32.to_R inv)) by lra.
    assert (H0 := Rabs_pos (F32.to_R a)). nra. }
  destruct (mul_error a inv Ha Hi) as [[Hf He]|[_ Hb]]; fold t in He || fold t in Hb.
  - rewrite bpow_rel in He. fold F32.denorm_min in He.
    destruct (square_component F32.denorm_min Ht t _ Habs He) as [Hn Hsq].
    split; [exact Hf|]. split; [|exact Hsq].
    apply Rabs_le_inv in Hn. nra.
  - exfalso. rewrite bpow_rel, bpow_128 in Hb. unfold F32.eps in Hb.
    assert (H0 := Rabs_pos t). nra.
Qed.

(** *** The length of a normalized vector *)

(** A vector of finite components whose computed length is finite and
    above the threshold is scaled to a vector whose computed length is
    one, within a millionth. *)
Lemma Normalize_unit_length (a b c : F32.float) :
  F32.finite a = true -> F32.finite b = true -> F32.finite c = true ->
  let v := mkVec3 (F:=binary32) a b c in
  F32.finite (Length v) = true ->
  F32.leb (Length v) (dec 1 1000000) = false ->
  F32.finite (Length (Normalize v)) = true /\
  Rabs (F32.to_R (Length (Normalize v)) - 1) <= / 1000000.
Proof.
  intros Ha Hb Hc v HF Hleb.
  assert (Ht := tiny_small). assert (Hts := h_small F32.denorm_min Ht).
  rewrite (Normalize_long v Hleb).
  destruct (Length_cases a b c Ha Hb Hc)
    as [PL [[_ [S [x [HS [Hbig [Hx [Hxx HLx]]]]]]]|[IL _]]];
    [|fold v in IL; rewrite IL in HF; discriminate HF].
  fold v in PL, HLx.
  destruct (above_threshold (Length v) HF PL Hleb) as [mL [eL [EL [BL Hthr]]]].
  set (ra := F32.to_R a) in *. set (rb := F32.to_R b) in *.
  set (rc := F32.to_R c) in *.
  set (A := ra * ra + rb * rb + rc * rc) in *.
  assert (HA0 : 0 <= A) by (unfold A; nra).
  set (rho := R_sqrt.sqrt A).
  assert (Hrho : 0 <= rho) by apply sqrt_pos.
  assert (Hrr : rho * rho = A) by (apply sqrt_sqrt; exact HA0).
  rewrite bpow_128 in Hbig.
  destruct (length_bounds F32.denorm_min Ht A rho S x _ Hrho Hrr HS Hbig Hx Hxx HLx Hthr)
    as [HLb Hrb].
  (* the inverse of the length *)
  set (inv := @div binary32 one (Length v)).
  assert (Hinv : F32.finite inv = true /\ 0 <= F32.to_R inv /\
                 rounded F32.denorm_min (F32.to_R inv) (/ F32.to_R (Length v))).
  { assert (HL0 : 0 < F32.to_R (Length v)) by lra.
    assert (Hd := div_error 8388608 mL (-23) eL). cbn zeta in Hd.
    change (S754_finite false 8388608 (-23)) with (F32.of_int 1) in Hd.
    rewrite <- EL in Hd. rewrite to_R_one in Hd.
    change (F32.div (F32.of_int 1) (Length v)) with inv in Hd.
    replace (1 / F32.to_R (Length v)) with (/ F32.to_R (Length v)) in Hd
      by (unfold Rdiv; ring).
    destruct Hd as [[Hf [H0 He]]|[_ Hbg]].
    - split; [exact Hf|]. split; [exact H0|].
      unfold rounded, F32.denorm_min. now rewrite <- bpow_rel.
    - exfalso. rewrite bpow_rel, bpow_128 in Hbg. unfold F32.eps in Hbg.
      assert (Hi : / F32.to_R (Length v) <= 1048576).
      { rewrite <- (Rinv_inv 1048576). apply Rinv_le_contravar; lra. }
      lra. }
  destruct Hinv as [Finv [Hi0 Rinv]].
  destruct (inverse_bounds F32.denorm_min Ht rho _ _ HLb Hrb Rinv) as [_ Hg].
  set (ri := F32.to_R inv) in *.
  assert (Hg1 : rho * ri <= 101 / 100) by (unfold F32.eps in Hg; lra).
  (* the three components *)
  assert (Aa : Rabs ra <= rho) by (apply (Rabs_le_sqrt ra rho A); [exact Hrho|exact Hrr|unfold A; nra]).
  assert (Ab : Rabs rb <= rho) by (apply (Rabs_le_sqrt rb rho A); [exact Hrho|exact Hrr|unfold A; nra]).
  assert (Ac : Rabs rc <= rho) by (apply (Rabs_le_sqrt rc rho A); [exact Hrho|exact Hrr|unfold A; nra]).
  destruct (scaled_component a inv rho Ha Finv Hi0 Aa Hg1) as [Fa [Na Sa]].
  destruct (scaled_component b inv rho Hb Finv Hi0 Ab Hg1) as [Fb [Nb Sb]].
  destruct (scaled_component c inv rho Hc Finv Hi0 Ac Hg1) as [Fc [Nc Sc]].
  fold ra ri in Sa. fold rb ri in Sb. fold rc ri in Sc.
  change (vscale v (one / Length v)%num)
    with (mkVec3 (F:=binary32) (F32.mul a inv) (F32.mul b inv) (F32.mul c inv)).
  set (na := F32.mul a inv) in *. set (nb := F32.mul b inv) in *.
  set (nc := F32.mul c inv) in *.
  destruct (Length_cases na nb nc Fa Fb Fc)
    as [_ [[FL' [T [x' [HT [_ [Hx' [Hxx' HLx']]]]]]]|[_ Hover]]].
  2:{ exfalso. rewrite bpow_127 in Hover. lra. }
  split; [exact FL'|].
  apply (unit_bounds F32.denorm_min Ht (rho * ri)
           ((ra * ri) * (ra * ri) + (rb * ri) * (rb * ri) + (rc * ri) * (rc * ri))
           (F32.to_R na * F32.to_R na + F32.to_R nb * F32.to_R nb
            + F32.to_R nc * F32.to_R nc) T x');
    try assumption.
  - transitivity (A * (ri * ri)); [unfold A; ring|rewrite <- Hrr; ring].
  - apply Rabs_le_inv in Sa, Sb, Sc. apply Rabs_le. lra.
Qed.

End NormalizeFacts.

(** C4.  [Normalize] returns its argument unchanged when the computed
    length is at most [1e-6f], and the argument scaled by [1 / length]
    otherwise, for binary32 as for every interpretation of the scalar
    operations.  In binary32, when the components are finite and the
    computed length is finite (the squared length has not overflowed) and
    above [1e-6f], the scaled vector has a computed length that is a
    number and differs from 1 by at most a millionth.  A finite vector
    whose computed length is infinite, its squared length having
    overflowed, is scaled to a zero vector, of length zero.  In exact
    arithmetic the scaled vector has length one. *)
Theorem Normalize_spec :
  (forall (F : Scalar) (v : Vec3 F),
      (Length v <=? dec 1 1000000)%num = true -> Normalize v = v) /\
  (forall (F : Scalar) (v : Vec3 F),
      (Length v <=? dec 1 1000000)%num = false ->
      Normalize v = vscale v (one / Length v)%num) /\
  (forall v : Vec3 binary32,
      F32.finite (x v) = true -> F32.finite (y v) = true ->
      F32.finite (z v) = true ->
      F32.finite (Length v) = true ->
      (Length v <=? dec 1 1000000)%num = false ->
      F32.finite (Length (Normalize v)) = true /\
      (Rabs (F32.to_R (Length (Normalize v)) - 1) <= / 1000000)%R) /\
  (forall v : Vec3 binary32,
      F32.finite (x v) = true -> F32.finite (y v) = true ->
      F32.finite (z v) = true ->
      Length v = S754_infinity false ->
      (exists sx sy sz,
          Normalize v = mkVec3 (S754_zero sx) (S754_zero sy) (S754_zero sz)) /\
      Length (Normalize v) = zero) /\
  (forall v : Vec3 exact,
      @leb exact (Length v) (dec 1 1000000) = false ->
      Length (Normalize v) = 1%R).
Proof.
  split; [|split; [|split; [|split]]].
  - intros F v. apply Normalize_short.
  - intros F v. apply Normalize_long.
  - intros [a b c]. cbn [x y z]. apply NormalizeFacts.Normalize_unit_length.
  - apply Normalize_infinite_length.
  - apply exact_Normalize_unit.
Qed.

(** The vector (2^64, 0, 0): its squared length overflows, the computed
    length is infinite, its inverse is zero, and the result is the zero
    vector, of length zero. *)
Lemma Normalize_overflow :
  let v := mkVec3 (F:=binary32) (F32.pow2 64) zero zero in
  F32.finite (x v) = true /\
  Length v = S754_infinity false /\
  (Length v <=? dec 1 1000000)%num = false /\
  x (Normalize v) = zero /\ y (Normalize v) = zero /\ z (Normalize v) = zero /\
  Length (Normalize v) = zero /\
  (Length (Normalize v) <? dec 1 2)%num = true.
Proof. vm_compute. repeat split. Qed.

(** The vectors (0, 0, 0) and (3, 4, 0) in binary32, and (3, 4, 0) in
    exact arithmetic. *)
Lemma Normalize_spec_witness :
  let o := mkVec3 (F:=binary32) zero zero zero in
  let v := mkVec3 (F:=binary32) (of_int 3) (of_int 4) zero in
  let w := mkVec3 (F:=exact) 3%R 4%R 0%R in
  ((Length o <=? dec 1 1000000)%num = true /\ Normalize o = o) /\
  ((Length v <=? dec 1 1000000)%num = false /\
   Normalize v = vscale v (one / Length v)%num /\
   Length (Normalize v) = one) /\
  ((F32.finite (x v) = true /\ F32.finite (y v) = true /\
    F32.finite (z v) = true /\ F32.finite (Length v) = true) /\
   F32.finite (Length (Normalize v)) = true /\
   (Rabs (F32.to_R (Length (Normalize v)) - 1) <= / 1000000)%R) /\
  (@leb exact (Length w) (dec 1 1000000) = false /\
   Length (Normalize w) = 1%R).
Proof.
  intros o v w.
  destruct Normalize_spec as [Hshort [Hlong [Hnear [_ Hunit]]]].
  assert (Ho : (Length o <=? dec 1 1000000)%num = true) by reflexivity.
  assert (Hv : (Length v <=? dec 1 1000000)%num = false) by reflexivity.
  assert (Hx : F32.finite (x v) = true) by reflexivity.
  assert (Hy : F32.finite (y v) = true) by reflexivity.
  assert (Hz : F32.finite (z v) = true) by reflexivity.
  assert (HL : F32.finite (Length v) = true) by reflexivity.
  assert (Hw : @leb exact (Length w) (dec 1 1000000) = false).
  { change (Length w) with (R_sqrt.sqrt (3 * 3 + 4 * 4 + 0 * 0)%R).
    replace (3 * 3 + 4 * 4 + 0 * 0)%R with (5 * 5)%R by ring.
    rewrite sqrt_square by lra. cbn.
    destruct (Rle_dec 5 (1 / 1000000)); [lra|reflexivity]. }
  split; [split; [exact Ho|exact (Hshort binary32 o Ho)]|].
  split; [split; [exact Hv|split; [exact (Hlong binary32 v Hv)|reflexivity]]|].
  split; [split; [repeat split; assumption|exact (Hnear v Hx Hy Hz HL Hv)]|].
  split; [exact Hw|exact (Hunit w Hw)].
Defined.

(** ** The pitch step in binary32 *)

Module PitchStep.
Import Rounding ErrorAnalysis NormalizeFacts.
Local Open Scope R_scope.

Lemma bpow_122 : F32.bpow 122 = 5316911983139663491615228241121378304.
Proof. rewrite bpow_IZR by lia. reflexivity. Qed.

Lemma to_R_rotationSpeed : F32.to_R (rotationSpeed (F:=binary32)) = 50.
Proof.
  change (rotationSpeed (F:=binary32)) with (S754_finite false 13107200 (-18)).
  rewrite to_R_finite. cbn [F32.sign_factor].
  assert (H : F32.bpow (-18) * F32.bpow 18 = 1) by (rewrite <- bpow_add; reflexivity).
  rewrite (bpow_IZR 18) in H by lia. change (IZR (2 ^ 18)) with 262144 in H. lra.
Qed.

Lemma to_R_half : F32.to_R (@dec binary32 1 2) = / 2.
Proof.
  replace (@dec binary32 1 2) with (S754_finite false 8388608 (-24))
    by (vm_compute; reflexivity).
  rewrite to_R_finite. cbn [F32.sign_factor].
  assert (H : F32.bpow (-24) * F32.bpow 24 = 1) by (rewrite <- bpow_add; reflexivity).
  rewrite bpow_24 in H. lra.
Qed.

(** The pitch step is a number for every elapsed time of at most [2^122]
    seconds. *)
Lemma pitch_step_finite (dt : F32.float) :
  F32.finite dt = true -> Rabs (F32.to_R dt) <= F32.bpow 122 ->
  F32.finite (pitch_step dt) = true.
Proof.
  intros Hdt Hb. rewrite bpow_122 in Hb.
  assert (Ht := tiny_small). assert (Hts := h_small F32.denorm_min Ht). unfold F32.denorm_min in Hts.
  assert (H50 : F32.finite (rotationSpeed (F:=binary32)) = true) by reflexivity.
  assert (Hh : F32.finite (@dec binary32 1 2) = true) by (vm_compute; reflexivity).
  unfold pitch_step.
  change (F32.finite (F32.mul (F32.mul (@rotationSpeed binary32) dt) (@dec binary32 1 2)) = true).
  assert (H0 := Rabs_pos (F32.to_R dt)).
  destruct (mul_error (@rotationSpeed binary32) dt H50 Hdt) as [[Hf He]|[_ Hbig]];
    rewrite to_R_rotationSpeed, Rabs_mult, (Rabs_right 50), bpow_rel in * by lra.
  2:{ exfalso. rewrite bpow_128 in Hbig. unfold F32.eps in Hbig. lra. }
  set (p := F32.mul (@rotationSpeed binary32) dt) in *.
  apply Rabs_le_inv in He.
  assert (Hp : Rabs (F32.to_R p) <= 50 * Rabs (F32.to_R dt) * (1 + F32.eps) + F32.bpow (-149)).
  { assert (Hd := Rabs_le_inv _ _ (Rle_refl (Rabs (F32.to_R dt)))).
    apply Rabs_le. unfold F32.eps in *. lra. }
  assert (H1 := Rabs_pos (F32.to_R p)).
  destruct (mul_error p (@dec binary32 1 2) Hf Hh) as [[Hf2 _]|[_ Hbig]]; [exact Hf2|].
  exfalso. rewrite to_R_half, Rabs_mult, (Rabs_right (/ 2)), bpow_rel, bpow_128 in Hbig
    by lra.
  unfold F32.eps in *. lra.
Qed.

End PitchStep.

(** C7.  After the pitch keys and the two clamping tests the pitch is
    never above 89 and never below -89, whatever the keys, the elapsed
    time and the pitch before; it lies in [-89, 89] whenever it is a
    number.  It is a number, and so remains within [-89, 89] after every
    pass of a run started within [-89, 89], for every sequence of keys and
    of elapsed times whose pitch step 50 * dt * 0.5 is finite; the step
    is finite for every elapsed time of at most 2^122 seconds, so the
    pitch remains within [-89, 89] through every run whose elapsed times
    are numbers of at most 2^122 seconds.  In exact arithmetic it lies in
    [-89, 89] after every update. *)
Theorem pitch_stays_clamped (k : Keys) (dt p : num) :
  ((turn_pitch k dt p >? of_int 89)%num = false /\
   (turn_pitch k dt p <? - of_int 89)%num = false) /\
  (F32.is_nan (turn_pitch k dt p) = false ->
   in_pitch_range (turn_pitch k dt p) = true) /\
  (in_pitch_range p = true -> F32.finite (pitch_step dt) = true ->
   in_pitch_range (turn_pitch k dt p) = true) /\
  (forall (T : Trig binary32) (inputs : list (num * Keys)) (w : World binary32),
      in_pitch_range (pitch (camera w)) = true ->
      Forall (fun i => F32.finite (pitch_step (fst i)) = true) inputs ->
      Forall (fun wf => in_pitch_range (pitch (camera (fst wf))) = true)
             (run inputs w)) /\
  (forall dt' : num,
      F32.finite dt' = true -> (Rabs (F32.to_R dt') <= F32.bpow 122)%R ->
      F32.finite (pitch_step dt') = true) /\
  (forall (T : Trig binary32) (inputs : list (num * Keys)) (w : World binary32),
      in_pitch_range (pitch (camera w)) = true ->
      Forall (fun i => F32.finite (fst i) = true /\
                       (Rabs (F32.to_R (fst i)) <= F32.bpow 122)%R) inputs ->
      Forall (fun wf => in_pitch_range (pitch (camera (fst wf))) = true)
             (run inputs w)) /\
  (forall (k' : Keys) (dt' p' : R),
      in_pitch_range (F:=exact) (turn_pitch (F:=exact) k' dt' p') = true).
Proof.
  assert (Hnever : forall k dt p,
             (turn_pitch k dt p >? of_int 89)%num = false /\
             (turn_pitch k dt p <? - of_int 89)%num = false).
  { intros k' dt' p'. unfold turn_pitch. apply clamp_never_beyond. }
  assert (Hnum : forall k dt p,
             F32.is_nan (turn_pitch k dt p) = false ->
             in_pitch_range (turn_pitch k dt p) = true).
  { intros k' dt' p' Hn. destruct (Hnever k' dt' p') as [H1 H2].
    now apply in_pitch_range_of_bounds. }
  assert (Hstep : forall k dt p,
             in_pitch_range p = true -> F32.finite (pitch_step dt) = true ->
             in_pitch_range (turn_pitch k dt p) = true).
  { intros k' dt' p' Hp Hfin. apply Hnum. apply turn_pitch_not_nan; [|exact Hfin].
    unfold in_pitch_range in Hp. apply andb_prop in Hp as [_ Hp].
    now apply F32Facts.leb_not_nan in Hp as [Hp _]. }
  assert (Hrun : forall (T : Trig binary32) (inputs : list (num * Keys))
                        (w : World binary32),
             in_pitch_range (pitch (camera w)) = true ->
             Forall (fun i => F32.finite (pitch_step (fst i)) = true) inputs ->
             Forall (fun wf => in_pitch_range (pitch (camera (fst wf))) = true)
                    (run inputs w)).
  { intros T inputs.
    induction inputs as [|[dt' k'] rest IH]; intros w Hw Hall.
    - constructor.
    - inversion Hall as [|i l Hi Hrest]; subst. cbn [fst] in Hi.
      cbn [run]. constructor.
      + cbn [frame fst camera update_camera pitch]. now apply Hstep.
      + apply IH; [|exact Hrest].
        cbn [frame fst camera update_camera pitch]. now apply Hstep. }
  split; [apply Hnever|]. split; [apply Hnum|]. split; [apply Hstep|].
  split; [exact Hrun|]. split; [exact PitchStep.pitch_step_finite|].
  split; [|apply exact_turn_pitch].
  intros T inputs w Hw Hall. apply Hrun; [exact Hw|].
  eapply Forall_impl; [|exact Hall].
  intros i [Hi1 Hi2]. now apply PitchStep.pitch_step_finite.
Qed.

(** Outside this range: with both pitch keys held and an elapsed time of
    2^125 seconds the step overflows, and the pitch becomes NaN, which
    the clamping tests let through. *)
Lemma pitch_not_a_number :
  let both := mkKeys false false false false false false false false true true in
  let dt : num := F32.pow2 125 in
  let p : num := (- of_int 15)%num in
  (dt >? zero)%num = true /\
  in_pitch_range p = true /\
  turn_pitch both dt p = S754_nan /\
  in_pitch_range (turn_pitch both dt p) = false.
Proof. vm_compute. repeat split. Qed.

(** A sixtieth of a second with the up key held, from the initial pitch. *)
Lemma pitch_stays_clamped_witness :
  let up := mkKeys false false false false false false false false true false in
  let dt : num := dec 1 60 in
  let p : num := pitch initial_camera in
  in_pitch_range p = true /\
  F32.finite (pitch_step dt) = true /\
  in_pitch_range (turn_pitch up dt p) = true.
Proof.
  intros up dt p.
  assert (Hp : in_pitch_range p = true) by reflexivity.
  assert (Hs : F32.finite (pitch_step dt) = true) by reflexivity.
  split; [exact Hp|]. split; [exact Hs|].
  exact (proj1 (proj2 (proj2 (pitch_stays_clamped up dt p))) Hp Hs).
Defined.

(** ** The accuracy of the computed length *)

Section LengthAccuracy.
Import Rounding ErrorAnalysis NormalizeFacts.
Local Open Scope R_scope.

(** X22.  The computed length of a vector of finite components is a
    number of the format or +infinity, and it is +infinity only when the
    exact squared length is at least 2^127.  When it is a number of at
    least 2^-20, it is the exact Euclidean length of the vector up to a
    relative error of 2.51 * 2^-23. *)
Theorem binary32_Length_accuracy (v : Vec3 binary32) :
  F32.finite (x v) = true -> F32.finite (y v) = true ->
  F32.finite (z v) = true ->
  let A := F32.to_R (x v) * F32.to_R (x v) + F32.to_R (y v) * F32.to_R (y v)
           + F32.to_R (z v) * F32.to_R (z v) in
  (F32.finite (Length v) = true \/ Length v = S754_infinity false) /\
  (Length v = S754_infinity false -> F32.bpow 127 <= A) /\
  (F32.finite (Length v) = true -> / 1048576 <= F32.to_R (Length v) ->
   Rabs (F32.to_R (Length v) - R_sqrt.sqrt A)
   <= 251 / 100 * / 8388608 * R_sqrt.sqrt A).
Proof.
  destruct v as [a b c]. intros Ha Hb Hc A. cbn [x y z] in *.
  assert (Ht := tiny_small).
  destruct (Length_cases a b c Ha Hb Hc)
    as [_ [[FL [S [x0 [HS [Hbig [Hx [Hxx HLx]]]]]]]|[IL HA]]]; fold A in HS || fold A in HA.
  - split; [now left|]. split.
    + intro H. rewrite H in FL. discriminate FL.
    + intros _ Hthr.
      assert (HA0 : 0 <= A) by (unfold A; nra).
      rewrite bpow_128 in Hbig.
      destruct (length_bounds F32.denorm_min Ht A (R_sqrt.sqrt A) S x0 _
                  (sqrt_pos A) (sqrt_sqrt A HA0) HS Hbig Hx Hxx HLx Hthr)
        as [HLb _].
      unfold F32.eps in HLb. apply Rabs_le. lra.
  - split; [now right|]. split; [intros _; exact HA|].
    intro H. rewrite IL in H. discriminate H.
Qed.

(** The vector (3, 4, 0), of length 5. *)
Lemma binary32_Length_accuracy_witness :
  let v := mkVec3 (F:=binary32) (of_int 3) (of_int 4) zero in
  let A := F32.to_R (x v) * F32.to_R (x v) + F32.to_R (y v) * F32.to_R (y v)
           + F32.to_R (z v) * F32.to_R (z v) in
  F32.finite (Length v) = true /\ / 1048576 <= F32.to_R (Length v) /\
  Rabs (F32.to_R (Length v) - R_sqrt.sqrt A)
  <= 251 / 100 * / 8388608 * R_sqrt.sqrt A.
Proof.
  intros v A.
  assert (Hx : F32.finite (x v) = true) by reflexivity.
  assert (Hy : F32.finite (y v) = true) by reflexivity.
  assert (Hz : F32.finite (z v) = true) by reflexivity.
  assert (HF : F32.finite (Length v) = true) by (vm_compute; reflexivity).
  assert (HL : / 1048576 <= F32.to_R (Length v)).
  { replace (Length v) with (S754_finite false 10485760 (-21))
      by (vm_compute; reflexivity).
    rewrite to_R_finite. cbn [F32.sign_factor].
    assert (H : F32.bpow (-21) * F32.bpow 21 = 1)
      by (rewrite <- bpow_add; reflexivity).
    rewrite (bpow_IZR 21) in H by lia. change (IZR (2 ^ 21)) with 2097152 in H.
    lra. }
  split; [exact HF|]. split; [exact HL|].
  exact (proj2 (proj2 (binary32_Length_accuracy v Hx Hy Hz)) HF HL).
Defined.

End LengthAccuracy.
